(** * personal-os-v1: lineage ledger, entity merge engine, reconciliation
      decisions, the store and the migration

    A shallow embedding of
    - [storage/schema.py] ([EntityLineage], [ReconciliationDecision],
      [StorageSchema]),
    - [scripts/hybrid_entity_resolution_with_lineage.py]
      ([EntityMergeJobWithLineage]),
    - [scripts/reconcile_with_decisions.py]
      ([create_reconciliation_decision]),
    - [scripts/migrate_to_schema.py] (the migration of a canonical
      ledger).

    Conventions.  A Python [dict] read with [.get(key, default)] is a
    record of [option] fields ([None] = key absent); a dict used as a
    collection keyed by id is a [gmap string _]; a [set] is a [gset].
    A number the code computes with is a [number]: a Python int ([Z]) or a
    float (binary64), with the arithmetic of Python; a number that is only
    stored or printed is kept as the rational it stands for ([Q]).
    [datetime.now()] is an explicit clock: a function from the number of
    reads made so far to the text of the reading.  A call that can raise
    returns an [outcome]. *)

From Stdlib Require Import QArith Qabs Ascii Floats.SpecFloat.
From stdpp Require Import gmap strings list fin_maps pretty.

Local Open Scope string_scope.

(** ** Exceptions *)

(** A call returns a value or raises; [E] is what a raised exception
    carries. *)
Inductive outcome (E A : Type) : Type :=
| Ok (a : A)
| Raise (e : E).
Arguments Ok {E A} a.
Arguments Raise {E A} e.

(** Where [KeyError] is the only exception in play, the exception is its
    key. *)
Notation result := (outcome string).
Notation KeyError key := (Raise key) (only parsing).

#[global] Instance result_ret {E : Type} : MRet (outcome E) :=
  fun A a => Ok a.

#[global] Instance result_bind {E : Type} : MBind (outcome E) :=
  fun A B k r =>
  match r with
  | Ok a => k a
  | Raise e => Raise e
  end.

#[global] Instance result_fmap {E : Type} : FMap (outcome E) :=
  fun A B f r =>
  match r with
  | Ok a => Ok (f a)
  | Raise e => Raise e
  end.

(** ** Python numbers *)

(** A Python [float] is an IEEE 754 binary64 number.  The operations are
    those of the Standard Library's executable specification of IEEE 754
    arithmetic ([SpecFloat]), which round to nearest, ties to even. *)
Module Float64.

Definition prec : Z := 53.
Definition emax : Z := 1024.

Definition add : spec_float → spec_float → spec_float := SFadd prec emax.
Definition div : spec_float → spec_float → spec_float := SFdiv prec emax.

(** [float(z)] for an int [z]: the nearest double.  The result is an
    infinity exactly where Python raises [OverflowError] instead. *)
Definition of_int (z : Z) : spec_float := binary_normalize prec emax z 0 false.

(** An int as an unrounded operand. *)
Definition exact (z : Z) : spec_float :=
  match z with
  | Z0 => S754_zero false
  | Zpos m => S754_finite false m 0
  | Zneg m => S754_finite true m 0
  end.

(** [a / b] for two ints, [b] not 0: the quotient of the two ints, rounded
    once.  It is also the double that the decimal literal [a/b] denotes
    when [b] is a power of ten. *)
Definition ratio (a b : Z) : spec_float := div (exact a) (exact b).

Definition zero : spec_float := S754_zero false.
Definition one : spec_float := of_int 1.


End Float64.

(** A Python number, as [json.load] gives it: an int or a float. *)
Inductive number :=
| Int (z : Z)
| Float (f : spec_float).

(** The float operand that Python makes of a number in mixed
    arithmetic. *)
Definition to_float (x : number) : spec_float :=
  match x with
  | Int z => Float64.of_int z
  | Float f => f
  end.

(** [x + y]: exact on two ints, binary64 addition otherwise.  (For an int
    beyond the doubles next to a float Python raises [OverflowError].) *)
Definition py_add (x y : number) : number :=
  match x, y with
  | Int a, Int b => Int (a + b)
  | _, _ => Float (Float64.add (to_float x) (to_float y))
  end.

(** [sum(values)]: the values are added one by one, from the left, to the
    int 0, as CPython does up to version 3.11 (later versions compensate
    the rounding errors of a float sum). *)
Definition py_sum (values : list number) : number :=
  fold_left py_add values (Int 0).

(** [x / y] for [y] not 0: always a float; the quotient of two ints is
    rounded once.  (Python raises [OverflowError] where the quotient of
    two ints, or an int operand next to a float, is beyond the doubles.) *)
Definition py_truediv (x y : number) : number :=
  match x, y with
  | Int a, Int b => Float (Float64.ratio a b)
  | _, _ => Float (Float64.div (to_float x) (to_float y))
  end.


(** A JSON value where the code expects a number: [null], a boolean, a
    number, a text - with the double that [float()] reads from it, [None]
    if [float()] rejects the text - or a list or object. *)
Inductive json_value :=
| JNull
| JBool (b : bool)
| JNumber (x : number)
| JText (s : string) (as_float : option spec_float)
| JOther.

(** ** Formatting helpers used by the f-strings of the source *)

(** [f"{n:06d}"] for a non-negative counter: decimal digits, left-padded
    with zeros to width six (longer numbers are printed in full). *)
Definition zero_pad (width : nat) (s : string) : string :=
  String.concat "" (replicate (width - String.length s) "0") ++ s.

Definition format_06d (n : nat) : string := zero_pad 6 (pretty n).

(** [f"{x:.2f}"]: the value rounded to two decimals, ties to even; a
    negative value keeps its sign when it rounds to zero. *)
Definition round_half_even (q : Q) : Z :=
  let n := Qnum q in
  let d := Zpos (Qden q) in
  let f := (n / d)%Z in
  let twice_rem := (2 * (n mod d))%Z in
  if (twice_rem <? d)%Z then f
  else if (d <? twice_rem)%Z then (f + 1)%Z
  else if Z.even f then f else (f + 1)%Z.

Definition format_2f (q : Q) : string :=
  let cents := round_half_even (q * 100) in
  let a := Z.abs cents in
  (if (Qnum q <? 0)%Z then "-" else "")
  ++ pretty (a / 100)%Z ++ "." ++ zero_pad 2 (pretty (a mod 100)%Z).

(** * storage/schema.py *)

Module Schema.

(** The [metadata] dict of a lineage record, with the keys the merge
    engine writes. *)
Record lineage_metadata := {
  merged_canonical_name : option string;
  primary_canonical_name : option string;
  transaction_count_transferred : Z;
  amount_transferred : number
}.

Record EntityLineage := {
  lineage_id : string;
  timestamp : string;
  old_entity_id : string;
  new_entity_id : string;
  operation : string;
  reason : string;
  confidence : Q;
  performed_by : string;
  affected_statement_ids : list string;
  metadata : lineage_metadata;
  created_at : string
}.

(** One value of [field_strategies], with the four keys the decision
    builder writes. *)
Record field_strategy := {
  strategy : string;
  chosen_obs : string;
  fs_confidence : number;
  fs_alternatives : list string
}.

(** [cluster_metadata], with the keys the decision builder writes. *)
Record cluster_metadata_t := {
  observation_count : nat;
  data_sources : list string;
  reconciliation_timestamp : string
}.

(** [field_strategies] is a dict in insertion order: an association list
    with distinct keys. *)
Record ReconciliationDecision := {
  decision_id : string;
  decision_timestamp : string;
  observation_ids : list (option string);
  cluster_metadata : cluster_metadata_t;
  field_strategies : list (string * field_strategy);
  created_statement_ids : list string;
  decision_confidence : number;
  decision_method : string;
  decision_created_at : string
}.

(** [StorageSchema.get_entity_lineage] *)
Definition get_entity_lineage (entity_lineage : list EntityLineage)
    (entity_id : string) : list EntityLineage :=
  List.filter
    (fun record => bool_decide (old_entity_id record = entity_id
                                ∨ new_entity_id record = entity_id))
    entity_lineage.

(** The inner [for record in self.entity_lineage] of
    [resolve_current_entity_id]: the [new_entity_id] of the first record
    whose [old_entity_id] is [current_id]; [None] is [found_newer = False]. *)
Definition find_newer (entity_lineage : list EntityLineage)
    (current_id : string) : option string :=
  new_entity_id <$>
    List.find (fun record => bool_decide (old_entity_id record = current_id))
              entity_lineage.

(** The [while current_id not in visited] loop.  [fuel] bounds the number
    of evaluations of the loop condition; [None] means the bound was hit
    before the loop was left. *)
Fixpoint resolve_loop (entity_lineage : list EntityLineage) (fuel : nat)
    (current_id : string) (visited : gset string) : option string :=
  match fuel with
  | O => None
  | S fuel' =>
      if decide (current_id ∈ visited) then Some current_id
      else
        match find_newer entity_lineage current_id with
        | Some newer =>
            resolve_loop entity_lineage fuel' newer ({[current_id]} ∪ visited)
        | None => Some current_id
        end
  end.

(** [StorageSchema.resolve_current_entity_id].  One more evaluation of the
    loop condition than there are ledger records is always enough, as
    proved below, so the [default] is never taken. *)
Definition resolve_current_entity_id (entity_lineage : list EntityLineage)
    (entity_id : string) : string :=
  default entity_id
    (resolve_loop entity_lineage (S (length entity_lineage)) entity_id ∅).

(** [chain path a b]: following the edges chosen by [find_newer] from [a]
    visits exactly the ids of [path], in order, and arrives at [b]. *)
Inductive chain (entity_lineage : list EntityLineage)
  : list string → string → string → Prop :=
| chain_nil a : chain entity_lineage [] a a
| chain_cons a b c path :
    find_newer entity_lineage a = Some b →
    chain entity_lineage path b c →
    chain entity_lineage (a :: path) a c.

End Schema.

(** * scripts/hybrid_entity_resolution_with_lineage.py *)

Module Merge.

(** An entity record of the registry file: a JSON object, with the keys the
    merge engine reads or writes.  [None] is an absent key; counts are
    ints, amounts are ints or floats. *)
Record entity := {
  canonical_name : option string;
  aliases : option (list string);
  transaction_count : option Z;
  total_amount_usd : option number;
  merged_from : option (list string);
  last_merged : option string;
  lineage_id : option string;
  status : option string;
  superseded_by : option string;
  superseded_at : option string
}.

(** One entry of [merge_log]. *)
Record log_entry := {
  log_primary : string;
  log_secondary : string;
  log_similarity : Q;
  log_timestamp : string;
  log_lineage_id : string
}.

(** The two attributes [EntityMergeJobWithLineage.__init__] adds to the
    job object. *)
Record EntityMergeJobWithLineage := {
  entity_lineages : list Schema.EntityLineage;
  lineage_counter : nat
}.

(** The variables live across the [for] loop of
    [_merge_duplicates_with_lineage], the job object and the clock. *)
Record loop_state := {
  merged_entities : gmap string entity;
  merge_log : list log_entry;
  merged_ids : gset string;
  self : EntityMergeJobWithLineage;
  clock : nat
}.

(** The report dict of [run_merge_with_lineage]; the early return for an
    empty duplicate list has only three of the keys. *)
Record merge_report := {
  report_timestamp : option string;
  duplicates_found : nat;
  entities_before : option nat;
  entities_after : option nat;
  entities_merged : Z;
  lineage_records : option nat;
  lineage_records_created : option nat;
  report_merge_log : option (list log_entry)
}.

(** How a run of the loop ends: it completes, or a lookup raises
    [KeyError] for a key. *)
Inductive loop_end :=
| Completed
| Raised (key : string).

(** Lines 188-208: the writes to [primary].  The order of a list made from
    a set is unspecified; [elements] fixes one.  Entity dicts are shared by
    reference, and [primary] and [secondary] are the same object exactly
    when the pair repeats one id (the values of a loaded JSON object are
    pairwise distinct objects).  Every read on the right-hand sides is of a
    key that no earlier write of this block has touched, so the block is a
    function of the two records as they were before it, also in the
    aliased case. *)
Definition merge_into_primary (primary secondary : entity)
    (secondary_id : string) (merged_at : string) (lineage : string)
    : entity :=
  {| canonical_name := canonical_name primary;
     aliases :=
       Some (elements
               (list_to_set
                  (default [] (aliases primary)
                   ++ default [] (aliases secondary)
                   ++ [default "" (canonical_name secondary)])%list
                : gset string));
     transaction_count :=
       Some (default 0 (transaction_count primary)
             + default 0 (transaction_count secondary))%Z;
     total_amount_usd :=
       Some (py_add (default (Int 0) (total_amount_usd primary))
                    (default (Int 0) (total_amount_usd secondary)));
     merged_from :=
       Some (default [] (merged_from primary) ++ [secondary_id])%list;
     last_merged := Some merged_at;
     lineage_id := Some lineage;
     status := status primary;
     superseded_by := superseded_by primary;
     superseded_at := superseded_at primary |}.

(** Lines 214-217: the writes to [secondary]. *)
Definition mark_superseded (secondary : entity) (primary_id : string)
    (at_time : string) (lineage : string) : entity :=
  {| canonical_name := canonical_name secondary;
     aliases := aliases secondary;
     transaction_count := transaction_count secondary;
     total_amount_usd := total_amount_usd secondary;
     merged_from := merged_from secondary;
     last_merged := last_merged secondary;
     lineage_id := Some lineage;
     status := Some "superseded";
     superseded_by := Some primary_id;
     superseded_at := Some at_time |}.

(** A log entry and a lineage record describe the same merge of the
    candidate pair [dup]: the same primary and secondary, taken from the
    pair, the same lineage id, and the pair's similarity. *)
Definition merge_recorded (dup : string * string * Q) (entry : log_entry)
    (lineage : Schema.EntityLineage) : Prop :=
  ((log_primary entry = dup.1.1 ∧ log_secondary entry = dup.1.2)
   ∨ (log_primary entry = dup.1.2 ∧ log_secondary entry = dup.1.1))
  ∧ log_similarity entry = dup.2
  ∧ Schema.confidence lineage = dup.2
  ∧ Schema.new_entity_id lineage = log_primary entry
  ∧ Schema.old_entity_id lineage = log_secondary entry
  ∧ Schema.lineage_id lineage = log_lineage_id entry
  ∧ Schema.operation lineage = "merge"
  ∧ Schema.performed_by lineage = "automated_merge".





(** Both ids of a candidate pair are keys of the collection. *)
Definition names_present (entities : gmap string entity)
    (dup : string * string * Q) : Prop :=
  dup.1.1 ∈ dom entities ∧ dup.1.2 ∈ dom entities.

Section WithClock.

(** [now n] is the ISO text of the [n]-th reading of [datetime.now()]. *)
Variable now : nat → string.

(** The body of the [for id1, id2, similarity in duplicates] loop. *)
Definition merge_pair (st : loop_state) (dup : string * string * Q)
    : result loop_state :=
  let '(id1, id2, similarity) := dup in
  if decide (id1 ∈ merged_ids st ∨ id2 ∈ merged_ids st) then Ok st
  else
    match merged_entities st !! id1 with
    | None => KeyError id1
    | Some entity1 =>
    match merged_entities st !! id2 with
    | None => KeyError id2
    | Some entity2 =>
      let tx_count1 := default 0%Z (transaction_count entity1) in
      let tx_count2 := default 0%Z (transaction_count entity2) in
      let '(primary_id, secondary_id, primary, secondary) :=
        if (tx_count2 <=? tx_count1)%Z
        then (id1, id2, entity1, entity2)
        else (id2, id1, entity2, entity1) in
      let t := clock st in
      let lineage :=
        {| Schema.lineage_id :=
             "lineage_" ++ format_06d (lineage_counter (self st));
           Schema.timestamp := now t;
           Schema.old_entity_id := secondary_id;
           Schema.new_entity_id := primary_id;
           Schema.operation := "merge";
           Schema.reason :=
             "Duplicate detection: similarity " ++ format_2f similarity;
           Schema.confidence := similarity;
           Schema.performed_by := "automated_merge";
           Schema.affected_statement_ids := [];
           Schema.metadata :=
             {| Schema.merged_canonical_name := canonical_name secondary;
                Schema.primary_canonical_name := canonical_name primary;
                Schema.transaction_count_transferred := tx_count2;
                Schema.amount_transferred :=
                  default (Int 0) (total_amount_usd secondary) |};
           Schema.created_at := now (t + 1) |} in
      let self' :=
        {| entity_lineages := (entity_lineages (self st) ++ [lineage])%list;
           lineage_counter := lineage_counter (self st) + 1 |} in
      let primary' :=
        merge_into_primary primary secondary secondary_id (now (t + 2))
                           (Schema.lineage_id lineage) in
      let entities1 := <[primary_id := primary']> (merged_entities st) in
      (* [secondary] is re-read through its id: it is [primary'] when the
         two names alias *)
      let secondary' :=
        mark_superseded (default secondary (entities1 !! secondary_id))
                        primary_id (now (t + 3)) (Schema.lineage_id lineage) in
      let entities2 := <[secondary_id := secondary']> entities1 in
      Ok {| merged_entities := entities2;
            merge_log :=
              (merge_log st
               ++ [ {| log_primary := primary_id;
                       log_secondary := secondary_id;
                       log_similarity := similarity;
                       log_timestamp := now (t + 4);
                       log_lineage_id := Schema.lineage_id lineage |} ])%list;
            merged_ids := merged_ids st;
            self := self';
            clock := t + 5 |}
    end
    end.

(** The [for] loop, as the caller sees it: the state it ends in, or the
    [KeyError] that a lookup raised. *)
Fixpoint merge_pairs (st : loop_state) (duplicates : list (string * string * Q))
    : result loop_state :=
  match duplicates with
  | [] => Ok st
  | dup :: rest => st' ← merge_pair st dup; merge_pairs st' rest
  end.

(** The loop with what it leaves behind.  The job object is updated in
    place, and [merged_entities], a shallow copy, shares the entity dicts
    with the caller's collection; so when a lookup raises, the merges made
    so far persist.  The state at the raise is the state after the pairs
    before the failing one: the two lookups come before every write of
    their iteration. *)
Fixpoint merge_pairs_effects (st : loop_state)
    (duplicates : list (string * string * Q)) : loop_state * loop_end :=
  match duplicates with
  | [] => (st, Completed)
  | dup :: rest =>
      match merge_pair st dup with
      | Ok st' => merge_pairs_effects st' rest
      | KeyError key => (st, Raised key)
      end
  end.

(** [EntityMergeJobWithLineage._merge_duplicates_with_lineage]; the value
    returned by the source is the pair
    [(merged_entities, merge_log)] of the final state, whose [self] is the
    job object after the call. *)
Definition _merge_duplicates_with_lineage (job : EntityMergeJobWithLineage)
    (clock0 : nat) (entities : gmap string entity)
    (duplicates : list (string * string * Q)) : result loop_state :=
  merge_pairs
    {| merged_entities := entities;
       merge_log := [];
       merged_ids := ∅;
       self := job;
       clock := clock0 |}
    duplicates.

(** The same call, with the state it leaves behind also when it raises. *)
Definition _merge_duplicates_with_lineage_effects
    (job : EntityMergeJobWithLineage) (clock0 : nat)
    (entities : gmap string entity)
    (duplicates : list (string * string * Q)) : loop_state * loop_end :=
  merge_pairs_effects
    {| merged_entities := entities;
       merge_log := [];
       merged_ids := ∅;
       self := job;
       clock := clock0 |}
    duplicates.

(** [EntityMergeJobWithLineage.run_merge_with_lineage], from the loaded
    [entities] on; [duplicates] is what [self._find_duplicates(entities)]
    returned.  The files written on the way are left out; only the clock
    readings they take are counted. *)
Definition run_merge_with_lineage (job : EntityMergeJobWithLineage)
    (clock0 : nat) (entities : gmap string entity)
    (duplicates : list (string * string * Q)) : result merge_report :=
  match duplicates with
  | [] =>
      Ok {| report_timestamp := None;
            duplicates_found := 0;
            entities_before := None;
            entities_after := None;
            entities_merged := 0;
            lineage_records := Some 0%nat;
            lineage_records_created := None;
            report_merge_log := None |}
  | _ =>
      st ← _merge_duplicates_with_lineage job clock0 entities duplicates;
      Ok {| report_timestamp := Some (now (clock st + 2));
            duplicates_found := length duplicates;
            entities_before := Some (size entities);
            entities_after := Some (size (merged_entities st));
            entities_merged :=
              (Z.of_nat (size entities)
               - Z.of_nat (size (merged_entities st)))%Z;
            lineage_records := None;
            lineage_records_created :=
              Some (length (entity_lineages (self st)));
            report_merge_log := Some (merge_log st) |}
  end.

End WithClock.

End Merge.

(** * scripts/reconcile_with_decisions.py *)

Module Reconcile.

(** [d[k] = v] on a dict kept in insertion order: an existing key keeps its
    place and takes the new value, a new key goes last. *)
Definition dict_set {V : Type} (k : string) (v : V) (d : list (string * V))
    : list (string * V) :=
  if bool_decide (k ∈ d.*1)
  then (fun kv => if decide (kv.1 = k) then (k, v) else kv) <$> d
  else (d ++ [(k, v)])%list.

(** The per-field object of a canonical record (collaborator contract of
    the field reconciler); the builder reads these four keys with [.get].
    A confidence is an int or a float, an alternative is kept as its JSON
    text. *)
Record field_data_t := {
  reconciliation_method : option string;
  source_observation_id : option string;
  confidence : option number;
  alternatives : option (list string)
}.

(** A field value of a canonical record is a raw scalar or a dict;
    [isinstance(field_data, dict)] tells them apart. *)
Inductive field_value :=
| Scalar (text : string)
| Reconciled (field_data : field_data_t).

(** A canonical record: its ['id'] entry ([None] when the key is absent,
    otherwise the text the f-string prints) and its other keys. *)
Record canonical_record := {
  id : option string;
  fields : gmap string field_value
}.

(** [canonical[field_name]], [None] when [field_name not in canonical]. *)
Definition canonical_get (canonical : canonical_record) (field_name : string)
    : option field_value :=
  if decide (field_name = "id") then Scalar <$> id canonical
  else fields canonical !! field_name.

(** An observation, with the keys the builder reads. *)
Record observation := {
  observation_id : option string;
  obs_id : option string;
  data_source : option string;
  observer : option string
}.

(** [a or b] on optional strings: [None] and the empty string are falsy. *)
Definition py_or (a b : option string) : option string :=
  match a with
  | Some s => if decide (s = "") then b else a
  | None => b
  end.

(** [s.split(sep)[0]] for a non-empty [sep]. *)
Fixpoint before_first (sep s : string) {struct s} : string :=
  if String.prefix sep s then EmptyString
  else
    match s with
    | EmptyString => EmptyString
    | String c s' => String c (before_first sep s')
    end.

Definition source_of (obs : observation) : string :=
  default (before_first "_v" (default "unknown" (observer obs)))
          (data_source obs).

(** [sum(confidences) / len(confidences) if confidences else 1.0], in
    Python's arithmetic: the sum starts at the int 0 and takes the values
    from the left, and [/] gives a float. *)
Definition overall_confidence (confidences : list number) : number :=
  match confidences with
  | [] => Float Float64.one
  | _ =>
      py_truediv (py_sum confidences)
                 (Int (Z.of_nat (length confidences)))
  end.

(** The value stored under [field_strategies[field_name]] for a dict-valued
    field, with the defaults of the four [.get] calls. *)
Definition strategy_entry (field_data : field_data_t) : Schema.field_strategy :=
  {| Schema.strategy := default "unknown" (reconciliation_method field_data);
     Schema.chosen_obs := default "unknown" (source_observation_id field_data);
     Schema.fs_confidence :=
       default (Float Float64.one) (confidence field_data);
     Schema.fs_alternatives := default [] (alternatives field_data) |}.

(** [field_name in canonical and isinstance(canonical[field_name], dict)] *)
Definition is_reconciled (canonical : canonical_record) (field_name : string)
    : bool :=
  match canonical_get canonical field_name with
  | Some (Reconciled _) => true
  | _ => false
  end.

(** Every entry of a [field_strategies] dict is the one the builder derives
    from the record's dict value for that key. *)
Definition entries_agree (canonical : canonical_record)
    (d : list (string * Schema.field_strategy)) : Prop :=
  ∀ k e, (k, e) ∈ d →
    ∃ field_data,
      canonical_get canonical k = Some (Reconciled field_data)
      ∧ e = strategy_entry field_data.

Section Builder.

(** [now n] is the ISO text of the [n]-th reading of [datetime.now()]. *)
Variable now : nat → string.

(** [FIELD_SCHEMA.keys()], in order.  [FIELD_SCHEMA] is imported from
    [reconcile_field_level], which is not part of the sources at hand. *)
Variable FIELD_SCHEMA : list string.

(** The body of [for field_name in FIELD_SCHEMA.keys()], on the pair
    [(field_strategies, created_statement_ids)]. *)
Definition record_field (canonical : canonical_record)
    (acc : list (string * Schema.field_strategy) * list string)
    (field_name : string)
    : result (list (string * Schema.field_strategy) * list string) :=
  match canonical_get canonical field_name with
  | Some (Reconciled field_data) =>
      let field_strategies :=
        dict_set field_name (strategy_entry field_data) acc.1 in
      match id canonical with
      | None => KeyError "id"
      | Some canonical_id =>
          Ok (field_strategies,
              (acc.2
               ++ [("attr_" ++ canonical_id ++ "_" ++ field_name)%string])%list)
      end
  | Some (Scalar _) => Ok acc
  | None => Ok acc
  end.

Fixpoint record_fields (canonical : canonical_record)
    (acc : list (string * Schema.field_strategy) * list string)
    (field_names : list string)
    : result (list (string * Schema.field_strategy) * list string) :=
  match field_names with
  | [] => Ok acc
  | field_name :: rest =>
      acc' ← record_field canonical acc field_name;
      record_fields canonical acc' rest
  end.

(** [create_reconciliation_decision]; [clock0] counts the readings of the
    clock made before the call. *)
Definition create_reconciliation_decision (clock0 : nat)
    (observations : list observation) (canonical : canonical_record)
    (decision_counter : nat) : result Schema.ReconciliationDecision :=
  let obs_ids :=
    (fun obs => py_or (observation_id obs) (obs_id obs)) <$> observations in
  let cluster_metadata :=
    {| Schema.observation_count := length observations;
       Schema.data_sources :=
         elements (list_to_set (source_of <$> observations) : gset string);
       Schema.reconciliation_timestamp := now clock0 |} in
  '(field_strategies, created_statement_ids) ←
    record_fields canonical ([], []) FIELD_SCHEMA;
  (* every entry has a 'confidence' key, so the comprehension's filter
     keeps all of them *)
  let confidences := (fun fs => Schema.fs_confidence fs.2) <$> field_strategies in
  let decision_method :=
    if decide (length observations = 1%nat) then "single_source"
    else "automated" in
  Ok {| Schema.decision_id :=
          "recon_decision_" ++ format_06d decision_counter;
        Schema.decision_timestamp := now (clock0 + 1);
        Schema.observation_ids := obs_ids;
        Schema.cluster_metadata := cluster_metadata;
        Schema.field_strategies := field_strategies;
        Schema.created_statement_ids := created_statement_ids;
        Schema.decision_confidence := overall_confidence confidences;
        Schema.decision_method := decision_method;
        Schema.decision_created_at := now (clock0 + 2) |}.

End Builder.


End Reconcile.

(** * scripts/migrate_to_schema.py *)

Module Migrate.

Section WithClock.

(** [now n] is the text [strftime("%Y%m%d%H%M%S%f")] gives for the [n]-th
    reading of [datetime.now()]: twenty digits, down to the microsecond. *)
Variable now : nat → string.

(** [generate_statement_id]: the id, and the clock after its one reading. *)
Definition generate_statement_id (clock : nat)
    (prefix subject_id predicate : string) : string * nat :=
  let timestamp := now clock in
  (prefix ++ "_" ++ subject_id ++ "_" ++ predicate ++ "_" ++ timestamp,
   clock + 1).

End WithClock.

End Migrate.

(** * storage/schema.py: the store *)

(** A field name that several dataclasses share carries the class as a
    prefix ([entity_status], [event_status], [rel_predicate], ...). *)
Module Store.

Inductive NodeStatus := DRAFT | VERIFIED | DEPRECATED.

Inductive EntityType :=
| MERCHANT | PERSON | ACCOUNT | LOCATION | ORGANIZATION | OTHER.

Inductive EventType := FINANCE_TRANSACTION | PAYMENT | TRANSFER.

Inductive SeriesType :=
| BNPL | INSTALLMENT | PHONE_PLAN | LEASE | CONTRACT | SAAS_SUBSCRIPTION
| INSURANCE | TAX | LOAN_PAYMENT | UTILITY | OTHER_SERIES.

Inductive SeriesStatus := ACTIVE | PAUSED | CANCELLED | COMPLETED.

(** [source_document] is kept as its JSON text. *)
Record Provenance := {
  observation_ids : list string;
  source_method : string;
  observer : string;
  created_at : string;
  confidence : Q;
  source_document : option string
}.

Record TemporalQualifiers := {
  valid_from : string;
  valid_to : option string;
  observed_at : string;
  superseded_at : option string
}.

Record EntityNode := {
  entity_id : string;
  entity_type : EntityType;
  entity_status : NodeStatus;
  aliases : list string;
  external_ids : list (string * string);
  entity_created_at : string;
  entity_updated_at : string
}.

(** The [snapshot] dict of an event, with the three keys the migration
    writes; the amount is the transaction's own value, unconverted. *)
Record snapshot_t := {
  snapshot_amount : option json_value;
  snapshot_currency : string;
  snapshot_description : option string
}.

Record EventNode := {
  event_id : string;
  event_type : EventType;
  happened_at : string;
  event_status : NodeStatus;
  snapshot : snapshot_t;
  event_created_at : string;
  event_updated_at : string
}.

Record SeriesNode := {
  series_id : string;
  series_type : SeriesType;
  series_status : SeriesStatus;
  frequency : string;
  expected_amount : option Q;
  amount_tolerance : Q;
  start_date : option string;
  end_date : option string;
  next_expected_date : option string;
  merchant_id : option string;
  events_count : Z;
  detection_confidence : Q;
  series_created_at : string;
  series_updated_at : string
}.

(** [EntityNode | EventNode | SeriesNode] *)
Inductive node :=
| Entity (entity : EntityNode)
| Event (event : EventNode)
| Series (series : SeriesNode).

(** The value under ["value"] of a fact's object: a float or a text. *)
Inductive fact_value :=
| Number (f : spec_float)
| Text (s : string).

(** The [object] dict of an attribute fact. *)
Record fact_object := {
  value : fact_value;
  value_type : string;
  unit : option string
}.

Record AttributeFact := {
  statement_id : string;
  subject_id : string;
  predicate : string;
  object : fact_object;
  temporal : TemporalQualifiers;
  provenance : Provenance;
  reconciliation_decision_id : option string;
  rejected_alternatives : list string
}.

Record RelationshipFact := {
  rel_statement_id : string;
  rel_subject_id : string;
  rel_predicate : string;
  target_id : string;
  rel_temporal : TemporalQualifiers;
  rel_provenance : Provenance;
  rel_reconciliation_decision_id : option string;
  rel_rejected_alternatives : list string
}.

Record StorageSchema := {
  nodes : gmap string node;
  attribute_facts : list AttributeFact;
  relationship_facts : list RelationshipFact;
  reconciliation_decisions : list Schema.ReconciliationDecision;
  entity_lineage : list Schema.EntityLineage
}.

(** [StorageSchema()] *)
Definition empty_schema : StorageSchema :=
  {| nodes := ∅; attribute_facts := []; relationship_facts := [];
     reconciliation_decisions := []; entity_lineage := [] |}.

Definition set_nodes (schema : StorageSchema) (nodes' : gmap string node)
    : StorageSchema :=
  {| nodes := nodes';
     attribute_facts := attribute_facts schema;
     relationship_facts := relationship_facts schema;
     reconciliation_decisions := reconciliation_decisions schema;
     entity_lineage := entity_lineage schema |}.

Definition add_entity (schema : StorageSchema) (entity : EntityNode)
    : StorageSchema :=
  set_nodes schema (<[entity_id entity := Entity entity]> (nodes schema)).

Definition add_event (schema : StorageSchema) (event : EventNode)
    : StorageSchema :=
  set_nodes schema (<[event_id event := Event event]> (nodes schema)).

Definition add_series (schema : StorageSchema) (series : SeriesNode)
    : StorageSchema :=
  set_nodes schema (<[series_id series := Series series]> (nodes schema)).

Definition add_attribute_fact (schema : StorageSchema) (fact : AttributeFact)
    : StorageSchema :=
  {| nodes := nodes schema;
     attribute_facts := (attribute_facts schema ++ [fact])%list;
     relationship_facts := relationship_facts schema;
     reconciliation_decisions := reconciliation_decisions schema;
     entity_lineage := entity_lineage schema |}.

Definition add_relationship_fact (schema : StorageSchema)
    (fact : RelationshipFact) : StorageSchema :=
  {| nodes := nodes schema;
     attribute_facts := attribute_facts schema;
     relationship_facts := (relationship_facts schema ++ [fact])%list;
     reconciliation_decisions := reconciliation_decisions schema;
     entity_lineage := entity_lineage schema |}.

Definition add_reconciliation_decision (schema : StorageSchema)
    (decision : Schema.ReconciliationDecision) : StorageSchema :=
  {| nodes := nodes schema;
     attribute_facts := attribute_facts schema;
     relationship_facts := relationship_facts schema;
     reconciliation_decisions :=
       (reconciliation_decisions schema ++ [decision])%list;
     entity_lineage := entity_lineage schema |}.

Definition add_entity_lineage (schema : StorageSchema)
    (lineage : Schema.EntityLineage) : StorageSchema :=
  {| nodes := nodes schema;
     attribute_facts := attribute_facts schema;
     relationship_facts := relationship_facts schema;
     reconciliation_decisions := reconciliation_decisions schema;
     entity_lineage := (entity_lineage schema ++ [lineage])%list |}.

Definition get_node (schema : StorageSchema) (node_id : string)
    : option node :=
  nodes schema !! node_id.

Definition get_entity_lineage (schema : StorageSchema) (entity_id : string)
    : list Schema.EntityLineage :=
  Schema.get_entity_lineage (entity_lineage schema) entity_id.

Definition resolve_current_entity_id (schema : StorageSchema)
    (entity_id : string) : string :=
  Schema.resolve_current_entity_id (entity_lineage schema) entity_id.

(** [if predicate:] on an optional string: [None] and "" are falsy. *)
Definition given (predicate : option string) : option string :=
  match predicate with
  | Some p => if decide (p = "") then None else Some p
  | None => None
  end.

Definition get_attributes (schema : StorageSchema) (subject : string)
    (predicate_arg : option string) : list AttributeFact :=
  let facts :=
    List.filter (λ f, bool_decide (subject_id f = subject))
                (attribute_facts schema) in
  match given predicate_arg with
  | Some p => List.filter (λ f, bool_decide (predicate f = p)) facts
  | None => facts
  end.

Definition get_relationships (schema : StorageSchema) (subject : string)
    (predicate_arg : option string) : list RelationshipFact :=
  let facts :=
    List.filter (λ f, bool_decide (rel_subject_id f = subject))
                (relationship_facts schema) in
  match given predicate_arg with
  | Some p => List.filter (λ f, bool_decide (rel_predicate f = p)) facts
  | None => facts
  end.

Definition get_reconciliation_decision (schema : StorageSchema)
    (decision_id : string) : option Schema.ReconciliationDecision :=
  List.find (λ d, bool_decide (Schema.decision_id d = decision_id))
            (reconciliation_decisions schema).

End Store.

(** * scripts/migrate_to_schema.py: the migration *)

Module Migration.

(** The ["provenance"] dict of a canonical transaction, with the keys the
    migration reads. *)
Record provenance_data_t := {
  observation_ids : option (list string);
  source_method : option string;
  observer : option string;
  created_at : option string;
  source_document : option string
}.

(** [transaction.get("provenance", {})] for an absent key. *)
Definition no_provenance_data : provenance_data_t :=
  {| observation_ids := None; source_method := None; observer := None;
     created_at := None; source_document := None |}.

(** The ["confidence"] entry: a dict, read for its ["overall"] key, or a
    number. *)
Inductive confidence_data_t :=
| ConfidenceDict (overall : option Q)
| ConfidenceNumber (q : Q).

(** What the migration can raise. *)
Inductive exception :=
| KeyError (key : string)
| TypeError
| ValueError
| OverflowError.

#[global] Instance exception_eq_dec : EqDecision exception.
Proof. solve_decision. Defined.

(** [float(v)]: [None] and containers are rejected with [TypeError], a
    text that is no number with [ValueError], an int beyond the doubles
    with [OverflowError]; [True] and [False] are 1.0 and 0.0, an int
    becomes the nearest double and a float is kept. *)
Definition py_float (v : json_value) : outcome exception spec_float :=
  match v with
  | JNull => Raise TypeError
  | JBool b => Ok (Float64.of_int (if b then 1 else 0))
  | JNumber (Int z) =>
      match Float64.of_int z with
      | S754_infinity _ => Raise OverflowError
      | f => Ok f
      end
  | JNumber (Float f) => Ok f
  | JText _ (Some f) => Ok f
  | JText _ None => Raise ValueError
  | JOther => Raise TypeError
  end.

(** A canonical transaction, with the keys the migration reads; [None] is
    an absent key.  The amount is any JSON value, a confidence is a dict
    or a number, the other values are texts. *)
Record transaction := {
  id : option string;
  date : option string;
  amount : option json_value;
  currency : option string;
  description : option string;
  category : option string;
  merchant : option string;
  provenance : option provenance_data_t;
  confidence : option confidence_data_t
}.

(** The schema under construction, the [entity_registry] dict
    (merchant name -> entity id) and the number of clock readings so
    far. *)
Record migration_state := {
  schema : Store.StorageSchema;
  entity_registry : gmap string string;
  clock : nat
}.

(** The [statistics] dict of the exported file. *)
Record statistics_t := {
  total_nodes : nat;
  event_nodes : nat;
  entity_nodes : nat;
  attribute_facts : nat;
  relationship_facts : nat
}.

Definition is_event (n : Store.node) : bool :=
  match n with Store.Event _ => true | _ => false end.

Definition is_entity (n : Store.node) : bool :=
  match n with Store.Entity _ => true | _ => false end.

(** [sum(1 for n in schema.nodes.values() if isinstance(n, ...))] *)
Definition count_nodes (kind : Store.node → bool)
    (nodes : gmap string Store.node) : nat :=
  size (filter (λ kv, kind kv.2 = true) nodes).

Definition statistics (schema : Store.StorageSchema) : statistics_t :=
  {| total_nodes := size (Store.nodes schema);
     event_nodes := count_nodes is_event (Store.nodes schema);
     entity_nodes := count_nodes is_entity (Store.nodes schema);
     attribute_facts := length (Store.attribute_facts schema);
     relationship_facts := length (Store.relationship_facts schema) |}.

(** [st'] is [st] after [add_attribute_fact] of the facts [new], one
    clock reading each; nothing else has changed. *)
Definition appends_facts (new : list Store.AttributeFact)
    (st st' : migration_state) : Prop :=
  schema st' = fold_left Store.add_attribute_fact new (schema st)
  ∧ entity_registry st' = entity_registry st
  ∧ clock st' = (clock st + length new)%nat.

(** A fact made by the migration about [subject]: its statement id was
    generated for its own subject and predicate at some reading of the
    clock, it carries the given qualifiers, and it names no reconciliation
    decision and no rejected alternative. *)
Definition migrated_fact (now : nat → string) (subject : string)
    (temporal : Store.TemporalQualifiers) (provenance : Store.Provenance)
    (fact : Store.AttributeFact) : Prop :=
  Store.subject_id fact = subject
  ∧ Store.temporal fact = temporal
  ∧ Store.provenance fact = provenance
  ∧ Store.reconciliation_decision_id fact = None
  ∧ Store.rejected_alternatives fact = []
  ∧ ∃ reading,
      Store.statement_id fact
      = (Migrate.generate_statement_id now reading "attr" subject
           (Store.predicate fact)).1.

(** What the migration keeps true of its state: every node is an event
    under an "evt_" id or the entity of a registered merchant, carrying
    the merchant's name as its one alias; the registry maps merchant names
    one-to-one to the ids "ent_merchant_0", "ent_merchant_1", ... and each
    has its entity node; and the node counts add up. *)
Definition consistent (st : migration_state) : Prop :=
  (∀ k n, Store.nodes (schema st) !! k = Some n →
     (∃ e tid, n = Store.Event e ∧ k = "evt_" +:+ tid)
     ∨ (∃ e m, n = Store.Entity e ∧ entity_registry st !! m = Some k))
  ∧ (∀ m e, entity_registry st !! m = Some e →
       ∃ i, (i < size (entity_registry st))%nat
            ∧ e = "ent_merchant_" +:+ pretty i)
  ∧ (∀ m e, entity_registry st !! m = Some e →
       ∃ n, Store.nodes (schema st) !! e = Some (Store.Entity n)
            ∧ Store.entity_id n = e
            ∧ Store.aliases n = [m])
  ∧ (∀ m1 m2 e, entity_registry st !! m1 = Some e →
       entity_registry st !! m2 = Some e → m1 = m2)
  ∧ count_nodes is_entity (Store.nodes (schema st))
    = size (entity_registry st)
  ∧ size (Store.nodes (schema st))
    = (count_nodes is_event (Store.nodes (schema st))
       + count_nodes is_entity (Store.nodes (schema st)))%nat.

(** Every id with a node in [nodes] still has a node of the same kind in
    [nodes']. *)
Definition kinds_kept (nodes nodes' : gmap string Store.node) : Prop :=
  ∀ k n, nodes !! k = Some n →
    ∃ n', nodes' !! k = Some n'
          ∧ is_event n' = is_event n ∧ is_entity n' = is_entity n.

(** The subject of the relationship fact [r] is an event node and its
    target an entity node of [nodes]. *)
Definition links_nodes (nodes : gmap string Store.node)
    (r : Store.RelationshipFact) : Prop :=
  (∃ ev, nodes !! Store.rel_subject_id r = Some (Store.Event ev))
  ∧ (∃ en, nodes !! Store.target_id r = Some (Store.Entity en)).

(** The attribute fact [f] was made by the migration about a node of
    [nodes]. *)
Definition describes_node (now : nat → string)
    (nodes : gmap string Store.node) (f : Store.AttributeFact) : Prop :=
  is_Some (nodes !! Store.subject_id f)
  ∧ ∃ temporal provenance,
      migrated_fact now (Store.subject_id f) temporal provenance f.

(** The amounts of the attribute facts of [facts] that are about
    [subject] and have the predicate "amount", in order. *)
Definition amounts_of (subject : string) (facts : list Store.AttributeFact)
    : list Store.fact_value :=
  (λ f, Store.value (Store.object f))
    <$> List.filter (λ f, bool_decide (Store.predicate f = "amount"))
          (List.filter (λ f, bool_decide (Store.subject_id f = subject))
             facts).

(** [schema = StorageSchema()] and [entity_registry = {}], at the clock
    reading [clock0]. *)
Definition initial_state (clock0 : nat) : migration_state :=
  {| schema := Store.empty_schema; entity_registry := ∅; clock := clock0 |}.

(** The exception that migrating the transaction raises, if any: it needs
    an id, and an amount - when it has one - that [float()] accepts. *)
Definition rejection (tx : transaction) : option exception :=
  match id tx with
  | None => Some (KeyError "id")
  | Some _ =>
      match amount tx with
      | Some v =>
          match py_float v with
          | Ok _ => None
          | Raise e => Some e
          end
      | None => None
      end
  end.

(** The float that [float()] makes of the transaction's amount, if it has
    an amount and [float()] accepts it. *)
Definition amount_as_float (tx : transaction) : option spec_float :=
  match amount tx with
  | Some v =>
      match py_float v with
      | Ok f => Some f
      | Raise _ => None
      end
  | None => None
  end.

(** How many of the five scalar keys a transaction has. *)
Definition scalar_keys_present (tx : transaction) : nat :=
  (if amount tx is Some _ then 1 else 0)
  + (if description tx is Some _ then 1 else 0)
  + (if date tx is Some _ then 1 else 0)
  + (if currency tx is Some _ then 1 else 0)
  + (if category tx is Some _ then 1 else 0).

Section WithClock.

(** [now n] and [iso n] are the texts [strftime("%Y%m%d%H%M%S%f")] and
    [isoformat()] give for the [n]-th reading of [datetime.now()]. *)
Variable now : nat → string.
Variable iso : nat → string.

(** [create_temporal_qualifiers].  The default arguments of the two [.get]
    calls are evaluated whether or not the key is there: two readings of
    the clock. *)
Definition create_temporal_qualifiers (clock0 : nat) (tx : transaction)
    : Store.TemporalQualifiers * nat :=
  let valid_from := default (iso clock0) (date tx) in
  let provenance_data := default no_provenance_data (provenance tx) in
  let observed_at := default (iso (clock0 + 1)) (created_at provenance_data) in
  ({| Store.valid_from := valid_from;
      Store.valid_to := None;
      Store.observed_at := observed_at;
      Store.superseded_at := None |},
   clock0 + 2).

(** [create_provenance]; [float(confidence_data) if confidence_data else
    1.0] takes a number 0 for falsy. *)
Definition create_provenance (clock0 : nat) (tx : transaction)
    : Store.Provenance * nat :=
  let provenance_data := default no_provenance_data (provenance tx) in
  let confidence :=
    match default (ConfidenceDict None) (confidence tx) with
    | ConfidenceDict overall => default 1%Q overall
    | ConfidenceNumber q => if Qeq_bool q 0 then 1%Q else q
    end in
  ({| Store.observation_ids := default [] (observation_ids provenance_data);
      Store.source_method := default "unknown" (source_method provenance_data);
      Store.observer := default "unknown" (observer provenance_data);
      Store.created_at := default (iso clock0) (created_at provenance_data);
      Store.confidence := confidence;
      Store.source_document := source_document provenance_data |},
   clock0 + 1).

(** One [AttributeFact(...)] block followed by
    [schema.add_attribute_fact]; the source repeats it for each key. *)
Definition add_attribute (subject predicate : string)
    (object : Store.fact_object) (temporal : Store.TemporalQualifiers)
    (provenance : Store.Provenance) (st : migration_state)
    : migration_state :=
  let '(statement_id, clock') :=
    Migrate.generate_statement_id now (clock st) "attr" subject predicate in
  {| schema :=
       Store.add_attribute_fact (schema st)
         {| Store.statement_id := statement_id;
            Store.subject_id := subject;
            Store.predicate := predicate;
            Store.object := object;
            Store.temporal := temporal;
            Store.provenance := provenance;
            Store.reconciliation_decision_id := None;
            Store.rejected_alternatives := [] |};
     entity_registry := entity_registry st;
     clock := clock' |}.

(** [if key in transaction:] followed by the block for that key. *)
Definition add_attribute_if {A : Type} (present : option A)
    (subject predicate : string) (object : A → Store.fact_object)
    (temporal : Store.TemporalQualifiers) (provenance : Store.Provenance)
    (st : migration_state) : migration_state :=
  match present with
  | Some v => add_attribute subject predicate (object v) temporal provenance st
  | None => st
  end.

Definition text_object (value_type : string) (text : string)
    : Store.fact_object :=
  {| Store.value := Store.Text text;
     Store.value_type := value_type;
     Store.unit := None |}.

(** The block for the key "amount".  [float()] is called while the fact
    is built, after its statement id was generated; when it raises,
    nothing of the schema is returned. *)
Definition add_amount_fact (tx : transaction) (event_id : string)
    (temporal : Store.TemporalQualifiers) (provenance : Store.Provenance)
    (st : migration_state) : outcome exception migration_state :=
  match amount tx with
  | None => Ok st
  | Some v =>
      a ← py_float v;
      Ok (add_attribute event_id "amount"
            {| Store.value := Store.Number a;
               Store.value_type := "number";
               Store.unit := Some (default "USD" (currency tx)) |}
            temporal provenance st)
  end.

(** Step 2 of [migrate_transaction_to_schema]: the attribute facts for the
    scalar keys, in the order of the source. *)
Definition add_scalar_facts (tx : transaction) (event_id : string)
    (temporal : Store.TemporalQualifiers) (provenance : Store.Provenance)
    (st0 : migration_state) : outcome exception migration_state :=
  st1 ← add_amount_fact tx event_id temporal provenance st0;
  let st2 :=
    add_attribute_if (description tx) event_id "description"
      (text_object "string") temporal provenance st1 in
  let st3 :=
    add_attribute_if (date tx) event_id "date"
      (text_object "date") temporal provenance st2 in
  let st4 :=
    add_attribute_if (currency tx) event_id "currency"
      (text_object "string") temporal provenance st3 in
  Ok (add_attribute_if (category tx) event_id "category"
        (text_object "string") temporal provenance st4).

(** [if merchant_name not in entity_registry:] and its block: the entity
    id of the merchant, and the state after registering it if it was
    new. *)
Definition register_merchant (merchant_name : string)
    (temporal : Store.TemporalQualifiers) (provenance : Store.Provenance)
    (st : migration_state) : migration_state * string :=
  match entity_registry st !! merchant_name with
  | Some entity_id => (st, entity_id)
  | None =>
      let entity_id :=
        "ent_merchant_" +:+ pretty (size (entity_registry st)) in
      let merchant_entity :=
        {| Store.entity_id := entity_id;
           Store.entity_type := Store.MERCHANT;
           Store.entity_status := Store.VERIFIED;
           Store.aliases := [merchant_name];
           Store.external_ids := [];
           Store.entity_created_at := iso (clock st);
           Store.entity_updated_at := iso (clock st + 1) |} in
      (add_attribute entity_id "canonical_name"
         (text_object "string" merchant_name) temporal provenance
         {| schema := Store.add_entity (schema st) merchant_entity;
            entity_registry :=
              <[merchant_name := entity_id]> (entity_registry st);
            clock := clock st + 2 |},
       entity_id)
  end.

(** Step 3: the relationship fact for the merchant. *)
Definition add_merchant_relationship (merchant_name event_id : string)
    (temporal : Store.TemporalQualifiers) (provenance : Store.Provenance)
    (st : migration_state) : migration_state :=
  let '(st', entity_id) :=
    register_merchant merchant_name temporal provenance st in
  let '(statement_id, clock') :=
    Migrate.generate_statement_id now (clock st') "rel" event_id "merchant" in
  {| schema :=
       Store.add_relationship_fact (schema st')
         {| Store.rel_statement_id := statement_id;
            Store.rel_subject_id := event_id;
            Store.rel_predicate := "merchant";
            Store.target_id := entity_id;
            Store.rel_temporal := temporal;
            Store.rel_provenance := provenance;
            Store.rel_reconciliation_decision_id := None;
            Store.rel_rejected_alternatives := [] |};
     entity_registry := entity_registry st';
     clock := clock' |}.

(** The [EventNode] of step 1. *)
Definition event_node_of (tx : transaction) (event_id : string)
    (clock0 : nat) : Store.EventNode :=
  {| Store.event_id := event_id;
     Store.event_type := Store.FINANCE_TRANSACTION;
     Store.happened_at := default "" (date tx);
     Store.event_status := Store.VERIFIED;
     Store.snapshot :=
       {| Store.snapshot_amount := amount tx;
          Store.snapshot_currency := default "USD" (currency tx);
          Store.snapshot_description := description tx |};
     Store.event_created_at := iso clock0;
     Store.event_updated_at := iso (clock0 + 1) |}.

(** [migrate_transaction_to_schema] *)
Definition migrate_transaction_to_schema (st : migration_state)
    (tx : transaction) : outcome exception migration_state :=
  match id tx with
  | None => Raise (KeyError "id")
  | Some transaction_id =>
      let event_id := "evt_" +:+ transaction_id in
      let event_node := event_node_of tx event_id (clock st) in
      let '(temporal, clock1) :=
        create_temporal_qualifiers (clock st + 2) tx in
      let '(provenance, clock2) := create_provenance clock1 tx in
      let st0 :=
        {| schema := Store.add_event (schema st) event_node;
           entity_registry := entity_registry st;
           clock := clock2 |} in
      st5 ← add_scalar_facts tx event_id temporal provenance st0;
      match merchant tx with
      | None => Ok st5
      | Some merchant_name =>
          Ok (add_merchant_relationship merchant_name event_id
                temporal provenance st5)
      end
  end.

Fixpoint migrate_transactions (st : migration_state)
    (transactions : list transaction)
    : outcome exception migration_state :=
  match transactions with
  | [] => Ok st
  | tx :: rest =>
      st' ← migrate_transaction_to_schema st tx;
      migrate_transactions st' rest
  end.

(** [migrate_canonical_ledger], from the loaded transaction list to the
    schema and its statistics; reading and writing the files is left
    out. *)
Definition migrate_canonical_ledger (clock0 : nat)
    (transactions : list transaction)
    : outcome exception (Store.StorageSchema * statistics_t) :=
  st ← migrate_transactions (initial_state clock0) transactions;
  Ok (schema st, statistics (schema st)).

(** The qualifiers of the fact [f] are the ones the migration builds from
    one of [transactions]. *)
Definition made_from (transactions : list transaction)
    (f : Store.AttributeFact) : Prop :=
  ∃ tx c1 c2,
    tx ∈ transactions
    ∧ Store.temporal f = (create_temporal_qualifiers c1 tx).1
    ∧ Store.provenance f = (create_provenance c2 tx).1.

End WithClock.

(** The transactions whose id is [transaction_id], in order. *)
Definition same_id (transaction_id : string)
    (transactions : list transaction) : list transaction :=
  List.filter (λ tx, bool_decide (id tx = Some transaction_id)) transactions.

(** The transactions that name a merchant, in order. *)
Definition with_merchant (transactions : list transaction)
    : list transaction :=
  List.filter (λ tx, bool_decide (is_Some (merchant tx))) transactions.

(** The relationship fact [r] links the event of the transaction [tx] to
    the entity registered for its merchant, and names no reconciliation
    decision and no rejected alternative. *)
Definition merchant_link (registry : gmap string string) (tx : transaction)
    (r : Store.RelationshipFact) : Prop :=
  ∃ tid m,
    id tx = Some tid ∧ merchant tx = Some m
    ∧ Store.rel_subject_id r = "evt_" +:+ tid
    ∧ Store.rel_predicate r = "merchant"
    ∧ registry !! m = Some (Store.target_id r)
    ∧ Store.rel_reconciliation_decision_id r = None
    ∧ Store.rel_rejected_alternatives r = [].

End Migration.

(** * Sample data for the worked examples *)

Module Samples.

(** A clock whose readings are all distinct. *)
Definition iso_clock (n : nat) : string :=
  "2025-10-14T10:00:00." ++ format_06d n.

(** A clock stuck on one microsecond. *)
Definition stuck_clock (n : nat) : string := "20251014100000000000".

Definition plain_entity (name : string) (transactions : Z) (amount : Z)
    : Merge.entity :=
  {| Merge.canonical_name := Some name;
     Merge.aliases := Some [];
     Merge.transaction_count := Some transactions;
     Merge.total_amount_usd := Some (Int amount);
     Merge.merged_from := None;
     Merge.last_merged := None;
     Merge.lineage_id := None;
     Merge.status := None;
     Merge.superseded_by := None;
     Merge.superseded_at := None |}.

Definition registry : gmap string Merge.entity :=
  <["A" := plain_entity "Alpha" 10 500]>
    (<["B" := plain_entity "Beta" 3 90]>
       (<["C" := plain_entity "Gamma" 1 5]> ∅)).

Definition fresh_job : Merge.EntityMergeJobWithLineage :=
  {| Merge.entity_lineages := []; Merge.lineage_counter := 0 |}.

Definition fresh_state : Merge.loop_state :=
  {| Merge.merged_entities := registry;
     Merge.merge_log := [];
     Merge.merged_ids := ∅;
     Merge.self := fresh_job;
     Merge.clock := 0 |}.

(** A bare lineage edge [old -> new]. *)
Definition edge (old new : string) : Schema.EntityLineage :=
  {| Schema.lineage_id := "lineage_000000";
     Schema.timestamp := iso_clock 0;
     Schema.old_entity_id := old;
     Schema.new_entity_id := new;
     Schema.operation := "merge";
     Schema.reason := "Duplicate detection: similarity 0.92";
     Schema.confidence := 92 # 100;
     Schema.performed_by := "automated_merge";
     Schema.affected_statement_ids := [];
     Schema.metadata :=
       {| Schema.merged_canonical_name := None;
          Schema.primary_canonical_name := None;
          Schema.transaction_count_transferred := 0;
          Schema.amount_transferred := Int 0 |};
     Schema.created_at := iso_clock 1 |}.

(** Two entities whose amounts are the floats 0.1 and 0.2. *)
Definition priced_entity (name : string) (transactions : Z)
    (amount : number) : Merge.entity :=
  {| Merge.canonical_name := Some name;
     Merge.aliases := Some [];
     Merge.transaction_count := Some transactions;
     Merge.total_amount_usd := Some amount;
     Merge.merged_from := None;
     Merge.last_merged := None;
     Merge.lineage_id := None;
     Merge.status := None;
     Merge.superseded_by := None;
     Merge.superseded_at := None |}.

Definition priced_state : Merge.loop_state :=
  {| Merge.merged_entities :=
       <["D" := priced_entity "Delta" 2 (Float (Float64.ratio 1 10))]>
         (<["E" := priced_entity "Echo" 1 (Float (Float64.ratio 2 10))]> ∅);
     Merge.merge_log := [];
     Merge.merged_ids := ∅;
     Merge.self := fresh_job;
     Merge.clock := 0 |}.

(** Two entities without transactions. *)
Definition idle_registry : gmap string Merge.entity :=
  <["P" := plain_entity "Papa" 0 0]>
    (<["Q" := plain_entity "Quebec" 0 0]> ∅).

(** The known field schema, for the examples. *)
Definition field_schema : list string :=
  ["date"; "amount"; "description"; "merchant"].

Definition obs1 : Reconcile.observation :=
  {| Reconcile.observation_id := None;
     Reconcile.obs_id := Some "obs1";
     Reconcile.data_source := None;
     Reconcile.observer := Some "bofa_parser_v2" |}.

(** The canonical record of the one-observation cluster
    [{id: "obs1", amount: -42}]: its fields are raw scalars. *)
Definition scalar_record : Reconcile.canonical_record :=
  {| Reconcile.id := Some "tx1";
     Reconcile.fields := <["amount" := Reconcile.Scalar "-42"]> ∅ |}.

(** A canonical record with two dict-valued fields, one of them without
    any metadata, and a scalar one. *)
Definition mixed_record : Reconcile.canonical_record :=
  {| Reconcile.id := Some "tx2";
     Reconcile.fields :=
       <["amount" :=
           Reconcile.Reconciled
             {| Reconcile.reconciliation_method := Some "first_source";
                Reconcile.source_observation_id := Some "obs_bofa_001";
                Reconcile.confidence := Some (Float (Float64.ratio 1 2));
                Reconcile.alternatives := Some ["-100.5"] |}]>
         (<["description" :=
              Reconcile.Reconciled
                {| Reconcile.reconciliation_method := None;
                   Reconcile.source_observation_id := None;
                   Reconcile.confidence := None;
                   Reconcile.alternatives := None |}]>
            (<["date" := Reconcile.Scalar "2025-10-14"]> ∅)) |}.



(** An entity and an event that claim the same node id. *)
Definition merchant_node : Store.EntityNode :=
  {| Store.entity_id := "n1";
     Store.entity_type := Store.MERCHANT;
     Store.entity_status := Store.VERIFIED;
     Store.aliases := ["Starbucks"];
     Store.external_ids := [];
     Store.entity_created_at := iso_clock 0;
     Store.entity_updated_at := iso_clock 1 |}.

Definition payment_node : Store.EventNode :=
  {| Store.event_id := "n1";
     Store.event_type := Store.PAYMENT;
     Store.happened_at := "2025-10-01";
     Store.event_status := Store.DRAFT;
     Store.snapshot :=
       {| Store.snapshot_amount := None;
          Store.snapshot_currency := "USD";
          Store.snapshot_description := None |};
     Store.event_created_at := iso_clock 2;
     Store.event_updated_at := iso_clock 3 |}.

(** A decision without fields. *)
Definition bare_decision (decision_id : string) (confidence : number)
    : Schema.ReconciliationDecision :=
  {| Schema.decision_id := decision_id;
     Schema.decision_timestamp := iso_clock 0;
     Schema.observation_ids := [];
     Schema.cluster_metadata :=
       {| Schema.observation_count := 0;
          Schema.data_sources := [];
          Schema.reconciliation_timestamp := iso_clock 0 |};
     Schema.field_strategies := [];
     Schema.created_statement_ids := [];
     Schema.decision_confidence := confidence;
     Schema.decision_method := "automated";
     Schema.decision_created_at := iso_clock 1 |}.

(** Canonical transactions: two purchases at one merchant under the same
    id - the amounts are the float -4.5 and the int -5 -, one at another
    merchant - the amount is the int 2^53 + 1 -, one without id and
    merchant, and one whose amount is [null]. *)
Definition coffee : Migration.transaction :=
  {| Migration.id := Some "t1";
     Migration.date := Some "2025-10-01";
     Migration.amount := Some (JNumber (Float (Float64.ratio (-9) 2)));
     Migration.currency := None;
     Migration.description := Some "Coffee";
     Migration.category := None;
     Migration.merchant := Some "Starbucks";
     Migration.provenance := None;
     Migration.confidence := Some (Migration.ConfidenceNumber 0) |}.

Definition books : Migration.transaction :=
  {| Migration.id := Some "t2";
     Migration.date := Some "2025-10-02";
     Migration.amount := Some (JNumber (Int 9007199254740993));
     Migration.currency := Some "MXN";
     Migration.description := None;
     Migration.category := Some "Books";
     Migration.merchant := Some "Amazon";
     Migration.provenance := None;
     Migration.confidence :=
       Some (Migration.ConfidenceDict (Some (9 # 10))) |}.

Definition coffee_again : Migration.transaction :=
  {| Migration.id := Some "t1";
     Migration.date := Some "2025-10-03";
     Migration.amount := Some (JNumber (Int (-5)));
     Migration.currency := None;
     Migration.description := Some "Coffee, large";
     Migration.category := None;
     Migration.merchant := Some "Starbucks";
     Migration.provenance := None;
     Migration.confidence := None |}.

Definition cash : Migration.transaction :=
  {| Migration.id := None;
     Migration.date := None;
     Migration.amount := Some (JNumber (Int 1));
     Migration.currency := None;
     Migration.description := None;
     Migration.category := None;
     Migration.merchant := None;
     Migration.provenance := None;
     Migration.confidence := None |}.

Definition gift : Migration.transaction :=
  {| Migration.id := Some "t4";
     Migration.date := None;
     Migration.amount := Some JNull;
     Migration.currency := None;
     Migration.description := Some "Gift";
     Migration.category := None;
     Migration.merchant := None;
     Migration.provenance := None;
     Migration.confidence := None |}.

Definition canonical_ledger : list Migration.transaction :=
  [coffee; books; coffee_again].

End Samples.

Example format_06d_7 : format_06d 7 = "000007".
Proof. reflexivity. Qed.

Example format_2f_092 : format_2f (92 # 100) = "0.92".
Proof. vm_compute. reflexivity. Qed.

Example format_2f_tie : format_2f (1 # 8) = "0.12".
Proof. vm_compute. reflexivity. Qed.

(** * The lineage resolver *)

Section Resolver.

Import Schema.

Variable ledger : list EntityLineage.

Lemma find_newer_old (a b : string) :
  find_newer ledger a = Some b → a ∈ old_entity_id <$> ledger.
Proof.
  unfold find_newer. intros H.
  destruct (List.find _ ledger) as [record|] eqn:Hfind; [|done].
  apply find_some in Hfind as [Hin Hold].
  apply bool_decide_eq_true in Hold. subst a.
  apply list_elem_of_fmap. exists record. split; [done|].
  by apply list_elem_of_In.
Qed.

Lemma chain_snoc (path : list string) (a b c : string) :
  chain ledger path a b → find_newer ledger b = Some c →
  chain ledger (path ++ [b])%list a c.
Proof.
  induction 1 as [a|a b' c' path Hab Hch IH]; intros Hbc; simpl.
  - eapply chain_cons; [done|constructor].
  - eapply chain_cons; [done|]. by apply IH.
Qed.

Lemma chain_suffix (before after : list string) (x a b : string) :
  chain ledger (before ++ x :: after)%list a b → chain ledger (x :: after) x b.
Proof.
  revert a. induction before as [|y before IH]; intros a H; simpl in H.
  - inversion H; subst. by eapply chain_cons.
  - inversion H; subst. by eapply IH.
Qed.

Lemma chain_olds (path : list string) (a b : string) :
  chain ledger path a b → path ⊆ old_entity_id <$> ledger.
Proof.
  induction 1 as [a|a b c path Hab Hch IH].
  - apply list_subseteq_nil.
  - intros x Hx. apply elem_of_cons in Hx as [->|Hx].
    + by eapply find_newer_old.
    + by apply IH.
Qed.

(** A walk that never repeats an id is no longer than the ledger. *)
Lemma chain_length (path : list string) (a b : string) :
  chain ledger path a b → NoDup path → (length path ≤ length ledger)%nat.
Proof.
  intros Hch Hnd.
  rewrite <- (length_fmap old_entity_id ledger).
  apply submseteq_length, NoDup_submseteq; [done|].
  intros x Hx. by eapply chain_olds.
Qed.

(** The loop follows a walk through fresh ids step by step. *)
Lemma resolve_loop_walk (path : list string) (a b : string) :
  chain ledger path a b →
  ∀ (fuel : nat) (visited : gset string),
    NoDup path → (∀ x, x ∈ path → x ∉ visited) →
    resolve_loop ledger (length path + fuel) a visited
    = resolve_loop ledger fuel b (list_to_set path ∪ visited).
Proof.
  induction 1 as [a|a b c path Hab Hch IH]; intros fuel visited Hnd Hfresh.
  - simpl. f_equal. set_solver.
  - apply NoDup_cons in Hnd as [Ha Hnd]. simpl.
    destruct (decide (a ∈ visited)) as [Hin|_].
    { exfalso. eapply Hfresh; [left|done]. }
    rewrite Hab, IH; [|done|].
    + f_equal. set_solver.
    + intros x Hx. specialize (Hfresh x (list_elem_of_further _ _ _ Hx)).
      set_solver.
Qed.

Lemma resolve_loop_more_fuel (fuel extra : nat) (cur r : string)
    (visited : gset string) :
  resolve_loop ledger fuel cur visited = Some r →
  resolve_loop ledger (fuel + extra) cur visited = Some r.
Proof.
  revert cur visited. induction fuel as [|fuel IH]; intros cur visited; simpl.
  - done.
  - destruct (decide (cur ∈ visited)); [done|].
    destruct (find_newer ledger cur); [|done]. apply IH.
Qed.

(** Where the loop stops: at an id without a newer id, or at the first id
    met twice, which then lies on a cycle of the walk. *)
Lemma resolve_loop_stops (e : string) (fuel : nat) :
  ∀ (path : list string) (cur r : string),
    chain ledger path e cur → NoDup path →
    resolve_loop ledger fuel cur (list_to_set path) = Some r →
    ∃ path', chain ledger path' e r ∧ NoDup path' ∧
      (find_newer ledger r = None
       ∨ ∃ before after, path' = (before ++ r :: after)%list).
Proof.
  induction fuel as [|fuel IH]; intros path cur r Hch Hnd; simpl; [done|].
  destruct (decide (cur ∈ list_to_set (C:=gset string) path)) as [Hin|Hnin].
  - intros [= <-]. exists path. split_and!; [done..|].
    right. apply elem_of_list_to_set in Hin.
    by apply list_elem_of_split in Hin.
  - destruct (find_newer ledger cur) as [newer|] eqn:Hnext.
    + intros Hloop. apply (IH (path ++ [cur])%list newer r).
      * by apply chain_snoc.
      * apply NoDup_app. split_and!; [done| |apply NoDup_singleton].
        intros x Hx Hx'. apply list_elem_of_singleton in Hx' as ->.
        apply Hnin. by apply elem_of_list_to_set.
      * rewrite list_to_set_app_L. simpl.
        replace (list_to_set path ∪ ({[cur]} ∪ ∅))
          with ({[cur]} ∪ (list_to_set path : gset string)) by set_solver.
        done.
    + intros [= <-]. exists path. split_and!; [done..|]. by left.
Qed.

(** The loop is left before the fuel runs out as soon as fuel and walk
    together outnumber the ledger. *)
Lemma resolve_loop_enough (e : string) (fuel : nat) :
  ∀ (path : list string) (cur : string),
    chain ledger path e cur → NoDup path →
    (length ledger < fuel + length path)%nat →
    is_Some (resolve_loop ledger fuel cur (list_to_set path)).
Proof.
  induction fuel as [|fuel IH]; intros path cur Hch Hnd Hlt; simpl.
  - pose proof (chain_length _ _ _ Hch Hnd). lia.
  - destruct (decide (cur ∈ list_to_set (C:=gset string) path)) as [Hin|Hnin];
      [by eexists|].
    destruct (find_newer ledger cur) as [newer|] eqn:Hnext; [|by eexists].
    replace ({[cur]} ∪ (list_to_set path : gset string))
      with (list_to_set (C:=gset string) (path ++ [cur])%list)
      by (rewrite list_to_set_app_L; simpl; set_solver).
    apply IH.
    + by apply chain_snoc.
    + apply NoDup_app. split_and!; [done| |apply NoDup_singleton].
      intros x Hx Hx'. apply list_elem_of_singleton in Hx' as ->.
      apply Hnin. by apply elem_of_list_to_set.
    + rewrite length_app. simpl. lia.
Qed.

(** What the resolver returns: the end of a walk from [e] that repeats no
    id and stops at an id without a newer id or at an id already on it. *)
Lemma resolve_current_entity_id_walk (e : string) :
  ∃ path,
    resolve_loop ledger (S (length ledger)) e ∅
    = Some (resolve_current_entity_id ledger e)
    ∧ chain ledger path e (resolve_current_entity_id ledger e)
    ∧ NoDup path
    ∧ (find_newer ledger (resolve_current_entity_id ledger e) = None
       ∨ ∃ before after,
           path = (before ++ resolve_current_entity_id ledger e :: after)%list).
Proof.
  destruct (resolve_loop_enough e (S (length ledger)) [] e) as [r Hr];
    [constructor|constructor|simpl; lia|].
  simpl list_to_set in Hr.
  unfold resolve_current_entity_id. rewrite Hr. simpl default.
  destruct (resolve_loop_stops e (S (length ledger)) [] e r)
    as (path & Hch & Hnd & Hstop); [constructor|constructor|done|].
  by exists path.
Qed.

(** An id at which a walk stops resolves to itself. *)
Lemma resolve_loop_fixed (e r : string) (path : list string) :
  chain ledger path e r → NoDup path →
  find_newer ledger r = None
  ∨ (∃ before after, path = (before ++ r :: after)%list) →
  resolve_loop ledger (S (length ledger)) r ∅ = Some r.
Proof.
  intros Hch Hnd [Hnone|(before & after & ->)].
  - simpl. rewrite decide_False by set_solver. by rewrite Hnone.
  - apply chain_suffix in Hch.
    apply NoDup_app in Hnd as (_ & _ & Hnd).
    pose proof (chain_length _ _ _ Hch Hnd) as Hlen.
    replace (S (length ledger))
      with (length (r :: after) + S (length ledger - length (r :: after)))%nat
      by lia.
    rewrite (resolve_loop_walk _ _ _ Hch); [|done|set_solver].
    simpl. rewrite decide_True by set_solver. done.
Qed.

End Resolver.

(** C3.  Idempotent resolution: for every lineage ledger and every entity
    id [e], resolving the resolved id gives the resolved id again. *)
Theorem resolve_current_entity_id_idempotent
    (ledger : list Schema.EntityLineage) (e : string) :
  Schema.resolve_current_entity_id ledger
    (Schema.resolve_current_entity_id ledger e)
  = Schema.resolve_current_entity_id ledger e.
Proof.
  destruct (resolve_current_entity_id_walk ledger e)
    as (path & _ & Hch & Hnd & Hstop).
  pose proof (resolve_loop_fixed ledger e _ path Hch Hnd Hstop) as Hfix.
  unfold Schema.resolve_current_entity_id at 1. by rewrite Hfix.
Qed.

(** C4.  The resolver terminates on every ledger, cyclic or not: the loop
    is left within [length ledger + 1] evaluations of its condition
    (more fuel changes nothing), and the id returned is the last id
    reached by a walk from [e] along the ledger's edges that visits no id
    twice and ends at an id with no newer id or at an id already
    visited. *)
Theorem resolve_current_entity_id_terminates
    (ledger : list Schema.EntityLineage) (e : string) :
  ∃ path,
    (∀ extra,
       Schema.resolve_loop ledger (S (length ledger) + extra) e ∅
       = Some (Schema.resolve_current_entity_id ledger e))
    ∧ Schema.chain ledger path e (Schema.resolve_current_entity_id ledger e)
    ∧ NoDup path
    ∧ (Schema.find_newer ledger (Schema.resolve_current_entity_id ledger e)
       = None
       ∨ Schema.resolve_current_entity_id ledger e ∈ path).
Proof.
  destruct (resolve_current_entity_id_walk ledger e)
    as (path & Hrun & Hch & Hnd & Hstop).
  exists path. split_and!; [|done..|].
  - intros extra. by apply resolve_loop_more_fuel.
  - destruct Hstop as [Hnone|(before & after & Hpath)]; [by left|right].
    rewrite Hpath. apply elem_of_app. right. by left.
Qed.

(** * The merge pass *)

Section MergePass.

Import Merge.

Variable now : nat → string.

(** One iteration of the loop when [merged_ids] is empty: it raises for
    the first id of the pair missing from the collection, and otherwise
    applies the merge, leaving the set of keys and [merged_ids] as they
    were and adding one log entry. *)
Lemma merge_pair_cases (st : loop_state) (id1 id2 : string) (similarity : Q) :
  merged_ids st = ∅ →
  match merge_pair now st (id1, id2, similarity) with
  | Ok st' =>
      id1 ∈ dom (merged_entities st) ∧ id2 ∈ dom (merged_entities st)
      ∧ dom (merged_entities st') = dom (merged_entities st)
      ∧ merged_ids st' = ∅
      ∧ length (merge_log st') = S (length (merge_log st))
      ∧ length (entity_lineages (self st'))
        = S (length (entity_lineages (self st)))
      ∧ lineage_counter (self st') = S (lineage_counter (self st))
  | KeyError key =>
      (key ∉ dom (merged_entities st))
      ∧ (key = id1 ∨ (id1 ∈ dom (merged_entities st) ∧ key = id2))
  end.
Proof.
  intros Hids. unfold merge_pair.
  rewrite decide_False by (rewrite Hids; set_solver).
  destruct (merged_entities st !! id1) as [entity1|] eqn:H1.
  2: { split; [by apply not_elem_of_dom|by left]. }
  destruct (merged_entities st !! id2) as [entity2|] eqn:H2.
  2: { split; [by apply not_elem_of_dom|].
       right. split; [|done]. apply elem_of_dom. by eexists. }
  assert (id1 ∈ dom (merged_entities st)) by (apply elem_of_dom; by eexists).
  assert (id2 ∈ dom (merged_entities st)) by (apply elem_of_dom; by eexists).
  destruct (_ <=? _)%Z; simpl;
    rewrite !dom_insert_L, !length_app; simpl;
    repeat split; try done; try lia; set_solver.
Qed.

(** The whole loop from a state with empty [merged_ids]. *)
Lemma merge_pairs_cases (duplicates : list (string * string * Q)) :
  ∀ st : loop_state,
    merged_ids st = ∅ →
    match merge_pairs now st duplicates with
    | Ok st' =>
        Forall (names_present (merged_entities st)) duplicates
        ∧ dom (merged_entities st') = dom (merged_entities st)
        ∧ merged_ids st' = ∅
        ∧ length (merge_log st')
          = (length (merge_log st) + length duplicates)%nat
        ∧ length (entity_lineages (self st'))
          = (length (entity_lineages (self st)) + length duplicates)%nat
        ∧ lineage_counter (self st')
          = (lineage_counter (self st) + length duplicates)%nat
    | KeyError key =>
        (key ∉ dom (merged_entities st))
        ∧ ∃ before id1 id2 similarity after,
            duplicates = (before ++ (id1, id2, similarity) :: after)%list
            ∧ Forall (names_present (merged_entities st)) before
            ∧ (key = id1 ∨ (id1 ∈ dom (merged_entities st) ∧ key = id2))
    end.
Proof.
  induction duplicates as [|[[id1 id2] similarity] rest IH]; intros st Hids.
  - simpl. split_and!; [constructor|done|done|lia|lia|lia].
  - change (merge_pairs now st ((id1, id2, similarity) :: rest))
      with (merge_pair now st (id1, id2, similarity) ≫= λ st', merge_pairs now st' rest).
    pose proof (merge_pair_cases st id1 id2 similarity Hids) as Hstep.
    destruct (merge_pair now st (id1, id2, similarity)) as [st1|key];
      unfold mbind, result_bind.
    + destruct Hstep as (Hin1 & Hin2 & Hdom & Hids1 & Hlog & Hlin & Hcnt).
      specialize (IH st1 Hids1).
      destruct (merge_pairs now st1 rest) as [st2|key].
      * destruct IH as (Hall & Hdom2 & Hids2 & Hlog2 & Hlin2 & Hcnt2).
        rewrite Hdom in Hdom2. simpl length.
        split_and!; [|done|done|lia|lia|lia].
        constructor; [done|].
        eapply Forall_impl; [exact Hall|].
        intros dup. unfold names_present. by rewrite Hdom.
      * destruct IH as (Hkey & before & a & b & s & after & -> & Hbefore & Hwhich).
        rewrite Hdom in Hkey, Hwhich. split; [done|].
        exists ((id1, id2, similarity) :: before), a, b, s, after.
        split_and!; [done| |done].
        constructor; [done|].
        eapply Forall_impl; [exact Hbefore|].
        intros dup. unfold names_present. by rewrite Hdom.
    + destruct Hstep as (Hkey & Hwhich). split; [done|].
      exists [], id1, id2, similarity, rest. split_and!; [done|constructor|done].
Qed.


(** The run never skips a pair: [merged_ids] is created empty and no
    statement of the loop adds to it, so a run that completes has applied
    every pair of the list. *)
Lemma merge_pass_skips_nothing (job : EntityMergeJobWithLineage)
    (clock0 : nat) (entities : gmap string entity)
    (duplicates : list (string * string * Q)) (st : loop_state) :
  _merge_duplicates_with_lineage now job clock0 entities duplicates = Ok st →
  merged_ids st = ∅ ∧ length (merge_log st) = length duplicates.
Proof.
  unfold _merge_duplicates_with_lineage. intros Hrun.
  pose proof (merge_pairs_cases duplicates _ (eq_refl : merged_ids
    {| merged_entities := entities; merge_log := []; merged_ids := ∅;
       self := job; clock := clock0 |} = ∅)) as H.
  rewrite Hrun in H. simpl in H. by destruct H as (_ & _ & ? & ? & _).
Qed.

(** The lineage record of an applied merge, field by field.  The
    transferred transaction count is that of the second entity of the pair,
    whichever of the two is the secondary. *)
Lemma merge_pair_lineage (st : loop_state) (id1 id2 : string) (similarity : Q)
    (entity1 entity2 : entity) :
  id1 ∉ merged_ids st → id2 ∉ merged_ids st →
  merged_entities st !! id1 = Some entity1 →
  merged_entities st !! id2 = Some entity2 →
  ∃ st' lineage secondary,
    merge_pair now st (id1, id2, similarity) = Ok st'
    ∧ entity_lineages (self st')
      = (entity_lineages (self st) ++ [lineage])%list
    ∧ merged_entities st !! Schema.old_entity_id lineage = Some secondary
    ∧ Schema.operation lineage = "merge"
    ∧ Schema.confidence lineage = similarity
    ∧ Schema.performed_by lineage = "automated_merge"
    ∧ Schema.merged_canonical_name (Schema.metadata lineage)
      = canonical_name secondary
    ∧ Schema.amount_transferred (Schema.metadata lineage)
      = default (Int 0) (total_amount_usd secondary)
    ∧ Schema.transaction_count_transferred (Schema.metadata lineage)
      = default 0%Z (transaction_count entity2).
Proof.
  intros Hn1 Hn2 H1 H2. unfold merge_pair.
  rewrite decide_False by tauto. rewrite H1, H2.
  destruct (_ <=? _)%Z; simpl.
  - eexists _, _, entity2. split; [reflexivity|]. simpl. by split_and!.
  - eexists _, _, entity1. split; [reflexivity|]. simpl. by split_and!.
Qed.

End MergePass.

(** C2.  No data loss on merge: when the loop body applies a pair of two
    distinct ids, both present, the primary's [transaction_count] afterwards
    is the primary's count before plus the secondary's count before (an
    absent count reads as 0), and the secondary is still in the collection,
    with [status = "superseded"] and [superseded_by] the primary's id.  The
    primary and the secondary are the ones named by the log entry of the
    merge. *)
Theorem merge_pair_no_data_loss (now : nat → string) (st : Merge.loop_state)
    (id1 id2 : string) (similarity : Q) (entity1 entity2 : Merge.entity) :
  id1 ∉ Merge.merged_ids st → id2 ∉ Merge.merged_ids st →
  id1 ≠ id2 →
  Merge.merged_entities st !! id1 = Some entity1 →
  Merge.merged_entities st !! id2 = Some entity2 →
  ∃ st' entry primary secondary primary' secondary',
    Merge.merge_pair now st (id1, id2, similarity) = Ok st'
    ∧ Merge.merge_log st' = (Merge.merge_log st ++ [entry])%list
    ∧ ((Merge.log_primary entry = id1 ∧ Merge.log_secondary entry = id2)
       ∨ (Merge.log_primary entry = id2 ∧ Merge.log_secondary entry = id1))
    ∧ Merge.merged_entities st !! Merge.log_primary entry = Some primary
    ∧ Merge.merged_entities st !! Merge.log_secondary entry = Some secondary
    ∧ Merge.merged_entities st' !! Merge.log_primary entry = Some primary'
    ∧ Merge.merged_entities st' !! Merge.log_secondary entry = Some secondary'
    ∧ Merge.transaction_count primary'
      = Some (default 0 (Merge.transaction_count primary)
              + default 0 (Merge.transaction_count secondary))%Z
    ∧ Merge.status secondary' = Some "superseded"
    ∧ Merge.superseded_by secondary' = Some (Merge.log_primary entry).
Proof.
  intros Hn1 Hn2 Hne H1 H2. unfold Merge.merge_pair.
  rewrite decide_False by tauto. rewrite H1, H2.
  destruct (_ <=? _)%Z; simpl.
  - eexists _, _, entity1, entity2, _, _. split; [reflexivity|]. simpl.
    split_and!;
      [reflexivity|by left|done|done
      |by rewrite lookup_insert_ne, lookup_insert_eq
      |apply lookup_insert_eq
      |by rewrite ?lookup_insert_ne by done..].
  - eexists _, _, entity2, entity1, _, _. split; [reflexivity|]. simpl.
    split_and!;
      [reflexivity|by right|done|done
      |by rewrite lookup_insert_ne, lookup_insert_eq
      |apply lookup_insert_eq
      |by rewrite ?lookup_insert_ne by done..].
Qed.

Lemma merge_pair_no_data_loss_witness :
  ∃ st' entry primary secondary primary' secondary',
    Merge.merge_pair Samples.iso_clock Samples.fresh_state
      ("A", "B", 92 # 100) = Ok st'
    ∧ Merge.merge_log st'
      = (Merge.merge_log Samples.fresh_state ++ [entry])%list
    ∧ ((Merge.log_primary entry = "A" ∧ Merge.log_secondary entry = "B")
       ∨ (Merge.log_primary entry = "B" ∧ Merge.log_secondary entry = "A"))
    ∧ Merge.merged_entities Samples.fresh_state !! Merge.log_primary entry
      = Some primary
    ∧ Merge.merged_entities Samples.fresh_state !! Merge.log_secondary entry
      = Some secondary
    ∧ Merge.merged_entities st' !! Merge.log_primary entry = Some primary'
    ∧ Merge.merged_entities st' !! Merge.log_secondary entry = Some secondary'
    ∧ Merge.transaction_count primary'
      = Some (default 0 (Merge.transaction_count primary)
              + default 0 (Merge.transaction_count secondary))%Z
    ∧ Merge.status secondary' = Some "superseded"
    ∧ Merge.superseded_by secondary' = Some (Merge.log_primary entry).
Proof.
  apply (merge_pair_no_data_loss Samples.iso_clock Samples.fresh_state
           "A" "B" (92 # 100)
           (Samples.plain_entity "Alpha" 10 500)
           (Samples.plain_entity "Beta" 3 90)).
  - simpl. apply not_elem_of_empty.
  - simpl. apply not_elem_of_empty.
  - discriminate.
  - reflexivity.
  - reflexivity.
Defined.

(** C10.  A completed merge pass returns a collection with exactly the
    keys of the input collection, so the report has [entities_after] equal
    to [entities_before] and [entities_merged] equal to 0, also when
    merges were applied. *)
Theorem merge_pass_keeps_entity_ids (now : nat → string)
    (job : Merge.EntityMergeJobWithLineage) (clock0 : nat)
    (entities : gmap string Merge.entity)
    (duplicates : list (string * string * Q)) :
  (∀ st,
     Merge._merge_duplicates_with_lineage now job clock0 entities duplicates
     = Ok st →
     dom (Merge.merged_entities st) = dom entities)
  ∧ (∀ report,
       Merge.run_merge_with_lineage now job clock0 entities duplicates
       = Ok report →
       Merge.entities_after report = Merge.entities_before report
       ∧ Merge.entities_merged report = 0%Z).
Proof.
  assert (∀ st,
    Merge._merge_duplicates_with_lineage now job clock0 entities duplicates
    = Ok st → dom (Merge.merged_entities st) = dom entities) as Hdom.
  { unfold Merge._merge_duplicates_with_lineage. intros st Hrun.
    pose proof (merge_pairs_cases now duplicates _
      (eq_refl : Merge.merged_ids
         {| Merge.merged_entities := entities; Merge.merge_log := [];
            Merge.merged_ids := ∅; Merge.self := job;
            Merge.clock := clock0 |} = ∅)) as H.
    rewrite Hrun in H. simpl in H. by destruct H as (_ & ? & _). }
  split; [exact Hdom|].
  intros report. unfold Merge.run_merge_with_lineage.
  destruct duplicates as [|dup rest].
  - intros [= <-]. done.
  - destruct (Merge._merge_duplicates_with_lineage _ _ _ _ _) as [st|key] eqn:Hrun;
      unfold mbind, result_bind; [|done].
    intros [= <-]. simpl.
    assert (size (Merge.merged_entities st) = size entities) as ->.
    { rewrite <- !size_dom. by rewrite (Hdom st eq_refl). }
    split; [done|lia].
Qed.

Lemma merge_pass_keeps_entity_ids_witness :
  ∃ st report,
    Merge._merge_duplicates_with_lineage Samples.iso_clock Samples.fresh_job 0
      Samples.registry [("A", "B", 92 # 100)] = Ok st
    ∧ length (Merge.merge_log st) = 1%nat
    ∧ dom (Merge.merged_entities st) = dom Samples.registry
    ∧ Merge.run_merge_with_lineage Samples.iso_clock Samples.fresh_job 0
        Samples.registry [("A", "B", 92 # 100)] = Ok report
    ∧ Merge.entities_before report = Some 3%nat
    ∧ Merge.entities_after report = Merge.entities_before report
    ∧ Merge.entities_merged report = 0%Z.
Proof.
  pose proof (merge_pass_keeps_entity_ids Samples.iso_clock
                Samples.fresh_job 0 Samples.registry
                [("A", "B", 92 # 100)]) as [Hkeys Hreport].
  eexists _, _. split; [vm_compute; reflexivity|].
  split; [reflexivity|].
  split; [apply Hkeys; vm_compute; reflexivity|].
  split; [vm_compute; reflexivity|].
  split; [reflexivity|].
  apply Hreport. vm_compute. reflexivity.
Defined.



(** The merge made before the failing pair persists: the run stops with
    the lineage record of the first pair in the job and its transactions
    moved. *)
Example merge_pass_missing_id_keeps_merges :
  ∃ st,
    Merge._merge_duplicates_with_lineage_effects Samples.iso_clock
      Samples.fresh_job 0 Samples.registry
      [("A", "B", 92 # 100); ("A", "ghost", 9 # 10)]
    = (st, Merge.Raised "ghost")
    ∧ Merge.lineage_counter (Merge.self st) = 1%nat
    ∧ Schema.old_entity_id <$> Merge.entity_lineages (Merge.self st) = ["B"]
    ∧ (Merge.transaction_count <$> Merge.merged_entities st !! "A")
      = Some (Some 13%Z).
Proof. eexists. vm_compute. repeat split. Qed.

(** C1 fails on the code: [merged_ids] is tested but never added to, so
    both pairs naming "A" are applied in one run. *)
Theorem merge_pass_merges_same_id_twice :
  ∃ st first second,
    Merge._merge_duplicates_with_lineage Samples.iso_clock Samples.fresh_job 0
      Samples.registry [("A", "B", 92 # 100); ("A", "C", 9 # 10)] = Ok st
    ∧ Merge.merge_log st = [first; second]
    ∧ Merge.log_primary first = "A" ∧ Merge.log_secondary first = "B"
    ∧ Merge.log_primary second = "A" ∧ Merge.log_secondary second = "C"
    ∧ Merge.merged_ids st = ∅.
Proof.
  eexists _, _, _. split; [vm_compute; reflexivity|].
  split; [reflexivity|]. by split_and!.
Qed.

(** C9 fails on the code when the secondary is the first element of the
    pair: for ("B", "A") the secondary is "B", with 3 transactions, and the
    lineage record reports 10 transferred, the count of the primary "A". *)
Theorem merge_lineage_reports_primary_count :
  ∃ st lineage secondary,
    Merge._merge_duplicates_with_lineage Samples.iso_clock Samples.fresh_job 0
      Samples.registry [("B", "A", 92 # 100)] = Ok st
    ∧ Merge.entity_lineages (Merge.self st) = [lineage]
    ∧ Schema.old_entity_id lineage = "B"
    ∧ Schema.new_entity_id lineage = "A"
    ∧ Samples.registry !! "B" = Some secondary
    ∧ Merge.transaction_count secondary = Some 3%Z
    ∧ Schema.merged_canonical_name (Schema.metadata lineage)
      = Merge.canonical_name secondary
    ∧ Schema.amount_transferred (Schema.metadata lineage) = Int 90
    ∧ Schema.transaction_count_transferred (Schema.metadata lineage) = 10%Z.
Proof.
  eexists _, _, _. split; [vm_compute; reflexivity|].
  split; [reflexivity|]. simpl.
  split_and!; [done|done|vm_compute; reflexivity|done..].
Qed.

(** * The reconciliation decision builder *)

Section DictSet.

Import Reconcile.

Context {V : Type}.

Lemma dict_set_keys (k : string) (v : V) (d : list (string * V)) :
  (dict_set k v d).*1 = if bool_decide (k ∈ d.*1) then d.*1 else (d.*1 ++ [k])%list.
Proof.
  unfold dict_set. destruct (bool_decide (k ∈ d.*1)).
  - rewrite <- list_fmap_compose. apply list_fmap_ext.
    intros i [k' v'] _. simpl. by destruct (decide (k' = k)) as [->|].
  - by rewrite fmap_app.
Qed.

Lemma dict_set_elem (k k' : string) (v v' : V) (d : list (string * V)) :
  (k', v') ∈ dict_set k v d →
  (k' = k ∧ v' = v) ∨ (k' ≠ k ∧ (k', v') ∈ d).
Proof.
  unfold dict_set. destruct (bool_decide (k ∈ d.*1)) eqn:Hk.
  - intros ([k0 v0] & Heq & Hin)%list_elem_of_fmap. simpl in Heq.
    destruct (decide (k0 = k)) as [->|Hne]; simplify_eq; [by left|by right].
  - apply bool_decide_eq_false in Hk.
    intros [Hin|Hin%list_elem_of_singleton]%elem_of_app.
    + right. split; [|done]. intros ->. apply Hk.
      apply list_elem_of_fmap. by exists (k, v').
    + simplify_eq. by left.
Qed.

Lemma dict_set_elem_same (k : string) (v : V) (d : list (string * V)) :
  (k, v) ∈ dict_set k v d.
Proof.
  unfold dict_set. destruct (bool_decide (k ∈ d.*1)) eqn:Hk.
  - apply bool_decide_eq_true in Hk.
    apply list_elem_of_fmap in Hk as ([k0 v0] & -> & Hin).
    apply list_elem_of_fmap. exists (k0, v0). simpl.
    by rewrite decide_True.
  - apply elem_of_app. right. by apply list_elem_of_singleton.
Qed.

Lemma dict_set_elem_other (k k' : string) (v v' : V) (d : list (string * V)) :
  k' ≠ k → (k', v') ∈ d → (k', v') ∈ dict_set k v d.
Proof.
  intros Hne Hin. unfold dict_set. destruct (bool_decide (k ∈ d.*1)).
  - apply list_elem_of_fmap. exists (k', v'). simpl.
    by rewrite decide_False.
  - apply elem_of_app. by left.
Qed.

Lemma dict_set_NoDup (k : string) (v : V) (d : list (string * V)) :
  NoDup d.*1 → NoDup (dict_set k v d).*1.
Proof.
  intros Hnd. rewrite dict_set_keys.
  destruct (bool_decide (k ∈ d.*1)) eqn:Hk; [done|].
  apply bool_decide_eq_false in Hk.
  apply NoDup_app. split_and!; [done| |apply NoDup_singleton].
  intros x Hx ->%list_elem_of_singleton. done.
Qed.

End DictSet.

Section BuilderFacts.

Import Reconcile.

Variable canonical : canonical_record.

Lemma record_field_cases
    (acc acc' : list (string * Schema.field_strategy) * list string)
    (field_name : string) :
  record_field canonical acc field_name = Ok acc' →
  match canonical_get canonical field_name with
  | Some (Reconciled field_data) =>
      ∃ canonical_id,
        id canonical = Some canonical_id
        ∧ acc' = (dict_set field_name (strategy_entry field_data) acc.1,
                  (acc.2 ++ ["attr_" +:+ canonical_id +:+ "_" +:+ field_name])%list)
  | _ => acc' = acc
  end.
Proof.
  unfold record_field.
  destruct (canonical_get canonical field_name) as [[text|field_data]|];
    [by intros [= <-]| |by intros [= <-]].
  destruct (id canonical) as [canonical_id|]; [|done].
  intros [= <-]. by exists canonical_id.
Qed.

Lemma record_fields_spec (field_names : list string) :
  ∀ acc acc' : list (string * Schema.field_strategy) * list string,
    entries_agree canonical acc.1 → NoDup acc.1.*1 →
    record_fields canonical acc field_names = Ok acc' →
    entries_agree canonical acc'.1
    ∧ NoDup acc'.1.*1
    ∧ (∀ kv, kv ∈ acc.1 → kv ∈ acc'.1)
    ∧ (∀ s, s ∈ acc.2 → s ∈ acc'.2)
    ∧ (∀ k field_data,
         k ∈ field_names →
         canonical_get canonical k = Some (Reconciled field_data) →
         (k, strategy_entry field_data) ∈ acc'.1
         ∧ ∃ canonical_id,
             id canonical = Some canonical_id
             ∧ "attr_" +:+ canonical_id +:+ "_" +:+ k ∈ acc'.2)
    ∧ length acc'.2
      = (length acc.2
         + length (List.filter (is_reconciled canonical) field_names))%nat.
Proof.
  induction field_names as [|name rest IH]; intros acc acc' Hagree Hnd.
  - intros [= <-]. split_and!; [done..| |simpl; lia].
    intros k fd Hin. by apply elem_of_nil in Hin.
  - change (record_fields canonical acc (name :: rest))
      with (record_field canonical acc name
              ≫= (λ acc1, record_fields canonical acc1 rest)).
    destruct (record_field canonical acc name) as [acc1|key] eqn:Hstep;
      unfold mbind, result_bind; [|done].
    apply record_field_cases in Hstep. intros Hrest.
    simpl List.filter. unfold is_reconciled at 1.
    destruct (canonical_get canonical name) as [[text|field_data]|] eqn:Hget.
    1,3: subst acc1;
      destruct (IH acc acc' Hagree Hnd Hrest)
        as (Hagree' & Hnd' & Hkeep & Hids & Hrec & Hlen);
      split_and!; [done..| |done];
      intros k fd [->|Hin]%elem_of_cons Hk; [congruence|by apply Hrec].
    destruct Hstep as (canonical_id & Hid & ->).
    assert (entries_agree canonical
              (dict_set name (strategy_entry field_data) acc.1)) as Hagree1.
    { intros k e [[-> ->]|[Hne Hin]]%dict_set_elem; [by eexists|].
      by apply Hagree. }
    assert (NoDup (dict_set name (strategy_entry field_data) acc.1).*1)
      as Hnd1 by (by apply dict_set_NoDup).
    destruct (IH (_, _) acc' Hagree1 Hnd1 Hrest)
      as (Hagree' & Hnd' & Hkeep & Hids & Hrec & Hlen); simpl in *.
    split_and!; [done|done| | | |].
    + intros [k e] Hin. apply Hkeep.
      destruct (decide (k = name)) as [->|Hne];
        [|by apply dict_set_elem_other].
      destruct (Hagree _ _ Hin) as (fd & Hfd & ->).
      assert (fd = field_data) as -> by congruence.
      apply dict_set_elem_same.
    + intros s Hs. apply Hids, elem_of_app. by left.
    + intros k fd [->|Hin]%elem_of_cons Hk; [|by apply Hrec].
      assert (fd = field_data) as -> by congruence.
      split; [apply Hkeep, dict_set_elem_same|].
      exists canonical_id. split; [done|].
      apply Hids, elem_of_app. right. by apply list_elem_of_singleton.
    + rewrite Hlen, length_app. simpl. lia.
Qed.

End BuilderFacts.




(** The record with scalar fields only collects no confidence and gets
    1. *)
Example decision_confidence_default :
  Schema.decision_confidence <$>
    Reconcile.create_reconciliation_decision Samples.iso_clock
      Samples.field_schema 0 [Samples.obs1] Samples.scalar_record 0
  = Ok (Float Float64.one).
Proof. vm_compute. reflexivity. Qed.

(** C7, as the code has it.  When the builder returns a decision, every
    predicate of the field schema whose value on the canonical record is a
    dict has exactly one field-strategy entry, with strategy and chosen
    observation defaulting to "unknown", confidence to 1 and alternatives
    to the empty list, and its statement id [attr_<id>_<predicate>] is in
    [created_statement_ids]; a predicate whose value is a raw scalar, or
    that the record lacks, has no entry, and there are as many statement
    ids as dict-valued occurrences in the schema. *)
Theorem decision_records_dict_fields (now : nat → string)
    (FIELD_SCHEMA : list string) (clock0 : nat)
    (observations : list Reconcile.observation)
    (canonical : Reconcile.canonical_record) (decision_counter : nat)
    (decision : Schema.ReconciliationDecision) :
  Reconcile.create_reconciliation_decision now FIELD_SCHEMA clock0
    observations canonical decision_counter = Ok decision →
  NoDup (Schema.field_strategies decision).*1
  ∧ length (Schema.created_statement_ids decision)
    = length (List.filter (Reconcile.is_reconciled canonical) FIELD_SCHEMA)
  ∧ ∀ field_name,
      field_name ∈ FIELD_SCHEMA →
      match Reconcile.canonical_get canonical field_name with
      | Some (Reconcile.Reconciled field_data) =>
          (∃ entry,
             (field_name, entry) ∈ Schema.field_strategies decision
             ∧ Schema.strategy entry
               = default "unknown" (Reconcile.reconciliation_method field_data)
             ∧ Schema.chosen_obs entry
               = default "unknown" (Reconcile.source_observation_id field_data)
             ∧ Schema.fs_confidence entry
               = default (Float Float64.one) (Reconcile.confidence field_data)
             ∧ Schema.fs_alternatives entry
               = default [] (Reconcile.alternatives field_data))
          ∧ ∃ canonical_id,
              Reconcile.id canonical = Some canonical_id
              ∧ "attr_" +:+ canonical_id +:+ "_" +:+ field_name
                ∈ Schema.created_statement_ids decision
      | Some (Reconcile.Scalar _) | None =>
          field_name ∉ (Schema.field_strategies decision).*1
      end.
Proof.
  unfold Reconcile.create_reconciliation_decision.
  destruct (Reconcile.record_fields _ _ _) as [[strategies ids]|key] eqn:Hrun;
    unfold mbind, result_bind; [|done].
  intros [= <-]. simpl.
  assert (Reconcile.entries_agree canonical []) as Hagree0.
  { intros k e Hin. by apply elem_of_nil in Hin. }
  destruct (record_fields_spec canonical FIELD_SCHEMA ([], [])
              (strategies, ids) Hagree0 (NoDup_nil_2 : NoDup ([] : list (string * Schema.field_strategy)).*1) Hrun)
    as (Hagree & Hnd & _ & _ & Hrec & Hlen).
  simpl in *. split_and!; [done|done|].
  intros field_name Hin.
  destruct (Reconcile.canonical_get canonical field_name)
    as [[text|field_data]|] eqn:Hget.
  - intros ([k e] & -> & Hk)%list_elem_of_fmap.
    destruct (Hagree _ _ Hk) as (fd & Hfd & _). simpl in *. congruence.
  - destruct (Hrec _ _ Hin Hget) as (Hentry & Hid).
    split; [|done]. by exists (Reconcile.strategy_entry field_data).
  - intros ([k e] & -> & Hk)%list_elem_of_fmap.
    destruct (Hagree _ _ Hk) as (fd & Hfd & _). simpl in *. congruence.
Qed.

Lemma decision_records_dict_fields_witness :
  ∃ decision,
    Reconcile.create_reconciliation_decision Samples.iso_clock
      Samples.field_schema 0 [Samples.obs1] Samples.mixed_record 0
    = Ok decision
    ∧ (∃ entry,
         ("description", entry) ∈ Schema.field_strategies decision
         ∧ Schema.strategy entry = "unknown"
         ∧ Schema.chosen_obs entry = "unknown"
         ∧ Schema.fs_confidence entry = Float Float64.one
         ∧ Schema.fs_alternatives entry = [])
    ∧ "attr_tx2_description" ∈ Schema.created_statement_ids decision
    ∧ ("date" ∉ (Schema.field_strategies decision).*1)
    ∧ length (Schema.created_statement_ids decision) = 2%nat.
Proof.
  eexists. split; [vm_compute; reflexivity|].
  match goal with
  | |- context [Schema.field_strategies ?d] =>
      destruct (decision_records_dict_fields Samples.iso_clock
                  Samples.field_schema 0 [Samples.obs1]
                  Samples.mixed_record 0 d)
        as (_ & Hlen & Hfields); [vm_compute; reflexivity|]
  end.
  pose proof (Hfields "description"
                ltac:(unfold Samples.field_schema; set_solver)) as Hdesc.
  pose proof (Hfields "date"
                ltac:(unfold Samples.field_schema; set_solver)) as Hdate.
  vm_compute Reconcile.canonical_get in Hdesc, Hdate.
  destruct Hdesc as (Hentry & canonical_id & [= <-] & Hid).
  split_and!; [exact Hentry|exact Hid|exact Hdate|exact Hlen].
Defined.

(** C7, as the spec has it, fails: "amount" is in the schema and on the
    record, with the raw scalar -42, and the decision has neither a
    strategy entry nor a statement id for it. *)
Lemma decision_omits_scalar_field :
  ∃ decision,
    Reconcile.create_reconciliation_decision Samples.iso_clock
      Samples.field_schema 0 [Samples.obs1] Samples.scalar_record 0
    = Ok decision
    ∧ "amount" ∈ Samples.field_schema
    ∧ Reconcile.canonical_get Samples.scalar_record "amount"
      = Some (Reconcile.Scalar "-42")
    ∧ Schema.field_strategies decision = []
    ∧ Schema.created_statement_ids decision = [].
Proof.
  eexists. split; [vm_compute; reflexivity|].
  split_and!; [unfold Samples.field_schema; set_solver|reflexivity..].
Qed.

(** * Statement ids *)

Lemma string_length_app (s t : string) :
  String.length (s +:+ t) = (String.length s + String.length t)%nat.
Proof.
  induction s as [|c s IH]; [reflexivity|].
  change (S (String.length (s +:+ t))
          = S (String.length s + String.length t)).
  by rewrite IH.
Qed.

Lemma string_app_assoc (s t u : string) :
  (s +:+ t) +:+ u = s +:+ (t +:+ u).
Proof.
  induction s as [|c s IH]; [reflexivity|].
  change (String c ((s +:+ t) +:+ u) = String c (s +:+ (t +:+ u))).
  by f_equal.
Qed.

Lemma string_app_suffix_inj (s1 s2 t1 t2 : string) :
  String.length t1 = String.length t2 →
  s1 +:+ t1 = s2 +:+ t2 → t1 = t2.
Proof.
  revert s2. induction s1 as [|c s1 IH]; intros [|c' s2] Hlen Heq.
  - exact Heq.
  - change (t1 = String c' (s2 +:+ t2)) in Heq. subst t1.
    change (S (String.length (s2 +:+ t2)) = String.length t2) in Hlen.
    rewrite string_length_app in Hlen. lia.
  - change (String c (s1 +:+ t1) = t2) in Heq. subst t2.
    change (String.length t1 = S (String.length (s1 +:+ t1))) in Hlen.
    rewrite string_length_app in Hlen. lia.
  - change (String c (s1 +:+ t1) = String c' (s2 +:+ t2)) in Heq.
    injection Heq as _ Heq. by eapply IH.
Qed.

(** The id is a function of its three arguments and of the text read off
    the clock, and nothing else. *)
Lemma generate_statement_id_deterministic (now now' : nat → string)
    (clock clock' : nat) (prefix subject_id predicate : string) :
  now clock = now' clock' →
  (Migrate.generate_statement_id now clock prefix subject_id predicate).1
  = (Migrate.generate_statement_id now' clock' prefix subject_id predicate).1.
Proof. unfold Migrate.generate_statement_id. simpl. by intros ->. Qed.

(** Two readings of the same width that differ give different ids,
    whatever the other arguments. *)
Lemma generate_statement_id_distinct_readings (now : nat → string)
    (clock clock' : nat) (prefix subject_id predicate : string)
    (prefix' subject_id' predicate' : string) :
  String.length (now clock) = String.length (now clock') →
  now clock ≠ now clock' →
  (Migrate.generate_statement_id now clock prefix subject_id predicate).1
  ≠ (Migrate.generate_statement_id now clock' prefix' subject_id' predicate').1.
Proof.
  unfold Migrate.generate_statement_id. cbn [fst]. intros Hlen Hne Heq.
  apply Hne.
  apply (string_app_suffix_inj
           (prefix +:+ "_" +:+ subject_id +:+ "_" +:+ predicate +:+ "_")
           (prefix' +:+ "_" +:+ subject_id' +:+ "_" +:+ predicate' +:+ "_"));
    [done|].
  by rewrite !string_app_assoc.
Qed.

(** C8 fails on the code: two successive calls for the same subject and
    predicate that read the same microsecond off the clock return the same
    statement id; and so do two calls at one reading whose subject and
    predicate differ only in where the underscore falls. *)
Theorem generate_statement_id_repeats :
  let first :=
    Migrate.generate_statement_id Samples.stuck_clock 0
      "attr" "evt_tx1" "amount" in
  let second :=
    Migrate.generate_statement_id Samples.stuck_clock first.2
      "attr" "evt_tx1" "amount" in
  first.2 = 1%nat ∧ second.2 = 2%nat
  ∧ first.1 = "attr_evt_tx1_amount_20251014100000000000"
  ∧ second.1 = first.1
  ∧ (Migrate.generate_statement_id Samples.stuck_clock 0
       "attr" "evt_a_b" "c").1
    = (Migrate.generate_statement_id Samples.stuck_clock 0
         "attr" "evt_a" "b_c").1.
Proof. vm_compute. by split_and!. Qed.

(** * Worked examples *)

(** [X] merged into [Y], later [Y] merged into [Z]. *)
Example resolve_chain :
  Schema.resolve_current_entity_id
    [Samples.edge "X" "Y"; Samples.edge "Y" "Z"] "X" = "Z".
Proof. vm_compute. reflexivity. Qed.

(** A ledger with the cycle [B -> C -> B]: from [A] the walk is
    [A, B, C] and stops on meeting [B] again. *)
Example resolve_cycle :
  Schema.resolve_current_entity_id
    [Samples.edge "A" "B"; Samples.edge "B" "C"; Samples.edge "C" "B"] "A"
  = "B".
Proof. vm_compute. reflexivity. Qed.

(** Of two records for one old id the first in the ledger is followed. *)
Example resolve_first_record :
  Schema.resolve_current_entity_id
    [Samples.edge "A" "B"; Samples.edge "A" "C"] "A" = "B".
Proof. vm_compute. reflexivity. Qed.

(** The scenario [A (tx=10, amount=500)], [B (tx=3, amount=90)],
    similarity 0.92. *)
Example merge_scenario :
  ∃ st,
    Merge._merge_duplicates_with_lineage Samples.iso_clock Samples.fresh_job 0
      Samples.registry [("A", "B", 92 # 100)] = Ok st
    ∧ (Merge.transaction_count <$> Merge.merged_entities st !! "A")
      = Some (Some 13%Z)
    ∧ (Merge.total_amount_usd <$> Merge.merged_entities st !! "A")
      = Some (Some (Int 590))
    ∧ (Merge.aliases <$> Merge.merged_entities st !! "A")
      = Some (Some ["Beta"])
    ∧ (Merge.superseded_by <$> Merge.merged_entities st !! "B")
      = Some (Some "A")
    ∧ (Schema.reason <$> Merge.entity_lineages (Merge.self st))
      = ["Duplicate detection: similarity 0.92"].
Proof.
  eexists. split; [vm_compute; reflexivity|].
  split_and!; vm_compute; reflexivity.
Qed.

(** A pair that repeats one id is applied too: the entity absorbs itself
    and is then marked superseded by itself. *)
Example merge_with_itself :
  ∃ st,
    Merge._merge_duplicates_with_lineage Samples.iso_clock Samples.fresh_job 0
      Samples.registry [("B", "B", 1%Q)] = Ok st
    ∧ (Merge.transaction_count <$> Merge.merged_entities st !! "B")
      = Some (Some 6%Z)
    ∧ (Merge.superseded_by <$> Merge.merged_entities st !! "B")
      = Some (Some "B").
Proof.
  eexists. split; [vm_compute; reflexivity|].
  split_and!; vm_compute; reflexivity.
Qed.

Example before_first_observer :
  Reconcile.source_of Samples.obs1 = "bofa_parser".
Proof. vm_compute. reflexivity. Qed.

(** * More on the resolver *)

Section ResolverMore.

Import Schema.

Variable ledger : list EntityLineage.

Lemma find_newer_new (a b : string) :
  find_newer ledger a = Some b → b ∈ new_entity_id <$> ledger.
Proof.
  unfold find_newer. intros H.
  destruct (List.find _ ledger) as [record|] eqn:Hfind; [|done].
  apply find_some in Hfind as [Hin _]. injection H as <-.
  apply list_elem_of_fmap. exists record. split; [done|].
  by apply list_elem_of_In.
Qed.

(** A record whose old id is [a] exists as soon as [a] has a newer id. *)
Lemma find_newer_record (a b : string) :
  find_newer ledger a = Some b →
  ∃ record, record ∈ ledger ∧ old_entity_id record = a.
Proof.
  unfold find_newer. intros H.
  destruct (List.find _ ledger) as [record|] eqn:Hfind; [|done].
  apply find_some in Hfind as [Hin Hold].
  apply bool_decide_eq_true in Hold.
  exists record. split; [by apply list_elem_of_In|done].
Qed.

Lemma find_newer_None (a : string) :
  find_newer ledger a = None ↔ a ∉ old_entity_id <$> ledger.
Proof.
  split.
  - intros Hnone (record & -> & Hin)%list_elem_of_fmap.
    unfold find_newer in Hnone.
    destruct (List.find _ ledger) as [found|] eqn:Hfind; [done|].
    pose proof (find_none _ _ Hfind record) as Hfalse.
    rewrite bool_decide_eq_false in Hfalse.
    apply Hfalse; [by apply list_elem_of_In|done].
  - intros Hnot. destruct (find_newer ledger a) as [b|] eqn:H; [|done].
    exfalso. by apply Hnot, (find_newer_old ledger a b).
Qed.

(** The end of a walk is its start or the new id of some record. *)
Lemma chain_end (path : list string) (a b : string) :
  chain ledger path a b → b = a ∨ b ∈ new_entity_id <$> ledger.
Proof.
  induction 1 as [a|a b c path Hab Hch IH]; [by left|].
  right. destruct IH as [->|?]; [by eapply find_newer_new|done].
Qed.

(** Two walks from one id to an id without a newer id are the same walk. *)
Lemma chain_to_current_unique (path path' : list string) (a c : string) :
  chain ledger path a c → find_newer ledger c = None →
  chain ledger path' a c → path = path'.
Proof.
  intros Hch Hnone. revert path'.
  induction Hch as [a|a b c path Hab Hch IH]; intros path' Hch'.
  - inversion Hch'; subst; [done|congruence].
  - inversion Hch' as [|a' b' c' rest Hab' Hrest]; subst; [congruence|].
    assert (b' = b) as -> by congruence.
    f_equal. by apply IH.
Qed.

Lemma chain_to_current_NoDup (path : list string) (a c : string) :
  chain ledger path a c → find_newer ledger c = None → NoDup path.
Proof.
  intros Hch Hnone. induction Hch as [a|a b c path Hab Hch IH].
  - constructor.
  - constructor; [|by apply IH].
    intros (before & after & Hsplit)%list_elem_of_split.
    assert (chain ledger (a :: path) a c) as Hfull by by eapply chain_cons.
    assert (chain ledger (a :: after) a c) as Hshort.
    { apply (chain_suffix ledger (a :: before) after a a c).
      simpl. by rewrite <- Hsplit. }
    pose proof (chain_to_current_unique _ _ _ _ Hfull Hnone Hshort) as Heq.
    injection Heq as Heq. rewrite Hsplit in Heq.
    apply (f_equal length) in Heq. rewrite length_app in Heq. simpl in Heq.
    lia.
Qed.

Lemma resolve_to_current (path : list string) (e r : string) :
  chain ledger path e r → find_newer ledger r = None →
  resolve_current_entity_id ledger e = r.
Proof.
  intros Hch Hnone.
  pose proof (chain_to_current_NoDup _ _ _ Hch Hnone) as Hnd.
  pose proof (chain_length ledger _ _ _ Hch Hnd) as Hlen.
  unfold resolve_current_entity_id.
  replace (S (length ledger))
    with (length path + S (length ledger - length path))%nat by lia.
  rewrite (resolve_loop_walk ledger _ _ _ Hch); [|done|set_solver].
  simpl. destruct (decide (r ∈ _)); [done|]. by rewrite Hnone.
Qed.

Lemma resolve_known_id (e : string) :
  resolve_current_entity_id ledger e = e
  ∨ resolve_current_entity_id ledger e ∈ new_entity_id <$> ledger.
Proof.
  destruct (resolve_current_entity_id_walk ledger e)
    as (path & _ & Hch & _).
  by eapply chain_end.
Qed.

End ResolverMore.

(** X1.  When the chain of newer ids that starts at [e] ends at an id [r]
    that has no newer id, the resolver returns [r], however long the
    chain. *)
Theorem resolve_follows_chain_to_current
    (ledger : list Schema.EntityLineage) (path : list string)
    (e r : string) :
  Schema.chain ledger path e r →
  Schema.find_newer ledger r = None →
  Schema.resolve_current_entity_id ledger e = r.
Proof. apply resolve_to_current. Qed.

Lemma resolve_follows_chain_to_current_witness :
  Schema.resolve_current_entity_id
    [Samples.edge "X" "Y"; Samples.edge "Y" "Z"] "X" = "Z".
Proof.
  apply (resolve_follows_chain_to_current _ ["X"; "Y"]).
  - eapply Schema.chain_cons; [reflexivity|].
    eapply Schema.chain_cons; [reflexivity|]. constructor.
  - reflexivity.
Defined.

(** X2.  The resolver never invents an id: what it returns is the id it
    was given or the [new_entity_id] of a record of the ledger. *)
Theorem resolve_returns_known_id
    (ledger : list Schema.EntityLineage) (e : string) :
  Schema.resolve_current_entity_id ledger e = e
  ∨ Schema.resolve_current_entity_id ledger e
    ∈ Schema.new_entity_id <$> ledger.
Proof. apply resolve_known_id. Qed.

(** X3.  An id that no lineage record mentions ([get_entity_lineage]
    returns the empty list) is its own current id, and no other id
    resolves to it. *)
Theorem resolve_without_history
    (ledger : list Schema.EntityLineage) (e : string) :
  Schema.get_entity_lineage ledger e = [] →
  Schema.resolve_current_entity_id ledger e = e
  ∧ ∀ x, Schema.resolve_current_entity_id ledger x = e → x = e.
Proof.
  intros Hnone.
  assert (∀ record, record ∈ ledger →
            Schema.old_entity_id record ≠ e
            ∧ Schema.new_entity_id record ≠ e) as Hfree.
  { intros record Hin.
    assert (record ∉ Schema.get_entity_lineage ledger e) as Hnot
      by (rewrite Hnone; apply not_elem_of_nil).
    unfold Schema.get_entity_lineage in Hnot.
    rewrite list_elem_of_In, filter_In, <- list_elem_of_In in Hnot.
    rewrite bool_decide_eq_true in Hnot. tauto. }
  split.
  - apply (resolve_to_current ledger []); [constructor|].
    apply find_newer_None. intros (record & Heq & Hin)%list_elem_of_fmap.
    by destruct (Hfree record Hin).
  - intros x Hx. destruct (resolve_known_id ledger x) as [H|H].
    + congruence.
    + rewrite Hx in H. apply list_elem_of_fmap in H as (record & Heq & Hin).
      by destruct (Hfree record Hin).
Qed.

Lemma resolve_without_history_witness :
  Schema.resolve_current_entity_id
    [Samples.edge "X" "Y"; Samples.edge "Y" "Z"] "Q" = "Q"
  ∧ ∀ x, Schema.resolve_current_entity_id
           [Samples.edge "X" "Y"; Samples.edge "Y" "Z"] x = "Q" → x = "Q".
Proof.
  apply (resolve_without_history
           [Samples.edge "X" "Y"; Samples.edge "Y" "Z"] "Q").
  reflexivity.
Defined.

(** * Counter formatting *)

Lemma pretty_N_go_first_nonzero (x : N) :
  ∀ s, (0 < x)%N →
    ∃ c rest, pretty_N_go x s = String c rest ∧ c ≠ "0"%char.
Proof.
  induction (N.lt_wf_0 x) as [x _ IH]; intros s Hpos.
  rewrite pretty_N_go_step by done.
  destruct (decide (x `div` 10 = 0)%N) as [Hsmall|Hbig].
  - rewrite Hsmall, pretty_N_go_0.
    eexists _, _. split; [done|].
    apply N.div_small_iff in Hsmall; [|done].
    rewrite N.mod_small by done.
    assert (x = 1 ∨ x = 2 ∨ x = 3 ∨ x = 4 ∨ x = 5 ∨ x = 6
            ∨ x = 7 ∨ x = 8 ∨ x = 9)%N as Hx by lia.
    destruct Hx as [->|[->|[->|[->|[->|[->|[->|[->| ->]]]]]]]]; done.
  - apply IH; [apply N.div_lt; lia|by apply N.neq_0_lt_0].
Qed.

(** The decimal text of a number is "0" or starts with a digit other
    than 0. *)
Lemma pretty_nat_shape (n : nat) :
  pretty n = "0" ∨ ∃ c rest, pretty n = String c rest ∧ c ≠ "0"%char.
Proof.
  unfold pretty, pretty_nat, pretty, pretty_N.
  destruct (decide (N.of_nat n = 0%N)); [by left|right].
  apply pretty_N_go_first_nonzero. lia.
Qed.

Lemma zeros_S (k : nat) :
  String.concat "" (replicate (S k) "0")
  = String "0" (String.concat "" (replicate k "0")).
Proof. by destruct k. Qed.

Lemma zero_padded_inj (k j : nat) (p q : string) :
  (p = "0" ∨ ∃ c rest, p = String c rest ∧ c ≠ "0"%char) →
  (q = "0" ∨ ∃ c rest, q = String c rest ∧ c ≠ "0"%char) →
  String.concat "" (replicate k "0") +:+ p
  = String.concat "" (replicate j "0") +:+ q →
  p = q.
Proof.
  intros Hp Hq. revert j. induction k as [|k IH]; intros [|j].
  - done.
  - rewrite zeros_S. simpl replicate. cbn [String.concat].
    change ("" +:+ p) with p.
    change (String "0" ?z +:+ q) with (String "0" (z +:+ q)).
    intros ->. destruct Hp as [[= Hnil]|(c & rest & [= <- _] & Hc)]; [|done].
    destruct (String.concat "" (replicate j "0")); [|done].
    change ("" +:+ q) with q in Hnil. subst q.
    by destruct Hq as [?|(? & ? & ? & ?)].
  - rewrite zeros_S. simpl replicate. cbn [String.concat].
    change ("" +:+ q) with q.
    change (String "0" ?z +:+ p) with (String "0" (z +:+ p)).
    intros <-. destruct Hq as [[= Hnil]|(c & rest & [= <- _] & Hc)]; [|done].
    destruct (String.concat "" (replicate k "0")); [|done].
    change ("" +:+ p) with p in Hnil. subst p.
    by destruct Hp as [?|(? & ? & ? & ?)].
  - rewrite !zeros_S.
    change (String "0" ?z +:+ ?r) with (String "0" (z +:+ r)).
    intros [= H]. by apply (IH j).
Qed.

(** [f"{n:06d}"] tells counters apart. *)
Lemma format_06d_inj (n m : nat) : format_06d n = format_06d m → n = m.
Proof.
  unfold format_06d, zero_pad. intros H.
  apply zero_padded_inj in H; [|apply pretty_nat_shape..].
  by apply (inj pretty).
Qed.

(** * More on the merge pass *)

Section MergeMore.

Import Merge.

Variable now : nat → string.

(** What one applied iteration appends to the log and to the ledger, and
    how it moves the counter and the clock. *)
Lemma merge_pair_records (st st' : loop_state) (dup : string * string * Q) :
  merged_ids st = ∅ →
  merge_pair now st dup = Ok st' →
  ∃ entry lineage,
    merge_log st' = (merge_log st ++ [entry])%list
    ∧ entity_lineages (self st')
      = (entity_lineages (self st) ++ [lineage])%list
    ∧ lineage_counter (self st') = (lineage_counter (self st) + 1)%nat
    ∧ clock st' = (clock st + 5)%nat
    ∧ merged_ids st' = ∅
    ∧ merge_recorded dup entry lineage
    ∧ Schema.lineage_id lineage
      = "lineage_" +:+ format_06d (lineage_counter (self st)).
Proof.
  destruct dup as [[id1 id2] similarity]. intros Hids. unfold merge_pair.
  rewrite decide_False by (rewrite Hids; set_solver).
  destruct (merged_entities st !! id1) as [entity1|]; [|done].
  destruct (merged_entities st !! id2) as [entity2|]; [|done].
  destruct (_ <=? _)%Z; intros [= <-]; simpl;
    eexists _, _; (split; [reflexivity|]); (split; [reflexivity|]);
    unfold merge_recorded; simpl; split_and!; try done; [by left|by right].
Qed.

Lemma merge_pairs_records (duplicates : list (string * string * Q)) :
  ∀ st st' : loop_state,
    merged_ids st = ∅ →
    merge_pairs now st duplicates = Ok st' →
    ∃ entries lineages,
      merge_log st' = (merge_log st ++ entries)%list
      ∧ entity_lineages (self st')
        = (entity_lineages (self st) ++ lineages)%list
      ∧ lineage_counter (self st')
        = (lineage_counter (self st) + length duplicates)%nat
      ∧ clock st' = (clock st + 5 * length duplicates)%nat
      ∧ Forall3 merge_recorded duplicates entries lineages
      ∧ Schema.lineage_id <$> lineages
        = (λ i, "lineage_" +:+ format_06d (lineage_counter (self st) + i))
            <$> seq 0 (length duplicates).
Proof.
  induction duplicates as [|dup rest IH]; intros st st' Hids.
  - intros [= <-]. exists [], []. rewrite !app_nil_r. simpl.
    split_and!; [done|done|lia|lia|constructor|done].
  - change (merge_pairs now st (dup :: rest))
      with (merge_pair now st dup ≫= λ st1, merge_pairs now st1 rest).
    destruct (merge_pair now st dup) as [st1|key] eqn:Hstep;
      unfold mbind, result_bind; [|done].
    intros Hrest.
    destruct (merge_pair_records st st1 dup Hids Hstep)
      as (entry & lineage & Hlog & Hlin & Hcnt & Hclk & Hids1 & Hrec & Hid).
    destruct (IH st1 st' Hids1 Hrest)
      as (entries & lineages & Hlog' & Hlin' & Hcnt' & Hclk' & Hall & Hids').
    exists (entry :: entries), (lineage :: lineages).
    rewrite Hlog', Hlin', Hcnt', Hclk', Hlog, Hlin, Hcnt, Hclk.
    rewrite <- !app_assoc. simpl length.
    split_and!; [done|done|lia|lia|by constructor|].
    change (seq 0 (S (length rest))) with (0%nat :: seq 1 (length rest)).
    rewrite !fmap_cons, Nat.add_0_r, Hid. f_equal.
    rewrite Hids', Hcnt, <- fmap_S_seq, <- list_fmap_compose.
    apply list_fmap_ext. intros i x _. simpl. do 2 f_equal. lia.
Qed.

(** An iteration leaves every entity other than the two of its pair as it
    was. *)
Lemma merge_pair_frame (st st' : loop_state) (id1 id2 k : string)
    (similarity : Q) :
  merge_pair now st (id1, id2, similarity) = Ok st' →
  k ≠ id1 → k ≠ id2 →
  merged_entities st' !! k = merged_entities st !! k.
Proof.
  unfold merge_pair. intros Hstep Hk1 Hk2.
  destruct (decide _); [by injection Hstep as <-|].
  destruct (merged_entities st !! id1) as [entity1|]; [|done].
  destruct (merged_entities st !! id2) as [entity2|]; [|done].
  destruct (_ <=? _)%Z; injection Hstep as <-; simpl;
    by rewrite !lookup_insert_ne.
Qed.

Lemma merge_pairs_frame (duplicates : list (string * string * Q)) (k : string) :
  ∀ st st' : loop_state,
    merge_pairs now st duplicates = Ok st' →
    Forall (λ dup, k ≠ dup.1.1 ∧ k ≠ dup.1.2) duplicates →
    merged_entities st' !! k = merged_entities st !! k.
Proof.
  induction duplicates as [|[[id1 id2] similarity] rest IH]; intros st st'.
  - by intros [= <-].
  - change (merge_pairs now st ((id1, id2, similarity) :: rest))
      with (merge_pair now st (id1, id2, similarity)
              ≫= λ st1, merge_pairs now st1 rest).
    destruct (merge_pair now st (id1, id2, similarity)) as [st1|key] eqn:Hstep;
      unfold mbind, result_bind; [|done].
    intros Hrest [[Hk1 Hk2] Hall]%Forall_cons.
    rewrite (IH st1 st' Hrest Hall).
    by eapply merge_pair_frame.
Qed.

(** Appending a record to the ledger: ids that already have a newer id
    keep it, the old id of the new record gets one. *)
Lemma find_newer_snoc (ledger : list Schema.EntityLineage)
    (record : Schema.EntityLineage) (x : string) :
  Schema.find_newer (ledger ++ [record]) x
  = match Schema.find_newer ledger x with
    | Some newer => Some newer
    | None =>
        if decide (Schema.old_entity_id record = x)
        then Some (Schema.new_entity_id record) else None
    end.
Proof.
  unfold Schema.find_newer. induction ledger as [|first ledger IH]; simpl.
  - destruct (decide (Schema.old_entity_id record = x)) as [Heq|Hne].
    + by rewrite bool_decide_eq_true_2.
    + by rewrite bool_decide_eq_false_2.
  - by destruct (bool_decide (Schema.old_entity_id first = x)).
Qed.

End MergeMore.

(** X4.  A completed merge pass leaves every entity that no candidate pair
    names exactly as it was in the input collection. *)
Theorem merge_pass_touches_only_named_entities (now : nat → string)
    (job : Merge.EntityMergeJobWithLineage) (clock0 : nat)
    (entities : gmap string Merge.entity)
    (duplicates : list (string * string * Q)) (st : Merge.loop_state)
    (k : string) :
  Merge._merge_duplicates_with_lineage now job clock0 entities duplicates
  = Ok st →
  Forall (λ dup, k ≠ dup.1.1 ∧ k ≠ dup.1.2) duplicates →
  Merge.merged_entities st !! k = entities !! k.
Proof.
  unfold Merge._merge_duplicates_with_lineage. intros Hrun Hall.
  by rewrite (merge_pairs_frame now duplicates k _ st Hrun Hall).
Qed.

Lemma merge_pass_touches_only_named_entities_witness :
  ∃ st,
    Merge._merge_duplicates_with_lineage Samples.iso_clock Samples.fresh_job 0
      Samples.registry [("A", "B", 92 # 100)] = Ok st
    ∧ Merge.merged_entities st !! "C" = Samples.registry !! "C".
Proof.
  eexists. split; [vm_compute; reflexivity|].
  apply (merge_pass_touches_only_named_entities Samples.iso_clock
           Samples.fresh_job 0 Samples.registry [("A", "B", 92 # 100)]).
  - vm_compute. reflexivity.
  - repeat constructor; discriminate.
Defined.

(** X5.  Choice of the primary: of the two entities of an applied pair the
    one with more transactions is the primary; when the counts are equal
    (an absent count is 0) the first id of the pair is. *)
Theorem merge_pair_primary_choice (now : nat → string)
    (st : Merge.loop_state) (id1 id2 : string) (similarity : Q)
    (entity1 entity2 : Merge.entity) :
  id1 ∉ Merge.merged_ids st → id2 ∉ Merge.merged_ids st →
  Merge.merged_entities st !! id1 = Some entity1 →
  Merge.merged_entities st !! id2 = Some entity2 →
  ∃ st' entry,
    Merge.merge_pair now st (id1, id2, similarity) = Ok st'
    ∧ Merge.merge_log st' = (Merge.merge_log st ++ [entry])%list
    ∧ ((default 0 (Merge.transaction_count entity2)
        ≤ default 0 (Merge.transaction_count entity1))%Z →
       Merge.log_primary entry = id1 ∧ Merge.log_secondary entry = id2)
    ∧ ((default 0 (Merge.transaction_count entity1)
        < default 0 (Merge.transaction_count entity2))%Z →
       Merge.log_primary entry = id2 ∧ Merge.log_secondary entry = id1).
Proof.
  intros Hn1 Hn2 H1 H2. unfold Merge.merge_pair.
  rewrite decide_False by tauto. rewrite H1, H2.
  destruct (_ <=? _)%Z eqn:Hle; simpl; eexists _, _;
    (split; [reflexivity|]); simpl; (split; [reflexivity|]).
  - apply Z.leb_le in Hle. split; [done|lia].
  - apply Z.leb_gt in Hle. split; [lia|done].
Qed.

Lemma merge_pair_primary_choice_witness :
  ∃ st' entry,
    Merge.merge_pair Samples.iso_clock Samples.fresh_state
      ("B", "A", 92 # 100) = Ok st'
    ∧ Merge.merge_log st' = [entry]
    ∧ Merge.log_primary entry = "A" ∧ Merge.log_secondary entry = "B".
Proof.
  destruct (merge_pair_primary_choice Samples.iso_clock Samples.fresh_state
              "B" "A" (92 # 100)
              (Samples.plain_entity "Beta" 3 90)
              (Samples.plain_entity "Alpha" 10 500))
    as (st' & entry & Hrun & Hlog & _ & Hless).
  - simpl. apply not_elem_of_empty.
  - simpl. apply not_elem_of_empty.
  - reflexivity.
  - reflexivity.
  - exists st', entry. split; [exact Hrun|]. split; [exact Hlog|].
    apply Hless. simpl. lia.
Defined.

(** X6.  A pair that names one id twice is applied like any other: the
    entity absorbs itself - its transaction count doubles and its own id is
    appended to [merged_from] - and is then marked superseded by itself. *)
Theorem merge_pair_same_id (now : nat → string) (st : Merge.loop_state)
    (id : string) (similarity : Q) (entity : Merge.entity) :
  id ∉ Merge.merged_ids st →
  Merge.merged_entities st !! id = Some entity →
  ∃ st' entity',
    Merge.merge_pair now st (id, id, similarity) = Ok st'
    ∧ Merge.merged_entities st' !! id = Some entity'
    ∧ Merge.transaction_count entity'
      = Some (2 * default 0 (Merge.transaction_count entity))%Z
    ∧ Merge.merged_from entity'
      = Some (default [] (Merge.merged_from entity) ++ [id])%list
    ∧ Merge.status entity' = Some "superseded"
    ∧ Merge.superseded_by entity' = Some id.
Proof.
  intros Hn H. unfold Merge.merge_pair.
  rewrite decide_False by tauto. rewrite H, Z.leb_refl. simpl.
  eexists _, _. split; [reflexivity|]. simpl.
  rewrite lookup_insert_eq. split; [reflexivity|]. simpl.
  rewrite lookup_insert_eq. simpl. split_and!; [f_equal; lia|done..].
Qed.

Lemma merge_pair_same_id_witness :
  ∃ st' entity',
    Merge.merge_pair Samples.iso_clock Samples.fresh_state ("B", "B", 1%Q)
    = Ok st'
    ∧ Merge.merged_entities st' !! "B" = Some entity'
    ∧ Merge.transaction_count entity'
      = Some (2 * default 0
                (Merge.transaction_count (Samples.plain_entity "Beta" 3 90)))%Z
    ∧ Merge.merged_from entity'
      = Some (default []
                (Merge.merged_from (Samples.plain_entity "Beta" 3 90))
              ++ ["B"])%list
    ∧ Merge.status entity' = Some "superseded"
    ∧ Merge.superseded_by entity' = Some "B".
Proof.
  apply (merge_pair_same_id Samples.iso_clock Samples.fresh_state "B" 1%Q
           (Samples.plain_entity "Beta" 3 90)).
  - simpl. apply not_elem_of_empty.
  - reflexivity.
Defined.

(** X7.  Aggregates of an applied merge of two distinct entities: the
    primary's aliases become the duplicate-free union of both alias lists
    and the secondary's canonical name (the empty string when it has
    none); its total amount becomes the Python sum of both amounts (an
    absent amount is the int 0), which is exact for two ints and a
    rounded binary64 addition otherwise; its [merged_from] gains the
    secondary's id and it keeps its canonical name; the secondary keeps
    its name, count and amount. *)
Theorem merge_pair_aggregates (now : nat → string) (st : Merge.loop_state)
    (id1 id2 : string) (similarity : Q) (entity1 entity2 : Merge.entity) :
  id1 ∉ Merge.merged_ids st → id2 ∉ Merge.merged_ids st →
  id1 ≠ id2 →
  Merge.merged_entities st !! id1 = Some entity1 →
  Merge.merged_entities st !! id2 = Some entity2 →
  ∃ st' entry primary secondary primary' secondary' names,
    Merge.merge_pair now st (id1, id2, similarity) = Ok st'
    ∧ Merge.merge_log st' = (Merge.merge_log st ++ [entry])%list
    ∧ Merge.merged_entities st !! Merge.log_primary entry = Some primary
    ∧ Merge.merged_entities st !! Merge.log_secondary entry = Some secondary
    ∧ Merge.merged_entities st' !! Merge.log_primary entry = Some primary'
    ∧ Merge.merged_entities st' !! Merge.log_secondary entry = Some secondary'
    ∧ Merge.aliases primary' = Some names
    ∧ NoDup names
    ∧ (∀ x, x ∈ names ↔
            x ∈ default [] (Merge.aliases primary)
            ∨ x ∈ default [] (Merge.aliases secondary)
            ∨ x = default "" (Merge.canonical_name secondary))
    ∧ Merge.total_amount_usd primary'
      = Some (py_add (default (Int 0) (Merge.total_amount_usd primary))
                     (default (Int 0) (Merge.total_amount_usd secondary)))
    ∧ Merge.merged_from primary'
      = Some (default [] (Merge.merged_from primary)
              ++ [Merge.log_secondary entry])%list
    ∧ Merge.canonical_name primary' = Merge.canonical_name primary
    ∧ Merge.canonical_name secondary' = Merge.canonical_name secondary
    ∧ Merge.transaction_count secondary' = Merge.transaction_count secondary
    ∧ Merge.total_amount_usd secondary' = Merge.total_amount_usd secondary.
Proof.
  intros Hn1 Hn2 Hne H1 H2. unfold Merge.merge_pair.
  rewrite decide_False by tauto. rewrite H1, H2.
  assert (∀ l : list string,
            NoDup (elements (list_to_set l : gset string))
            ∧ ∀ x, x ∈ elements (list_to_set l : gset string) ↔ x ∈ l)
    as Hset.
  { intros l. split; [apply NoDup_elements|]. intros x.
    by rewrite elem_of_elements, elem_of_list_to_set. }
  destruct (_ <=? _)%Z; simpl.
  - eexists _, _, entity1, entity2, _, _, _. split; [reflexivity|]. simpl.
    split_and!;
      [reflexivity|done|done
      |by rewrite lookup_insert_ne, lookup_insert_eq
      |apply lookup_insert_eq
      |reflexivity
      |apply Hset
      |
      |by simpl; rewrite ?lookup_insert_ne, ?H1, ?H2 by done..].
    intros x. rewrite (proj2 (Hset _) x), !elem_of_app, list_elem_of_singleton.
    tauto.
  - eexists _, _, entity2, entity1, _, _, _. split; [reflexivity|]. simpl.
    split_and!;
      [reflexivity|done|done
      |by rewrite lookup_insert_ne, lookup_insert_eq
      |apply lookup_insert_eq
      |reflexivity
      |apply Hset
      |
      |by simpl; rewrite ?lookup_insert_ne, ?H1, ?H2 by done..].
    intros x. rewrite (proj2 (Hset _) x), !elem_of_app, list_elem_of_singleton.
    tauto.
Qed.

Lemma merge_pair_aggregates_witness :
  ∃ st' primary' names,
    Merge.merge_pair Samples.iso_clock Samples.priced_state
      ("D", "E", 92 # 100) = Ok st'
    ∧ Merge.merged_entities st' !! "D" = Some primary'
    ∧ Merge.aliases primary' = Some names
    ∧ "Echo" ∈ names
    ∧ Merge.total_amount_usd primary'
      = Some (Float (S754_finite false 5404319552844596 (-54)))
    ∧ Merge.total_amount_usd primary' ≠ Some (Float (Float64.ratio 3 10)).
Proof.
  destruct (merge_pair_aggregates Samples.iso_clock Samples.priced_state
              "D" "E" (92 # 100)
              (Samples.priced_entity "Delta" 2 (Float (Float64.ratio 1 10)))
              (Samples.priced_entity "Echo" 1 (Float (Float64.ratio 2 10))))
    as (st' & entry & primary & secondary & primary' & secondary' & names
        & Hrun & Hlog & Hp & Hs & Hp' & Hs' & Hal & Hnd & Hnames & Hamt & _).
  - simpl. apply not_elem_of_empty.
  - simpl. apply not_elem_of_empty.
  - discriminate.
  - reflexivity.
  - reflexivity.
  - vm_compute in Hrun. injection Hrun as <-.
    simpl in Hlog. injection Hlog as <-.
    simpl in Hp, Hs, Hp'. vm_compute in Hp, Hs.
    injection Hp as <-. injection Hs as <-.
    eexists _, primary', names.
    split; [vm_compute; reflexivity|].
    split; [exact Hp'|]. split; [exact Hal|].
    split; [apply Hnames; right; right; reflexivity|].
    rewrite Hamt. split; [vm_compute; reflexivity|].
    vm_compute. discriminate.
Defined.

(** X8.  After a completed merge pass the merge log and the lineage ledger
    tell the same story: the pass appended exactly one log entry and one
    lineage record per candidate pair, in the order of the pairs, and the
    i-th entry and the i-th record name the same primary, secondary and
    lineage id, with operation "merge" and the pair's similarity as
    confidence; the lineage counter has advanced by the number of
    pairs. *)
Theorem merge_pass_log_matches_lineage (now : nat → string)
    (job : Merge.EntityMergeJobWithLineage) (clock0 : nat)
    (entities : gmap string Merge.entity)
    (duplicates : list (string * string * Q)) (st : Merge.loop_state) :
  Merge._merge_duplicates_with_lineage now job clock0 entities duplicates
  = Ok st →
  ∃ lineages,
    Merge.entity_lineages (Merge.self st)
    = (Merge.entity_lineages job ++ lineages)%list
    ∧ Forall3 Merge.merge_recorded duplicates (Merge.merge_log st) lineages
    ∧ Merge.lineage_counter (Merge.self st)
      = (Merge.lineage_counter job + length duplicates)%nat.
Proof.
  unfold Merge._merge_duplicates_with_lineage. intros Hrun.
  apply merge_pairs_records in Hrun
    as (entries & lineages & Hlog & Hlin & Hcnt & _ & Hall & _); [|done].
  simpl in *. exists lineages. rewrite Hlog. by split_and!.
Qed.

Lemma merge_pass_log_matches_lineage_witness :
  ∃ st lineages,
    Merge._merge_duplicates_with_lineage Samples.iso_clock Samples.fresh_job 0
      Samples.registry [("A", "B", 92 # 100); ("A", "C", 9 # 10)] = Ok st
    ∧ Merge.entity_lineages (Merge.self st)
      = (Merge.entity_lineages Samples.fresh_job ++ lineages)%list
    ∧ Forall3 Merge.merge_recorded
        [("A", "B", 92 # 100); ("A", "C", 9 # 10)]
        (Merge.merge_log st) lineages
    ∧ Merge.lineage_counter (Merge.self st) = 2%nat.
Proof.
  assert (∃ st,
    Merge._merge_duplicates_with_lineage Samples.iso_clock Samples.fresh_job 0
      Samples.registry [("A", "B", 92 # 100); ("A", "C", 9 # 10)] = Ok st)
    as [st Hrun] by (eexists; vm_compute; reflexivity).
  destruct (merge_pass_log_matches_lineage _ _ _ _ _ _ Hrun)
    as (lineages & Hlin & Hall & Hcnt).
  by exists st, lineages.
Defined.

(** X9.  The lineage ids a merge pass hands out are "lineage_" followed
    by the six-digit counter, counting up from the job's counter, and are
    pairwise distinct. *)
Theorem merge_pass_lineage_ids_distinct (now : nat → string)
    (job : Merge.EntityMergeJobWithLineage) (clock0 : nat)
    (entities : gmap string Merge.entity)
    (duplicates : list (string * string * Q)) (st : Merge.loop_state) :
  Merge._merge_duplicates_with_lineage now job clock0 entities duplicates
  = Ok st →
  Merge.log_lineage_id <$> Merge.merge_log st
  = (λ i, "lineage_" +:+ format_06d (Merge.lineage_counter job + i))
      <$> seq 0 (length duplicates)
  ∧ NoDup (Merge.log_lineage_id <$> Merge.merge_log st).
Proof.
  unfold Merge._merge_duplicates_with_lineage. intros Hrun.
  apply merge_pairs_records in Hrun
    as (entries & lineages & Hlog & Hlin & Hcnt & _ & Hall & Hids); [|done].
  simpl in *. rewrite Hlog.
  assert (Merge.log_lineage_id <$> entries = Schema.lineage_id <$> lineages)
    as ->.
  { clear -Hall. induction Hall as [|dup entry lineage ? ? ? Hrec]; [done|].
    rewrite !fmap_cons. f_equal; [|done].
    unfold Merge.merge_recorded in Hrec. by destruct_and!. }
  rewrite Hids. split; [done|].
  apply NoDup_fmap_2; [|apply NoDup_seq].
  intros i j Heq. apply (inj (String.app "lineage_")) in Heq.
  apply format_06d_inj in Heq. lia.
Qed.

Lemma merge_pass_lineage_ids_distinct_witness :
  ∃ st,
    Merge._merge_duplicates_with_lineage Samples.iso_clock Samples.fresh_job 0
      Samples.registry [("A", "B", 92 # 100); ("A", "C", 9 # 10)] = Ok st
    ∧ Merge.log_lineage_id <$> Merge.merge_log st
      = ["lineage_000000"; "lineage_000001"]
    ∧ NoDup (Merge.log_lineage_id <$> Merge.merge_log st).
Proof.
  assert (∃ st,
    Merge._merge_duplicates_with_lineage Samples.iso_clock Samples.fresh_job 0
      Samples.registry [("A", "B", 92 # 100); ("A", "C", 9 # 10)] = Ok st)
    as [st Hrun] by (eexists; vm_compute; reflexivity).
  destruct (merge_pass_lineage_ids_distinct _ _ _ _ _ _ Hrun) as [Hids Hnd].
  exists st. split; [exact Hrun|]. split; [|exact Hnd].
  rewrite Hids. reflexivity.
Defined.

(** X10.  Merge, then resolve: after an applied merge of two distinct
    entities neither of which had a newer id in the ledger so far, the
    ledger resolves the secondary to the primary and the primary to
    itself. *)
Theorem merge_pair_then_resolve (now : nat → string) (st : Merge.loop_state)
    (id1 id2 : string) (similarity : Q) (entity1 entity2 : Merge.entity) :
  id1 ∉ Merge.merged_ids st → id2 ∉ Merge.merged_ids st →
  id1 ≠ id2 →
  Merge.merged_entities st !! id1 = Some entity1 →
  Merge.merged_entities st !! id2 = Some entity2 →
  Schema.find_newer (Merge.entity_lineages (Merge.self st)) id1 = None →
  Schema.find_newer (Merge.entity_lineages (Merge.self st)) id2 = None →
  ∃ st' entry,
    Merge.merge_pair now st (id1, id2, similarity) = Ok st'
    ∧ Merge.merge_log st' = (Merge.merge_log st ++ [entry])%list
    ∧ Schema.resolve_current_entity_id
        (Merge.entity_lineages (Merge.self st')) (Merge.log_secondary entry)
      = Merge.log_primary entry
    ∧ Schema.resolve_current_entity_id
        (Merge.entity_lineages (Merge.self st')) (Merge.log_primary entry)
      = Merge.log_primary entry.
Proof.
  intros Hn1 Hn2 Hne H1 H2 Hnew1 Hnew2. unfold Merge.merge_pair.
  rewrite decide_False by tauto. rewrite H1, H2.
  destruct (_ <=? _)%Z; simpl; eexists _, _;
    (split; [reflexivity|]); simpl; (split; [reflexivity|]);
    cbn [Merge.log_secondary Merge.log_primary]; split.
  - apply (resolve_to_current _ [id2]).
    + eapply Schema.chain_cons; [|constructor].
      rewrite find_newer_snoc, Hnew2. simpl. by rewrite decide_True.
    + rewrite find_newer_snoc, Hnew1. simpl. by rewrite decide_False.
  - apply (resolve_to_current _ []); [constructor|].
    rewrite find_newer_snoc, Hnew1. simpl. by rewrite decide_False.
  - apply (resolve_to_current _ [id1]).
    + eapply Schema.chain_cons; [|constructor].
      rewrite find_newer_snoc, Hnew1. simpl. by rewrite decide_True.
    + rewrite find_newer_snoc, Hnew2. simpl. by rewrite decide_False.
  - apply (resolve_to_current _ []); [constructor|].
    rewrite find_newer_snoc, Hnew2. simpl. by rewrite decide_False.
Qed.

Lemma merge_pair_then_resolve_witness :
  ∃ st',
    Merge.merge_pair Samples.iso_clock Samples.fresh_state
      ("A", "B", 92 # 100) = Ok st'
    ∧ Schema.resolve_current_entity_id
        (Merge.entity_lineages (Merge.self st')) "B" = "A"
    ∧ Schema.resolve_current_entity_id
        (Merge.entity_lineages (Merge.self st')) "A" = "A".
Proof.
  destruct (merge_pair_then_resolve Samples.iso_clock Samples.fresh_state
              "A" "B" (92 # 100)
              (Samples.plain_entity "Alpha" 10 500)
              (Samples.plain_entity "Beta" 3 90))
    as (st' & entry & Hrun & Hlog & Hsec & Hpri).
  - simpl. apply not_elem_of_empty.
  - simpl. apply not_elem_of_empty.
  - discriminate.
  - reflexivity.
  - reflexivity.
  - reflexivity.
  - reflexivity.
  - exists st'. split; [exact Hrun|].
    vm_compute in Hrun. injection Hrun as <-.
    simpl in Hlog. injection Hlog as <-.
    split; [exact Hsec|exact Hpri].
Defined.

(** * Live totals *)

Section LiveTotals.

Import Merge.

Variable now : nat → string.





End LiveTotals.



(** An applied pair of distinct ids whose first entity has at least as many
    transactions as the second. *)
Lemma merge_pair_first_primary (now : nat → string) (st : Merge.loop_state)
    (id1 id2 : string) (similarity : Q) (entity1 entity2 : Merge.entity) :
  Merge.merged_ids st = ∅ → id1 ≠ id2 →
  Merge.merged_entities st !! id1 = Some entity1 →
  Merge.merged_entities st !! id2 = Some entity2 →
  (default 0 (Merge.transaction_count entity2)
   ≤ default 0 (Merge.transaction_count entity1))%Z →
  ∃ st' lineage primary' secondary',
    Merge.merge_pair now st (id1, id2, similarity) = Ok st'
    ∧ Merge.merged_ids st' = ∅
    ∧ Merge.entity_lineages (Merge.self st')
      = (Merge.entity_lineages (Merge.self st) ++ [lineage])%list
    ∧ Schema.old_entity_id lineage = id2
    ∧ Schema.new_entity_id lineage = id1
    ∧ Merge.merged_entities st' !! id1 = Some primary'
    ∧ Merge.merged_entities st' !! id2 = Some secondary'
    ∧ Merge.transaction_count primary'
      = Some (default 0 (Merge.transaction_count entity1)
              + default 0 (Merge.transaction_count entity2))%Z
    ∧ Merge.superseded_by primary' = Merge.superseded_by entity1
    ∧ Merge.transaction_count secondary' = Merge.transaction_count entity2
    ∧ Merge.superseded_by secondary' = Some id1.
Proof.
  intros Hids Hne H1 H2 Hle. unfold Merge.merge_pair.
  rewrite decide_False by (rewrite Hids; set_solver). rewrite H1, H2.
  rewrite (proj2 (Z.leb_le _ _) Hle). simpl.
  eexists _, _, _, _. split; [reflexivity|]. simpl.
  split_and!;
    [done|reflexivity|done|done
    |by rewrite lookup_insert_ne, lookup_insert_eq
    |apply lookup_insert_eq
    |done|done
    |by simpl; rewrite lookup_insert_ne, H2
    |done].
Qed.

(** X12.  The pass can close a cycle in the ledger: for two distinct
    entities without transactions, the pairs (a, b) and (b, a) in one run
    are both applied, the first with [a] and the second with [b] as
    primary, so the ledger gains the records [b -> a] and [a -> b] and
    both entities end up superseded, each by the other. *)
Theorem merge_pass_can_close_cycle (now : nat → string)
    (job : Merge.EntityMergeJobWithLineage) (clock0 : nat)
    (entities : gmap string Merge.entity) (a b : string)
    (similarity similarity' : Q) (entity_a entity_b : Merge.entity) :
  a ≠ b →
  entities !! a = Some entity_a →
  entities !! b = Some entity_b →
  default 0%Z (Merge.transaction_count entity_a) = 0%Z →
  default 0%Z (Merge.transaction_count entity_b) = 0%Z →
  ∃ st first second entity_a' entity_b',
    Merge._merge_duplicates_with_lineage now job clock0 entities
      [(a, b, similarity); (b, a, similarity')] = Ok st
    ∧ Merge.entity_lineages (Merge.self st)
      = (Merge.entity_lineages job ++ [first; second])%list
    ∧ Schema.old_entity_id first = b ∧ Schema.new_entity_id first = a
    ∧ Schema.old_entity_id second = a ∧ Schema.new_entity_id second = b
    ∧ Merge.merged_entities st !! a = Some entity_a'
    ∧ Merge.merged_entities st !! b = Some entity_b'
    ∧ Merge.superseded_by entity_a' = Some b
    ∧ Merge.superseded_by entity_b' = Some a.
Proof.
  intros Hne Ha Hb Hza Hzb.
  destruct (merge_pair_first_primary now
              {| Merge.merged_entities := entities; Merge.merge_log := [];
                 Merge.merged_ids := ∅; Merge.self := job;
                 Merge.clock := clock0 |}
              a b similarity entity_a entity_b)
    as (st1 & first & pa & sb & Hstep1 & Hids1 & Hlin1 & Hold1 & Hnew1
        & Hpa & Hsb & Htca & _ & Htcb & Hsupb);
    [done|done|done|done|lia|].
  destruct (merge_pair_first_primary now st1 b a similarity' sb pa)
    as (st2 & second & pb & sa & Hstep2 & Hids2 & Hlin2 & Hold2 & Hnew2
        & Hpb & Hsa & _ & Hsupb' & _ & Hsupa);
    [done|done|done|done|rewrite Htca, Htcb; simpl; lia|].
  exists st2, first, second, sa, pb.
  unfold Merge._merge_duplicates_with_lineage.
  change (Merge.merge_pairs now ?st0 [(a, b, similarity); (b, a, similarity')])
    with (Merge.merge_pair now st0 (a, b, similarity)
            ≫= λ st1, Merge.merge_pair now st1 (b, a, similarity')
            ≫= λ st2, Ok st2).
  rewrite Hstep1. unfold mbind at 1, result_bind at 1.
  rewrite Hstep2. unfold mbind, result_bind.
  simpl in Hlin1. rewrite Hlin2, Hlin1, <- app_assoc.
  split_and!; [done..|congruence].
Qed.

Lemma merge_pass_can_close_cycle_witness :
  ∃ st first second entity_a' entity_b',
    Merge._merge_duplicates_with_lineage Samples.iso_clock Samples.fresh_job 0
      Samples.idle_registry [("P", "Q", 1%Q); ("Q", "P", 1%Q)] = Ok st
    ∧ Merge.entity_lineages (Merge.self st)
      = (Merge.entity_lineages Samples.fresh_job ++ [first; second])%list
    ∧ Schema.old_entity_id first = "Q" ∧ Schema.new_entity_id first = "P"
    ∧ Schema.old_entity_id second = "P" ∧ Schema.new_entity_id second = "Q"
    ∧ Merge.merged_entities st !! "P" = Some entity_a'
    ∧ Merge.merged_entities st !! "Q" = Some entity_b'
    ∧ Merge.superseded_by entity_a' = Some "Q"
    ∧ Merge.superseded_by entity_b' = Some "P".
Proof.
  apply (merge_pass_can_close_cycle Samples.iso_clock Samples.fresh_job 0
           Samples.idle_registry "P" "Q" 1%Q 1%Q
           (Samples.plain_entity "Papa" 0 0)
           (Samples.plain_entity "Quebec" 0 0)).
  - discriminate.
  - reflexivity.
  - reflexivity.
  - reflexivity.
  - reflexivity.
Defined.

(** * More on the decision builder *)

Section BuilderMore.

Import Reconcile.

Variable canonical : canonical_record.

(** When the field loop raises and when it does not. *)
Lemma record_fields_result (field_names : list string) :
  ∀ acc : list (string * Schema.field_strategy) * list string,
    match record_fields canonical acc field_names with
    | Ok _ =>
        is_Some (id canonical)
        ∨ List.filter (is_reconciled canonical) field_names = []
    | KeyError key =>
        key = "id" ∧ id canonical = None
        ∧ ∃ k, k ∈ field_names ∧ is_reconciled canonical k = true
    end.
Proof.
  induction field_names as [|name rest IH]; intros acc.
  - by right.
  - change (record_fields canonical acc (name :: rest))
      with (record_field canonical acc name
              ≫= (λ acc1, record_fields canonical acc1 rest)).
    simpl List.filter. unfold record_field, is_reconciled at 1 3.
    destruct (canonical_get canonical name) as [[text|field_data]|] eqn:Hget;
      unfold mbind, result_bind.
    1,3: specialize (IH acc);
      destruct (record_fields canonical acc rest); [done|];
      destruct IH as (-> & Hid & k & Hin & Hk);
      split_and!; [done..|]; exists k; split; [by right|done].
    destruct (id canonical) as [canonical_id|] eqn:Hid.
    + destruct (record_fields canonical _ rest) eqn:Hrest;
        [left; by eexists|].
      specialize (IH (dict_set name (strategy_entry field_data) acc.1,
                      (acc.2 ++ ["attr_" +:+ canonical_id +:+ "_" +:+ name])%list)).
      rewrite Hrest in IH. by destruct IH as (_ & [=] & _).
    + split_and!; [done..|]. exists name. split; [by left|].
      unfold is_reconciled. by rewrite Hget.
Qed.

(** The statement ids are those of the dict-valued schema fields, in
    schema order; so are the keys when no key was there before. *)
Lemma record_fields_order (canonical_id : string) (field_names : list string) :
  id canonical = Some canonical_id →
  ∀ acc acc' : list (string * Schema.field_strategy) * list string,
    record_fields canonical acc field_names = Ok acc' →
    acc'.2
    = (acc.2 ++ ((λ k, "attr_" +:+ canonical_id +:+ "_" +:+ k)
                   <$> List.filter (is_reconciled canonical) field_names))%list
    ∧ (NoDup (acc.1.*1 ++ field_names) →
       acc'.1.*1
       = (acc.1.*1 ++ List.filter (is_reconciled canonical) field_names)%list).
Proof.
  intros Hid. induction field_names as [|name rest IH]; intros acc acc'.
  - intros [= <-]. simpl. by rewrite !app_nil_r.
  - change (record_fields canonical acc (name :: rest))
      with (record_field canonical acc name
              ≫= (λ acc1, record_fields canonical acc1 rest)).
    destruct (record_field canonical acc name) as [acc1|key] eqn:Hstep;
      unfold mbind, result_bind; [|done].
    apply record_field_cases in Hstep. intros Hrest.
    simpl List.filter.
    destruct (canonical_get canonical name) as [[text|field_data]|] eqn:Hget.
    1,3: assert (is_reconciled canonical name = false) as ->
        by (unfold is_reconciled; by rewrite Hget);
      subst acc1; destruct (IH acc acc' Hrest) as [Hids Hkeys];
      split; [done|]; intros Hnd; apply Hkeys;
      apply NoDup_app in Hnd as (Hnd1 & Hdisj & Hnd2);
      apply NoDup_cons in Hnd2 as [_ Hnd2];
      apply NoDup_app; split_and!; [done| |done];
      intros x Hx Hx'; apply (Hdisj x Hx); by right.
    assert (is_reconciled canonical name = true) as ->
      by (unfold is_reconciled; by rewrite Hget).
    destruct Hstep as (cid & Hcid & ->).
    assert (cid = canonical_id) as -> by congruence.
    destruct (IH _ acc' Hrest) as [Hids Hkeys]. simpl in *.
    split.
    + rewrite Hids, <- app_assoc. done.
    + intros Hnd.
      apply NoDup_app in Hnd as (Hnd1 & Hdisj & Hnd2).
      apply NoDup_cons in Hnd2 as [Hname Hnd2].
      assert (name ∉ acc.1.*1) as Hfresh.
      { intros Hin. apply (Hdisj name Hin). by left. }
      assert ((dict_set name (strategy_entry field_data) acc.1).*1
              = (acc.1.*1 ++ [name])%list) as Hset.
      { rewrite dict_set_keys. by rewrite bool_decide_eq_false_2. }
      rewrite Hkeys, Hset, <- app_assoc; [done|].
      rewrite Hset. apply NoDup_app. split_and!; [|  |done].
      * apply NoDup_app. split_and!; [done| |apply NoDup_singleton].
        by intros x Hx ->%list_elem_of_singleton.
      * intros x [Hx| ->%list_elem_of_singleton]%elem_of_app Hx'; [|done].
        apply (Hdisj x Hx). by right.
Qed.

End BuilderMore.

(** X13.  The builder raises [KeyError] - and only for the key "id" -
    exactly when the canonical record has no 'id' while some schema field
    is dict-valued on it; a record without 'id' whose schema fields are all
    scalars or absent still gets its decision. *)
Theorem decision_builder_needs_id_for_dict_fields (now : nat → string)
    (FIELD_SCHEMA : list string) (clock0 : nat)
    (observations : list Reconcile.observation)
    (canonical : Reconcile.canonical_record) (decision_counter : nat) :
  match
    Reconcile.create_reconciliation_decision now FIELD_SCHEMA clock0
      observations canonical decision_counter
  with
  | Ok _ =>
      is_Some (Reconcile.id canonical)
      ∨ List.filter (Reconcile.is_reconciled canonical) FIELD_SCHEMA = []
  | KeyError key =>
      key = "id" ∧ Reconcile.id canonical = None
      ∧ ∃ k, k ∈ FIELD_SCHEMA ∧ Reconcile.is_reconciled canonical k = true
  end.
Proof.
  unfold Reconcile.create_reconciliation_decision.
  pose proof (record_fields_result canonical FIELD_SCHEMA ([], [])) as H.
  destruct (Reconcile.record_fields _ _ _) as [[strategies ids]|key];
    unfold mbind, result_bind; done.
Qed.

(** X14.  The decision lists the statement ids [attr_<id>_<field>] of the
    dict-valued schema fields in schema order, and, the schema keys being
    distinct, its field strategies have exactly those fields as keys, in
    the same order. *)
Theorem decision_fields_in_schema_order (now : nat → string)
    (FIELD_SCHEMA : list string) (clock0 : nat)
    (observations : list Reconcile.observation)
    (canonical : Reconcile.canonical_record) (decision_counter : nat)
    (decision : Schema.ReconciliationDecision) (canonical_id : string) :
  Reconcile.create_reconciliation_decision now FIELD_SCHEMA clock0
    observations canonical decision_counter = Ok decision →
  Reconcile.id canonical = Some canonical_id →
  NoDup FIELD_SCHEMA →
  Schema.created_statement_ids decision
  = (λ k, "attr_" +:+ canonical_id +:+ "_" +:+ k)
      <$> List.filter (Reconcile.is_reconciled canonical) FIELD_SCHEMA
  ∧ (Schema.field_strategies decision).*1
    = List.filter (Reconcile.is_reconciled canonical) FIELD_SCHEMA.
Proof.
  unfold Reconcile.create_reconciliation_decision.
  destruct (Reconcile.record_fields _ _ _) as [[strategies ids]|key] eqn:Hrun;
    unfold mbind, result_bind; [|done].
  intros [= <-] Hid Hnd. simpl.
  destruct (record_fields_order canonical canonical_id FIELD_SCHEMA Hid
              ([], []) (strategies, ids) Hrun) as [Hids Hkeys].
  simpl in *. split; [done|]. by apply Hkeys.
Qed.

Lemma decision_fields_in_schema_order_witness :
  ∃ decision,
    Reconcile.create_reconciliation_decision Samples.iso_clock
      Samples.field_schema 0 [Samples.obs1] Samples.mixed_record 0
    = Ok decision
    ∧ Schema.created_statement_ids decision
      = ["attr_tx2_amount"; "attr_tx2_description"]
    ∧ (Schema.field_strategies decision).*1 = ["amount"; "description"].
Proof.
  assert (∃ decision,
    Reconcile.create_reconciliation_decision Samples.iso_clock
      Samples.field_schema 0 [Samples.obs1] Samples.mixed_record 0
    = Ok decision) as [decision Hrun] by (eexists; vm_compute; reflexivity).
  destruct (decision_fields_in_schema_order _ _ _ _ _ _ decision "tx2" Hrun)
    as [Hids Hkeys].
  - reflexivity.
  - unfold Samples.field_schema. repeat constructor; set_solver.
  - exists decision. split; [exact Hrun|].
    rewrite Hids, Hkeys. split; vm_compute; reflexivity.
Defined.

(** X16.  Cluster metadata of a decision: [observation_count] is the
    number of observations, [observation_ids] has one entry per
    observation, in order - its [observation_id], or its [id] when that is
    missing or empty - and [data_sources] lists each source once: an
    observation's [data_source], or else its observer up to the first
    "_v", or else "unknown". *)
Theorem decision_cluster_metadata (now : nat → string)
    (FIELD_SCHEMA : list string) (clock0 : nat)
    (observations : list Reconcile.observation)
    (canonical : Reconcile.canonical_record) (decision_counter : nat)
    (decision : Schema.ReconciliationDecision) :
  Reconcile.create_reconciliation_decision now FIELD_SCHEMA clock0
    observations canonical decision_counter = Ok decision →
  Schema.observation_count (Schema.cluster_metadata decision)
  = length observations
  ∧ length (Schema.observation_ids decision) = length observations
  ∧ (∀ i obs, observations !! i = Some obs →
       Schema.observation_ids decision !! i
       = Some (match Reconcile.observation_id obs with
               | Some s => if decide (s = "") then Reconcile.obs_id obs
                           else Some s
               | None => Reconcile.obs_id obs
               end))
  ∧ NoDup (Schema.data_sources (Schema.cluster_metadata decision))
  ∧ ∀ source,
      source ∈ Schema.data_sources (Schema.cluster_metadata decision)
      ↔ ∃ obs, obs ∈ observations ∧ Reconcile.source_of obs = source.
Proof.
  unfold Reconcile.create_reconciliation_decision.
  destruct (Reconcile.record_fields _ _ _) as [[strategies ids]|key];
    unfold mbind, result_bind; [|done].
  intros [= <-]. simpl. split_and!.
  - done.
  - by rewrite length_fmap.
  - intros i obs Hi. rewrite list_lookup_fmap, Hi. simpl.
    unfold Reconcile.py_or. by destruct (Reconcile.observation_id obs).
  - apply NoDup_elements.
  - intros source. rewrite elem_of_elements, elem_of_list_to_set.
    rewrite list_elem_of_fmap. split; intros (obs & ? & ?); by exists obs.
Qed.

Lemma decision_cluster_metadata_witness :
  ∃ decision,
    Reconcile.create_reconciliation_decision Samples.iso_clock
      Samples.field_schema 0 [Samples.obs1; Samples.obs1]
      Samples.scalar_record 0 = Ok decision
    ∧ Schema.observation_ids decision = [Some "obs1"; Some "obs1"]
    ∧ Schema.data_sources (Schema.cluster_metadata decision)
      = ["bofa_parser"]
    ∧ NoDup (Schema.data_sources (Schema.cluster_metadata decision)).
Proof.
  assert (∃ decision,
    Reconcile.create_reconciliation_decision Samples.iso_clock
      Samples.field_schema 0 [Samples.obs1; Samples.obs1]
      Samples.scalar_record 0 = Ok decision) as [decision Hrun]
    by (eexists; vm_compute; reflexivity).
  destruct (decision_cluster_metadata _ _ _ _ _ _ decision Hrun)
    as (_ & _ & _ & Hnd & _).
  exists decision. split; [exact Hrun|].
  vm_compute in Hrun. injection Hrun as <-.
  split; [reflexivity|]. split; [reflexivity|exact Hnd].
Defined.

(** * The store *)

(** X17.  One registry for the three kinds of node: a node added under an
    id replaces whatever node, of whatever kind, was stored under that id -
    an event added under the id of an entity takes its place and the
    number of nodes stays the same - and every other id keeps its node. *)
Theorem add_event_replaces_node (schema : Store.StorageSchema)
    (entity : Store.EntityNode) (event : Store.EventNode) :
  Store.event_id event = Store.entity_id entity →
  Store.get_node (Store.add_event (Store.add_entity schema entity) event)
    (Store.entity_id entity) = Some (Store.Event event)
  ∧ size (Store.nodes (Store.add_event (Store.add_entity schema entity) event))
    = size (Store.nodes (Store.add_entity schema entity))
  ∧ ∀ k, k ≠ Store.entity_id entity →
      Store.get_node (Store.add_event (Store.add_entity schema entity) event) k
      = Store.get_node schema k.
Proof.
  intros Heq. unfold Store.get_node, Store.add_event, Store.add_entity. simpl.
  rewrite Heq. split_and!.
  - apply lookup_insert_eq.
  - rewrite <- !size_dom, !dom_insert_L. f_equal. set_solver.
  - intros k Hk. by rewrite !lookup_insert_ne.
Qed.

Lemma add_event_replaces_node_witness :
  Store.get_node
    (Store.add_event
       (Store.add_entity Store.empty_schema Samples.merchant_node)
       Samples.payment_node) "n1"
  = Some (Store.Event Samples.payment_node)
  ∧ size (Store.nodes
            (Store.add_event
               (Store.add_entity Store.empty_schema Samples.merchant_node)
               Samples.payment_node))
    = 1%nat.
Proof.
  destruct (add_event_replaces_node Store.empty_schema Samples.merchant_node
              Samples.payment_node eq_refl) as (Hnode & Hsize & _).
  split; [exact Hnode|]. rewrite Hsize. vm_compute. reflexivity.
Defined.

Lemma get_attributes_snoc (schema : Store.StorageSchema)
    (fact : Store.AttributeFact) (subject : string)
    (predicate_arg : option string) :
  Store.get_attributes (Store.add_attribute_fact schema fact)
    subject predicate_arg
  = (Store.get_attributes schema subject predicate_arg
     ++ if decide (Store.subject_id fact = subject
                   ∧ (predicate_arg = None ∨ predicate_arg = Some ""
                      ∨ predicate_arg = Some (Store.predicate fact)))
        then [fact] else [])%list.
Proof.
  unfold Store.get_attributes, Store.add_attribute_fact. simpl.
  rewrite List.filter_app. simpl.
  destruct (decide (Store.subject_id fact = subject)) as [Hs|Hs].
  2: { rewrite bool_decide_eq_false_2 by done.
       rewrite decide_False by tauto. rewrite !app_nil_r.
       by destruct (Store.given predicate_arg). }
  rewrite bool_decide_eq_true_2 by done.
  destruct predicate_arg as [p|]; simpl.
  - destruct (decide (p = "")) as [->|Hp].
    + by rewrite decide_True by tauto.
    + rewrite List.filter_app. simpl.
      destruct (decide (Store.predicate fact = p)) as [<-|Hne].
      * rewrite bool_decide_eq_true_2 by done.
        by rewrite decide_True by tauto.
      * rewrite bool_decide_eq_false_2 by done.
        rewrite decide_False; [done|].
        intros [_ [?|[?|?]]]; congruence.
  - by rewrite decide_True by tauto.
Qed.

(** X18.  [get_attributes] after [add_attribute_fact]: the new fact comes
    last among the facts of its subject, and is returned exactly when the
    subject matches and the predicate asked for is the fact's, is missing,
    or is the empty string, which filters nothing. *)
Theorem get_attributes_after_add (schema : Store.StorageSchema)
    (fact : Store.AttributeFact) (subject : string)
    (predicate_arg : option string) :
  Store.get_attributes (Store.add_attribute_fact schema fact)
    subject predicate_arg
  = (Store.get_attributes schema subject predicate_arg
     ++ if decide (Store.subject_id fact = subject
                   ∧ (predicate_arg = None ∨ predicate_arg = Some ""
                      ∨ predicate_arg = Some (Store.predicate fact)))
        then [fact] else [])%list.
Proof. apply get_attributes_snoc. Qed.

(** X19.  [get_reconciliation_decision] returns the first decision of the
    log with the id asked for: a decision added under an id already in the
    log is shadowed by the earlier one, and whatever is returned carries
    the id asked for. *)
Theorem get_reconciliation_decision_after_add (schema : Store.StorageSchema)
    (decision : Schema.ReconciliationDecision) (decision_id : string) :
  Store.get_reconciliation_decision
    (Store.add_reconciliation_decision schema decision) decision_id
  = match Store.get_reconciliation_decision schema decision_id with
    | Some earlier => Some earlier
    | None =>
        if decide (Schema.decision_id decision = decision_id)
        then Some decision else None
    end
  ∧ ∀ found,
      Store.get_reconciliation_decision schema decision_id = Some found →
      Schema.decision_id found = decision_id.
Proof.
  unfold Store.get_reconciliation_decision, Store.add_reconciliation_decision.
  simpl. split.
  - induction (Store.reconciliation_decisions schema) as [|d log IH]; simpl.
    + destruct (decide (Schema.decision_id decision = decision_id)).
      * by rewrite bool_decide_eq_true_2.
      * by rewrite bool_decide_eq_false_2.
    + by destruct (bool_decide (Schema.decision_id d = decision_id)).
  - intros found [_ Hid]%find_some. by apply bool_decide_eq_true in Hid.
Qed.

Lemma get_reconciliation_decision_after_add_witness :
  Store.get_reconciliation_decision
    (Store.add_reconciliation_decision
       (Store.add_reconciliation_decision Store.empty_schema
          (Samples.bare_decision "recon_decision_000000" (Int 1)))
       (Samples.bare_decision "recon_decision_000000"
          (Float (Float64.ratio 1 2))))
    "recon_decision_000000"
  = Some (Samples.bare_decision "recon_decision_000000" (Int 1))
  ∧ Schema.decision_id (Samples.bare_decision "recon_decision_000000" (Int 1))
    = "recon_decision_000000".
Proof.
  destruct (get_reconciliation_decision_after_add
              (Store.add_reconciliation_decision Store.empty_schema
                 (Samples.bare_decision "recon_decision_000000" (Int 1)))
              (Samples.bare_decision "recon_decision_000000"
                 (Float (Float64.ratio 1 2)))
              "recon_decision_000000") as [Hget Hid].
  split; [rewrite Hget; reflexivity|]. apply Hid. reflexivity.
Defined.

(** * The migration *)

Section MigrationFacts.

Import Migration.

Variable now : nat → string.
Variable iso : nat → string.

Lemma appends_facts_nil (st : migration_state) : appends_facts [] st st.
Proof. unfold appends_facts. simpl. split_and!; [done|done|lia]. Qed.

Lemma appends_facts_trans (new1 new2 : list Store.AttributeFact)
    (st1 st2 st3 : migration_state) :
  appends_facts new1 st1 st2 → appends_facts new2 st2 st3 →
  appends_facts (new1 ++ new2) st1 st3.
Proof.
  unfold appends_facts. intros (Hs1 & Hr1 & Hc1) (Hs2 & Hr2 & Hc2).
  rewrite fold_left_app, <- Hs1, Hs2, Hr2, Hr1, Hc2, Hc1, length_app.
  split_and!; [done|done|lia].
Qed.

Lemma appends_facts_schema (new : list Store.AttributeFact)
    (schema0 : Store.StorageSchema) :
  Store.nodes (fold_left Store.add_attribute_fact new schema0)
  = Store.nodes schema0
  ∧ Store.relationship_facts (fold_left Store.add_attribute_fact new schema0)
    = Store.relationship_facts schema0
  ∧ Store.attribute_facts (fold_left Store.add_attribute_fact new schema0)
    = (Store.attribute_facts schema0 ++ new)%list.
Proof.
  revert schema0. induction new as [|fact new IH]; intros schema0; simpl.
  - by rewrite app_nil_r.
  - destruct (IH (Store.add_attribute_fact schema0 fact)) as (-> & -> & ->).
    simpl. by rewrite <- app_assoc.
Qed.

(** The statement id, subject and qualifiers of a fact made by the
    migration for [subject]. *)
Lemma add_attribute_appends (subject predicate : string)
    (object : Store.fact_object) (temporal : Store.TemporalQualifiers)
    (provenance : Store.Provenance) (st : migration_state) :
  ∃ fact,
    appends_facts [fact] st
      (add_attribute now subject predicate object temporal provenance st)
    ∧ Store.statement_id fact
      = (Migrate.generate_statement_id now (clock st) "attr" subject
           predicate).1
    ∧ Store.subject_id fact = subject
    ∧ Store.predicate fact = predicate
    ∧ Store.object fact = object
    ∧ Store.temporal fact = temporal
    ∧ Store.provenance fact = provenance
    ∧ Store.reconciliation_decision_id fact = None
    ∧ Store.rejected_alternatives fact = [].
Proof.
  eexists. unfold add_attribute, appends_facts. simpl.
  split_and!; [reflexivity|done|lia|done..].
Qed.

Lemma add_attribute_if_appends {A : Type} (present : option A)
    (subject predicate : string) (object : A → Store.fact_object)
    (temporal : Store.TemporalQualifiers) (provenance : Store.Provenance)
    (st : migration_state) :
  ∃ new,
    appends_facts new st
      (add_attribute_if now present subject predicate object temporal
         provenance st)
    ∧ match present with
      | Some v =>
          ∃ fact,
            new = [fact]
            ∧ Store.statement_id fact
              = (Migrate.generate_statement_id now (clock st) "attr" subject
                   predicate).1
            ∧ Store.subject_id fact = subject
            ∧ Store.predicate fact = predicate
            ∧ Store.object fact = object v
            ∧ Store.temporal fact = temporal
            ∧ Store.provenance fact = provenance
            ∧ Store.reconciliation_decision_id fact = None
            ∧ Store.rejected_alternatives fact = []
      | None => new = []
      end.
Proof.
  destruct present as [v|]; simpl.
  - destruct (add_attribute_appends subject predicate (object v) temporal
                provenance st) as (fact & Happ & H).
    exists [fact]. split; [done|]. by exists fact.
  - exists []. split; [apply appends_facts_nil|done].
Qed.

Lemma migrated_fact_intro (subject predicate : string) (reading : nat)
    (temporal : Store.TemporalQualifiers) (provenance : Store.Provenance)
    (fact : Store.AttributeFact) :
  Store.statement_id fact
  = (Migrate.generate_statement_id now reading "attr" subject predicate).1 →
  Store.subject_id fact = subject →
  Store.predicate fact = predicate →
  Store.temporal fact = temporal →
  Store.provenance fact = provenance →
  Store.reconciliation_decision_id fact = None →
  Store.rejected_alternatives fact = [] →
  migrated_fact now subject temporal provenance fact.
Proof.
  intros Hid Hs Hp Ht Hv Hd Hr. unfold migrated_fact.
  split_and!; [done..|]. exists reading. by rewrite Hp.
Qed.

(** The five blocks of step 2, for an amount that [float()] has accepted:
    one fact per key that is there, all about the event; the fact for the
    amount, if any, is the only one with that predicate. *)
Lemma scalar_facts_chain (value : option spec_float) (tx : transaction)
    (event_id : string) (temporal : Store.TemporalQualifiers)
    (provenance : Store.Provenance) (st0 : migration_state) :
  ∃ new,
    appends_facts new st0
      (add_attribute_if now (category tx) event_id "category"
         (text_object "string") temporal provenance
         (add_attribute_if now (currency tx) event_id "currency"
            (text_object "string") temporal provenance
            (add_attribute_if now (date tx) event_id "date"
               (text_object "date") temporal provenance
               (add_attribute_if now (description tx) event_id "description"
                  (text_object "string") temporal provenance
                  (add_attribute_if now value event_id "amount"
                     (λ a, {| Store.value := Store.Number a;
                              Store.value_type := "number";
                              Store.unit :=
                                Some (default "USD" (currency tx)) |})
                     temporal provenance st0)))))
    ∧ length new
      = ((if value is Some _ then 1 else 0)
         + (if description tx is Some _ then 1 else 0)
         + (if date tx is Some _ then 1 else 0)
         + (if currency tx is Some _ then 1 else 0)
         + (if category tx is Some _ then 1 else 0))%nat
    ∧ Forall (migrated_fact now event_id temporal provenance) new
    ∧ match value with
      | Some a =>
          ∃ fact,
            List.filter
              (λ f, bool_decide (Store.predicate f = "amount")) new
            = [fact]
            ∧ Store.object fact
              = {| Store.value := Store.Number a;
                   Store.value_type := "number";
                   Store.unit := Some (default "USD" (currency tx)) |}
      | None =>
          List.filter (λ f, bool_decide (Store.predicate f = "amount")) new
          = []
      end.
Proof.
  set (obj := λ a : spec_float,
                {| Store.value := Store.Number a;
                   Store.value_type := "number";
                   Store.unit := Some (default "USD" (currency tx)) |}).
  destruct (add_attribute_if_appends value event_id "amount" obj
              temporal provenance st0) as (n1 & H1 & C1).
  set (st1 := add_attribute_if now value _ _ _ _ _ st0) in *.
  destruct (add_attribute_if_appends (description tx) event_id "description"
              (text_object "string") temporal provenance st1)
    as (n2 & H2 & C2).
  set (st2 := add_attribute_if now (description tx) _ _ _ _ _ st1) in *.
  destruct (add_attribute_if_appends (date tx) event_id "date"
              (text_object "date") temporal provenance st2)
    as (n3 & H3 & C3).
  set (st3 := add_attribute_if now (date tx) _ _ _ _ _ st2) in *.
  destruct (add_attribute_if_appends (currency tx) event_id "currency"
              (text_object "string") temporal provenance st3)
    as (n4 & H4 & C4).
  set (st4 := add_attribute_if now (currency tx) _ _ _ _ _ st3) in *.
  destruct (add_attribute_if_appends (category tx) event_id "category"
              (text_object "string") temporal provenance st4)
    as (n5 & H5 & C5).
  exists (n1 ++ n2 ++ n3 ++ n4 ++ n5)%list.
  split.
  { repeat (eapply appends_facts_trans; [eassumption|]). exact H5. }
  clear H1 H2 H3 H4 H5.
  assert (∀ n : list Store.AttributeFact, ∀ key : string,
            key ≠ "amount" →
            (n = [] ∨ ∃ f, n = [f] ∧ Store.predicate f = key) →
            List.filter (λ f, bool_decide (Store.predicate f = "amount")) n
            = []) as Hother.
  { intros n key Hkey [->|(f & -> & Hp)]; [done|]. simpl.
    rewrite bool_decide_eq_false_2; [done|]. by rewrite Hp. }
  rewrite !List.filter_app.
  rewrite (Hother n2 "description"), (Hother n3 "date"),
    (Hother n4 "currency"), (Hother n5 "category"); try done.
  2-5: match goal with
       | |- ?n = [] ∨ _ =>
           match goal with
           | C : match ?p with Some _ => _ | None => n = [] end |- _ =>
               destruct p; [right; destruct C as (f & -> & ? & ? & ? & ?);
                            by exists f|by left]
           end
       end.
  rewrite !app_nil_r, !length_app.
  split_and!.
  - destruct value, (description tx), (date tx), (currency tx),
      (category tx);
      repeat match goal with
             | C : ∃ _, _ |- _ => destruct C as (? & -> & _)
             | C : _ = [] |- _ => rewrite C
             end; done.
  - repeat (apply Forall_app; split);
      match goal with
      | |- Forall _ ?n =>
          match goal with
          | C : match ?p with Some _ => _ | None => n = [] end |- _ =>
              destruct p;
                [destruct C as (f & -> & ? & ? & ? & ? & ? & ? & ? & ?);
                 apply Forall_singleton; by eapply migrated_fact_intro
                |rewrite C; constructor]
          end
      end.
  - destruct value as [a|].
    + destruct C1 as (f & -> & _ & _ & Hp & Hobj & _). exists f. simpl.
      rewrite bool_decide_eq_true_2 by done. done.
    + by rewrite C1.
Qed.

(** Migrating a transaction raises exactly what [rejection] says. *)
Lemma rejection_amount (tx : transaction) (tid : string) :
  id tx = Some tid →
  match amount tx with
  | Some v =>
      match py_float v with
      | Ok a => rejection tx = None ∧ amount_as_float tx = Some a
      | Raise e => rejection tx = Some e
      end
  | None => rejection tx = None ∧ amount_as_float tx = None
  end.
Proof.
  intros Hid. unfold rejection, amount_as_float. rewrite Hid.
  destruct (amount tx) as [v|]; [|done]. by destruct (py_float v).
Qed.

(** Step 2: it raises exactly when [float()] rejects the amount, and
    otherwise appends one fact per scalar key the transaction has. *)
Lemma add_scalar_facts_appends (tx : transaction) (tid : string)
    (event_id : string) (temporal : Store.TemporalQualifiers)
    (provenance : Store.Provenance) (st0 : migration_state) :
  id tx = Some tid →
  match add_scalar_facts now tx event_id temporal provenance st0 with
  | Ok st5 =>
      rejection tx = None
      ∧ ∃ new,
          appends_facts new st0 st5
          ∧ length new = scalar_keys_present tx
          ∧ Forall (migrated_fact now event_id temporal provenance) new
          ∧ match amount_as_float tx with
            | Some a =>
                ∃ fact,
                  List.filter
                    (λ f, bool_decide (Store.predicate f = "amount")) new
                  = [fact]
                  ∧ Store.object fact
                    = {| Store.value := Store.Number a;
                         Store.value_type := "number";
                         Store.unit := Some (default "USD" (currency tx)) |}
            | None =>
                List.filter
                  (λ f, bool_decide (Store.predicate f = "amount")) new
                = []
            end
  | Raise e => rejection tx = Some e
  end.
Proof.
  intros Hid. pose proof (rejection_amount tx tid Hid) as Hrej.
  unfold add_scalar_facts, add_amount_fact, scalar_keys_present.
  destruct (amount tx) as [v|].
  - destruct (py_float v) as [a|e]; unfold mbind, result_bind; [|done].
    destruct Hrej as [Hrej ->]. split; [done|].
    apply (scalar_facts_chain (Some a)).
  - unfold mbind, result_bind. destruct Hrej as [Hrej ->]. split; [done|].
    apply (scalar_facts_chain None).
Qed.

Lemma entity_id_not_event_id (x y : string) :
  "ent_merchant_" +:+ x ≠ "evt_" +:+ y.
Proof. intros H. vm_compute in H. discriminate. Qed.

(** Counting nodes of one kind after an insertion. *)
Lemma count_nodes_insert (kind : Store.node → bool)
    (nodes : gmap string Store.node) (k : string) (n : Store.node) :
  count_nodes kind (<[k := n]> nodes)
  = match nodes !! k with
    | Some old =>
        (count_nodes kind nodes + (if kind n then 1 else 0)
         - (if kind old then 1 else 0))%nat
    | None => (count_nodes kind nodes + (if kind n then 1 else 0))%nat
    end.
Proof.
  unfold count_nodes.
  set (P := λ kv : string * Store.node, kind kv.2 = true).
  assert (size (filter P (delete k nodes))
          = match nodes !! k with
            | Some old =>
                (size (filter P nodes) - (if kind old then 1 else 0))%nat
            | None => size (filter P nodes)
            end) as Hdel.
  { rewrite map_filter_delete. rewrite map_size_delete.
    destruct (nodes !! k) as [old|] eqn:Hk.
    - destruct (kind old) eqn:Hold.
      + rewrite (proj2 (map_lookup_filter_Some P nodes k old));
          [simpl; lia|].
        by split.
      + rewrite (proj2 (map_lookup_filter_None P nodes k)); [simpl; lia|].
        right. intros x Hx. unfold P. simpl. congruence.
    - rewrite (proj2 (map_lookup_filter_None P nodes k)); [done|by left]. }
  destruct (kind n) eqn:Hn.
  - rewrite map_filter_insert_True by done.
    rewrite <- insert_delete_eq, map_size_insert_None
      by apply lookup_delete_eq.
    rewrite <- map_filter_delete, Hdel.
    destruct (nodes !! k) as [old|] eqn:Hk; [|lia].
    destruct (kind old) eqn:Hold; [|lia].
    assert (0 < size (filter P nodes))%nat; [|lia].
    assert (filter P nodes !! k = Some old) as Hin
      by (by apply map_lookup_filter_Some).
    destruct (decide (size (filter P nodes) = 0%nat)) as [Hz|]; [|lia].
    apply map_size_empty_iff in Hz. rewrite Hz in Hin.
    by rewrite lookup_empty in Hin.
  - rewrite map_filter_insert_False by (unfold P; simpl; congruence).
    rewrite Hdel. destruct (nodes !! k); lia.
Qed.

Lemma consistent_same (st st' : migration_state) :
  Store.nodes (schema st') = Store.nodes (schema st) →
  entity_registry st' = entity_registry st →
  consistent st → consistent st'.
Proof. unfold consistent. by intros -> ->. Qed.

Lemma consistent_appends (new : list Store.AttributeFact)
    (st st' : migration_state) :
  appends_facts new st st' → consistent st → consistent st'.
Proof.
  intros (Hs & Hr & _). apply consistent_same; [|done].
  rewrite Hs. apply appends_facts_schema.
Qed.

Lemma consistent_empty (clock0 : nat) : consistent (initial_state clock0).
Proof.
  unfold consistent, count_nodes, initial_state. simpl.
  rewrite !map_filter_empty, !map_size_empty.
  split_and!; try done; intros *; by rewrite lookup_empty.
Qed.

(** A registered entity id is never the id of an event. *)
Lemma registered_id_not_event (st : migration_state) (m e tid : string) :
  consistent st → entity_registry st !! m = Some e → e ≠ "evt_" +:+ tid.
Proof.
  intros (_ & Hids & _) Hm ->. destruct (Hids m _ Hm) as (i & _ & Heq).
  symmetry in Heq. by apply entity_id_not_event_id in Heq.
Qed.

(** Step 1 keeps the state consistent. *)
Lemma consistent_add_event (st : migration_state) (event : Store.EventNode)
    (tid : string) (clock' : nat) :
  Store.event_id event = "evt_" +:+ tid →
  consistent st →
  consistent {| schema := Store.add_event (schema st) event;
                entity_registry := entity_registry st;
                clock := clock' |}.
Proof.
  intros Hid Hc.
  pose proof Hc as (Hnodes & Hids & Hents & Hinj & Hcount & Hsize).
  assert (∀ old, Store.nodes (schema st) !! Store.event_id event = Some old →
                 is_event old = true ∧ is_entity old = false) as Hold.
  { intros old Hk. destruct (Hnodes _ _ Hk) as [(e & t & -> & _)|(e & m & -> & Hm)].
    - done.
    - exfalso. rewrite Hid in Hm.
      by eapply (registered_id_not_event st m _ tid). }
  unfold consistent. simpl. rewrite !count_nodes_insert, map_size_insert.
  split_and!.
  - intros k n. destruct (decide (k = Store.event_id event)) as [->|Hne].
    + rewrite lookup_insert_eq. intros [= <-]. left. by exists event, tid.
    + rewrite lookup_insert_ne by done. apply Hnodes.
  - done.
  - intros m e Hm. destruct (Hents m e Hm) as (n & Hn & Hrest).
    exists n. split; [|done]. rewrite lookup_insert_ne; [done|].
    rewrite Hid. intros Heq. symmetry in Heq.
    by eapply (registered_id_not_event st m e tid).
  - done.
  - destruct (Store.nodes (schema st) !! Store.event_id event) as [old|] eqn:Hk;
      simpl; [|lia].
    destruct (Hold old eq_refl) as [_ ->]. lia.
  - destruct (Store.nodes (schema st) !! Store.event_id event) as [old|] eqn:Hk;
      simpl; [|lia].
    destruct (Hold old eq_refl) as [-> ->]. lia.
Qed.

(** Registering a merchant: a known name keeps its id and the state; a new
    name gets the next id, an entity node with the name as alias and a
    [canonical_name] fact. *)
Lemma register_merchant_effect (m : string)
    (temporal : Store.TemporalQualifiers) (provenance : Store.Provenance)
    (st : migration_state) :
  consistent st →
  ∃ st' e new,
    register_merchant now iso m temporal provenance st = (st', e)
    ∧ consistent st'
    ∧ entity_registry st' !! m = Some e
    ∧ entity_registry st ⊆ entity_registry st'
    ∧ Store.relationship_facts (schema st')
      = Store.relationship_facts (schema st)
    ∧ Store.attribute_facts (schema st')
      = (Store.attribute_facts (schema st) ++ new)%list
    ∧ length new
      = (size (entity_registry st') - size (entity_registry st))%nat
    ∧ Forall (migrated_fact now e temporal provenance) new
    ∧ Store.nodes (schema st) ⊆ Store.nodes (schema st')
    ∧ dom (entity_registry st') = {[m]} ∪ dom (entity_registry st)
    ∧ (∀ tid, Store.nodes (schema st') !! ("evt_" +:+ tid)
              = Store.nodes (schema st) !! ("evt_" +:+ tid)).
Proof.
  intros Hc. unfold register_merchant.
  destruct (entity_registry st !! m) as [e|] eqn:Hm.
  - exists st, e, []. rewrite app_nil_r. simpl.
    split_and!; try done; [lia|].
    apply (elem_of_dom_2 (D:=gset string)) in Hm. set_solver.
  - set (e := "ent_merchant_" +:+ pretty (size (entity_registry st))).
    set (entity := {| Store.entity_id := e |}).
    set (st1 := {| schema := Store.add_entity (schema st) entity |}).
    destruct (add_attribute_appends e "canonical_name"
                (text_object "string" m) temporal provenance st1)
      as (fact & Happ & Hsid & Hsubj & Hpred & Hobj & Htemp & Hprov
          & Hdec & Hrej).
    pose proof Hc as (Hnodes & Hids & Hents & Hinj & Hcount & Hsize).
    assert (∀ m' e', entity_registry st !! m' = Some e' → e' ≠ e) as Hfresh_id.
    { intros m' e' Hm' ->. destruct (Hids m' _ Hm') as (i & Hi & Heq).
      unfold e in Heq. apply (inj (String.app "ent_merchant_")) in Heq.
      apply (inj pretty) in Heq. lia. }
    assert (Store.nodes (schema st) !! e = None) as Hfresh.
    { destruct (Store.nodes (schema st) !! e) as [n|] eqn:Hk; [|done].
      exfalso.
      destruct (Hnodes _ _ Hk) as [(ev & t & -> & Heq)|(en & m' & -> & Hm')].
      - by apply entity_id_not_event_id in Heq.
      - by apply (Hfresh_id m' e). }
    assert (consistent st1) as Hc1.
    { unfold consistent, st1. simpl.
      rewrite !count_nodes_insert, !map_size_insert, Hfresh, Hm. simpl.
      split_and!.
      - intros k n. destruct (decide (k = e)) as [->|Hne].
        + rewrite lookup_insert_eq. intros [= <-]. right.
          exists entity, m. split; [done|]. apply lookup_insert_eq.
        + rewrite lookup_insert_ne by done. intros Hk.
          destruct (Hnodes _ _ Hk) as [?|(en & m' & -> & Hm')]; [by left|].
          right. exists en, m'. split; [done|].
          rewrite lookup_insert_ne; [done|]. congruence.
      - intros m' e'. destruct (decide (m' = m)) as [->|Hne].
        + rewrite lookup_insert_eq. intros [= <-].
          exists (size (entity_registry st)). split; [lia|done].
        + rewrite lookup_insert_ne by done. intros Hm'.
          destruct (Hids _ _ Hm') as (i & Hi & ->). exists i.
          split; [lia|done].
      - intros m' e'. destruct (decide (m' = m)) as [->|Hne].
        + rewrite lookup_insert_eq. intros [= <-].
          exists entity. by rewrite lookup_insert_eq.
        + rewrite lookup_insert_ne by done. intros Hm'.
          destruct (Hents _ _ Hm') as (n & Hn & Hrest).
          exists n. split; [|done].
          rewrite lookup_insert_ne; [done|]. intros <-.
          by apply (Hfresh_id m' e).
      - intros m1 m2 e'.
        destruct (decide (m1 = m)) as [->|Hne1],
                 (decide (m2 = m)) as [->|Hne2];
          rewrite ?lookup_insert_eq, ?lookup_insert_ne by done; try done.
        + intros [= <-] Hm2. by destruct (Hfresh_id m2 e).
        + intros Hm1 [= <-]. by destruct (Hfresh_id m1 e).
        + apply Hinj.
      - lia.
      - lia. }
    exists (add_attribute now e "canonical_name" (text_object "string" m)
              temporal provenance st1), e, [fact].
    destruct Happ as (Hs & Hr & Hclk).
    destruct (appends_facts_schema [fact] (schema st1)) as (Hn & Hrel & Hatt).
    rewrite <- Hs in Hn, Hrel, Hatt.
    split; [done|].
    split; [by eapply consistent_same; [| |exact Hc1]|].
    rewrite Hr, Hrel, Hatt, Hn. unfold st1. simpl.
    rewrite map_size_insert, Hm.
    split_and!.
    + apply lookup_insert_eq.
    + by apply insert_subseteq.
    + done.
    + done.
    + lia.
    + apply Forall_singleton. by eapply migrated_fact_intro.
    + by apply insert_subseteq.
    + apply dom_insert_L.
    + intros tid. apply lookup_insert_ne, entity_id_not_event_id.
Qed.

(** Everything one call of [migrate_transaction_to_schema] does to a
    consistent state, for a transaction that has an id. *)
Lemma migrate_transaction_effect (st : migration_state) (tx : transaction)
    (tid : string) :
  id tx = Some tid → rejection tx = None → consistent st →
  ∃ st' temporal provenance scalar registered rels,
    migrate_transaction_to_schema now iso st tx = Ok st'
    ∧ consistent st'
    ∧ entity_registry st ⊆ entity_registry st'
    ∧ Store.nodes (schema st') !! ("evt_" +:+ tid)
      = Some (Store.Event (event_node_of iso tx ("evt_" +:+ tid) (clock st)))
    ∧ Store.attribute_facts (schema st')
      = (Store.attribute_facts (schema st) ++ scalar ++ registered)%list
    ∧ length scalar = scalar_keys_present tx
    ∧ length registered
      = (size (entity_registry st') - size (entity_registry st))%nat
    ∧ Forall (migrated_fact now ("evt_" +:+ tid) temporal provenance) scalar
    ∧ Forall (λ f, ∃ m e, entity_registry st' !! m = Some e
                          ∧ migrated_fact now e temporal provenance f)
        registered
    ∧ match amount_as_float tx with
      | Some a =>
          ∃ fact,
            List.filter
              (λ f, bool_decide (Store.predicate f = "amount")) scalar
            = [fact]
            ∧ Store.object fact
              = {| Store.value := Store.Number a;
                   Store.value_type := "number";
                   Store.unit := Some (default "USD" (currency tx)) |}
      | None =>
          List.filter
            (λ f, bool_decide (Store.predicate f = "amount")) scalar = []
      end
    ∧ Store.relationship_facts (schema st')
      = (Store.relationship_facts (schema st) ++ rels)%list
    ∧ match merchant tx with
      | Some m =>
          entity_registry st' !! m = Store.target_id <$> last rels
          ∧ ∃ r, rels = [r]
                 ∧ Store.rel_subject_id r = "evt_" +:+ tid
                 ∧ Store.rel_predicate r = "merchant"
                 ∧ Store.rel_temporal r = temporal
                 ∧ Store.rel_provenance r = provenance
                 ∧ Store.rel_reconciliation_decision_id r = None
                 ∧ Store.rel_rejected_alternatives r = []
      | None => rels = [] ∧ entity_registry st' = entity_registry st
      end
    ∧ dom (entity_registry st')
      = list_to_set (option_list (merchant tx)) ∪ dom (entity_registry st)
    ∧ kinds_kept (Store.nodes (schema st)) (Store.nodes (schema st'))
    ∧ (∀ tid', tid' ≠ tid →
         Store.nodes (schema st') !! ("evt_" +:+ tid')
         = Store.nodes (schema st) !! ("evt_" +:+ tid'))
    ∧ (∃ c1 c2, temporal = (create_temporal_qualifiers iso c1 tx).1
                ∧ provenance = (create_provenance iso c2 tx).1).
Proof.
  intros Hid Hok Hc. unfold migrate_transaction_to_schema. rewrite Hid.
  unfold create_temporal_qualifiers, create_provenance. cbv zeta.
  set (evt := "evt_" +:+ tid).
  set (temporal := {| Store.valid_to := None |}).
  set (provenance := {| Store.source_method := _ |}).
  set (st0 := {| schema := Store.add_event (schema st) _ |}).
  assert (consistent st0) as Hc0 by by apply (consistent_add_event st _ tid).
  pose proof (add_scalar_facts_appends tx tid evt temporal provenance st0 Hid)
    as Hstep.
  destruct (add_scalar_facts now tx evt temporal provenance st0) as [st5|e];
    [|congruence].
  destruct Hstep as (_ & scalar & Happ & Hlen & Hall & Hamt).
  unfold mbind, result_bind.
  pose proof (consistent_appends _ _ _ Happ Hc0) as Hc5.
  destruct Happ as (Hs5 & Hr5 & _).
  destruct (appends_facts_schema scalar (schema st0)) as (Hn5 & Hrel5 & Hatt5).
  rewrite <- Hs5 in Hn5, Hrel5, Hatt5.
  assert (Store.nodes (schema st5) !! evt
          = Some (Store.Event (event_node_of iso tx evt (clock st)))) as Hevt.
  { rewrite Hn5. unfold st0. simpl. apply lookup_insert_eq. }
  assert (∀ k n, Store.nodes (schema st) !! k = Some n →
            ∃ n', Store.nodes (schema st5) !! k = Some n'
                  ∧ is_event n' = is_event n ∧ is_entity n' = is_entity n)
    as Hkeep.
  { intros k n Hk. rewrite Hn5. unfold st0. simpl.
    destruct (decide (k = evt)) as [->|Hne].
    - rewrite lookup_insert_eq. eexists. split; [done|].
      pose proof Hc as (Hnodes & _).
      destruct (Hnodes _ _ Hk) as [(e & t & -> & _)|(e & m' & -> & Hm')];
        [done|].
      exfalso. by eapply (registered_id_not_event st m' _ tid).
    - rewrite lookup_insert_ne by done. by exists n. }
  destruct (merchant tx) as [m|].
  - destruct (register_merchant_effect m temporal provenance st5 Hc5)
      as (st6 & e & registered & Hreg & Hc6 & Hm & Hsub & Hrel6 & Hatt6
          & Hlen6 & Hall6 & Hframe & Hdom6 & Hevt6).
    unfold add_merchant_relationship. rewrite Hreg.
    unfold Migrate.generate_statement_id. cbv zeta.
    eexists _, temporal, provenance, scalar, registered, [_].
    split; [reflexivity|]. simpl.
    destruct (Hc6) as (_ & Hids6 & _).
    destruct (Hids6 m e Hm) as (i & _ & He).
    split_and!.
    + by eapply consistent_same; [| |exact Hc6].
    + by rewrite Hr5 in Hsub.
    + by eapply lookup_weaken.
    + by rewrite Hatt6, Hatt5, <- app_assoc.
    + done.
    + by rewrite Hlen6, Hr5.
    + done.
    + eapply Forall_impl; [exact Hall6|]. intros f Hf. by exists m, e.
    + done.
    + by rewrite Hrel6, Hrel5.
    + done.
    + by eexists.
    + rewrite Hdom6, Hr5. simpl. set_solver.
    + intros k n Hk. destruct (Hkeep k n Hk) as (n' & Hk' & Hkind).
      exists n'. split; [|done]. by eapply lookup_weaken.
    + intros tid' Hne. rewrite Hevt6, Hn5. unfold st0. simpl.
      apply lookup_insert_ne. unfold evt. intros Heq.
      by apply (inj (String.app "evt_")) in Heq.
    + by exists (clock st + 2)%nat, (clock st + 2 + 2)%nat.
  - exists st5, temporal, provenance, scalar, [], [].
    rewrite !app_nil_r. split_and!; try done.
    + by rewrite Hr5.
    + simpl. rewrite Hr5. unfold st0. simpl. lia.
    + rewrite Hr5. simpl. set_solver.
    + intros tid' Hne. rewrite Hn5. unfold st0. simpl.
      apply lookup_insert_ne. unfold evt. intros Heq.
      by apply (inj (String.app "evt_")) in Heq.
    + by exists (clock st + 2)%nat, (clock st + 2 + 2)%nat.
Qed.

Lemma kinds_kept_trans (nodes1 nodes2 nodes3 : gmap string Store.node) :
  kinds_kept nodes1 nodes2 → kinds_kept nodes2 nodes3 →
  kinds_kept nodes1 nodes3.
Proof.
  intros H12 H23 k n Hk.
  destruct (H12 k n Hk) as (n2 & Hk2 & He2 & Hn2).
  destruct (H23 k n2 Hk2) as (n3 & Hk3 & He3 & Hn3).
  exists n3. split; [done|]. split; congruence.
Qed.

Lemma links_nodes_kept (nodes nodes' : gmap string Store.node)
    (r : Store.RelationshipFact) :
  kinds_kept nodes nodes' → links_nodes nodes r → links_nodes nodes' r.
Proof.
  intros Hkeep [(ev & Hev) (en & Hen)]. split.
  - destruct (Hkeep _ _ Hev) as ([| |] & Hk & He & _); try done. by eexists.
  - destruct (Hkeep _ _ Hen) as ([| |] & Hk & _ & He); try done. by eexists.
Qed.

Lemma describes_node_kept (nodes nodes' : gmap string Store.node)
    (f : Store.AttributeFact) :
  kinds_kept nodes nodes' →
  describes_node now nodes f → describes_node now nodes' f.
Proof.
  intros Hkeep [[n Hn] Hrest]. split; [|done].
  destruct (Hkeep _ _ Hn) as (n' & Hn' & _). by eexists.
Qed.

Lemma amounts_of_app (subject : string)
    (facts1 facts2 : list Store.AttributeFact) :
  amounts_of subject (facts1 ++ facts2)
  = (amounts_of subject facts1 ++ amounts_of subject facts2)%list.
Proof. unfold amounts_of. by rewrite !List.filter_app, fmap_app. Qed.

Lemma amounts_of_other_subject (subject : string)
    (facts : list Store.AttributeFact) :
  Forall (λ f, Store.subject_id f ≠ subject) facts →
  amounts_of subject facts = [].
Proof.
  intros Hall. unfold amounts_of.
  induction Hall as [|f facts Hf _ IH]; [done|]. simpl.
  rewrite bool_decide_eq_false_2 by done. apply IH.
Qed.

Lemma amounts_of_same_subject (subject : string)
    (facts : list Store.AttributeFact) :
  Forall (λ f, Store.subject_id f = subject) facts →
  amounts_of subject facts
  = (λ f, Store.value (Store.object f))
      <$> List.filter (λ f, bool_decide (Store.predicate f = "amount")) facts.
Proof.
  intros Hall. unfold amounts_of. do 2 f_equal.
  induction Hall as [|f facts Hf _ IH]; [done|]. simpl.
  rewrite bool_decide_eq_true_2 by done. by rewrite IH.
Qed.

Lemma rejection_None_id (tx : transaction) :
  rejection tx = None → is_Some (id tx).
Proof. unfold rejection. by destruct (id tx). Qed.

(** Everything a pass over transactions that all migrate does to a
    consistent state. *)
Lemma migrate_transactions_effect (txs : list transaction) :
  ∀ st, consistent st → Forall (λ tx, rejection tx = None) txs →
  ∃ st' facts rels,
    migrate_transactions now iso st txs = Ok st'
    ∧ consistent st'
    ∧ entity_registry st ⊆ entity_registry st'
    ∧ dom (entity_registry st')
      = list_to_set (omap merchant txs) ∪ dom (entity_registry st)
    ∧ kinds_kept (Store.nodes (schema st)) (Store.nodes (schema st'))
    ∧ Store.attribute_facts (schema st')
      = (Store.attribute_facts (schema st) ++ facts)%list
    ∧ Store.relationship_facts (schema st')
      = (Store.relationship_facts (schema st) ++ rels)%list
    ∧ (length facts + size (entity_registry st)
       = sum_list (scalar_keys_present <$> txs)
         + size (entity_registry st'))%nat
    ∧ Forall (describes_node now (Store.nodes (schema st'))) facts
    ∧ Forall (made_from iso txs) facts
    ∧ Forall2 (merchant_link (entity_registry st')) (with_merchant txs) rels
    ∧ (∀ tid, amounts_of ("evt_" +:+ tid) facts
              = Store.Number <$> omap amount_as_float (same_id tid txs))
    ∧ (∀ tid, match last (same_id tid txs) with
              | Some tx =>
                  ∃ c, Store.nodes (schema st') !! ("evt_" +:+ tid)
                       = Some (Store.Event
                                 (event_node_of iso tx ("evt_" +:+ tid) c))
              | None =>
                  Store.nodes (schema st') !! ("evt_" +:+ tid)
                  = Store.nodes (schema st) !! ("evt_" +:+ tid)
              end).
Proof.
  induction txs as [|tx rest IH]; intros st Hc Hall.
  - exists st, [], []. simpl. rewrite !app_nil_r.
    split_and!; try done.
    + set_solver.
    + intros k n Hk. by exists n.
  - inversion Hall as [|tx' rest' Hok Hrest]; subst.
    destruct (rejection_None_id tx Hok) as [tid Hid].
    destruct (migrate_transaction_effect st tx tid Hid Hok Hc)
      as (st1 & temporal & provenance & scalar & registered & rels1
          & Hrun1 & Hc1 & Hsub1 & Hevt1 & Hatt1 & Hlen1 & Hlenr1 & Hsc1
          & Hreg1 & Hamt1 & Hrel1 & Hmer1 & Hdom1 & Hkeep1 & Hframe1
          & (c1 & c2 & Ht & Hp)).
    destruct (IH st1 Hc1 Hrest)
      as (st' & facts & rels & Hrun & Hc' & Hsub & Hdom & Hkeep & Hatt
          & Hrel & Hlen & Hdesc & Hmade & Hlinks & Hamts & Hlast).
    exists st', ((scalar ++ registered) ++ facts)%list, (rels1 ++ rels)%list.
    pose proof (map_subseteq_size _ _ Hsub1) as Hsize1.
    split_and!.
    + change (migrate_transactions now iso st (tx :: rest))
        with (migrate_transaction_to_schema now iso st tx
              ≫= λ st', migrate_transactions now iso st' rest).
      rewrite Hrun1. exact Hrun.
    + done.
    + by etrans.
    + rewrite Hdom, Hdom1. simpl. destruct (merchant tx); simpl; set_solver.
    + by eapply kinds_kept_trans.
    + by rewrite Hatt, Hatt1, <- !app_assoc.
    + by rewrite Hrel, Hrel1, <- !app_assoc.
    + rewrite !length_app, fmap_cons. simpl. lia.
    + apply Forall_app. split; [|done].
      apply Forall_app. split.
      * eapply Forall_impl; [exact Hsc1|]. intros f Hf.
        eapply describes_node_kept; [exact Hkeep|].
        pose proof Hf as (Hs & _). split.
        -- rewrite Hs, Hevt1. by eexists.
        -- exists temporal, provenance. by rewrite Hs.
      * eapply Forall_impl; [exact Hreg1|]. intros f (m & e & Hm & Hf).
        eapply describes_node_kept; [exact Hkeep|].
        pose proof Hf as (Hs & _). split.
        -- rewrite Hs. destruct Hc1 as (_ & _ & Hents & _).
           destruct (Hents m e Hm) as (n & Hn & _). by eexists.
        -- exists temporal, provenance. by rewrite Hs.
    + apply Forall_app. split.
      * apply Forall_app. split.
        -- eapply Forall_impl; [exact Hsc1|]. intros f (_ & Hft & Hfp & _).
           exists tx, c1, c2. rewrite Hft, Hfp.
           split; [apply list_elem_of_here|done].
        -- eapply Forall_impl; [exact Hreg1|].
           intros f (m & e & _ & _ & Hft & Hfp & _).
           exists tx, c1, c2. rewrite Hft, Hfp.
           split; [apply list_elem_of_here|done].
      * eapply Forall_impl; [exact Hmade|].
        intros f (tx' & c1' & c2' & Hin & Hrest').
        exists tx', c1', c2'. split; [by apply list_elem_of_further|done].
    + unfold with_merchant. simpl. fold (with_merchant rest).
      destruct (merchant tx) as [m|] eqn:Hm.
      * rewrite bool_decide_eq_true_2 by done.
        destruct Hmer1 as (Htarget & r & -> & Hrs & Hrp & _ & _ & Hrd & Hrr).
        simpl. constructor; [|done].
        exists tid, m. split_and!; try done.
        eapply lookup_weaken; [|exact Hsub]. by rewrite Htarget.
      * rewrite bool_decide_eq_false_2 by (by intros [? ?]).
        destruct Hmer1 as (-> & _). done.
    + intros tid'. rewrite !amounts_of_app, Hamts.
      rewrite (amounts_of_other_subject _ registered).
      2: { eapply Forall_impl; [exact Hreg1|].
           intros f (m & e & Hm & Hs & _). rewrite Hs.
           exact (registered_id_not_event st1 m e tid' Hc1 Hm). }
      rewrite app_nil_r. unfold same_id. simpl. fold (same_id tid' rest).
      destruct (decide (tid = tid')) as [<-|Hne].
      * rewrite bool_decide_eq_true_2 by done.
        rewrite amounts_of_same_subject
          by (eapply Forall_impl; [exact Hsc1|]; by intros f (Hs & _)).
        simpl. destruct (amount_as_float tx) as [a|].
        -- destruct Hamt1 as (fact & -> & Hobj). simpl. by rewrite Hobj.
        -- by rewrite Hamt1.
      * rewrite bool_decide_eq_false_2 by congruence.
        rewrite amounts_of_other_subject; [done|].
        eapply Forall_impl; [exact Hsc1|]. intros f (Hs & _). rewrite Hs.
        intros Heq. by apply (inj (String.app "evt_")) in Heq.
    + intros tid'. specialize (Hlast tid').
      unfold same_id. simpl. fold (same_id tid' rest).
      destruct (decide (tid = tid')) as [<-|Hne].
      * rewrite bool_decide_eq_true_2 by done. rewrite last_cons.
        destruct (last (same_id tid rest)) as [tx'|]; [done|].
        exists (clock st). by rewrite Hlast.
      * rewrite bool_decide_eq_false_2 by congruence.
        destruct (last (same_id tid' rest)) as [tx'|]; [done|].
        rewrite Hlast. apply Hframe1. congruence.
Qed.

Lemma migrate_transaction_rejected (st : migration_state) (tx : transaction)
    (e : exception) :
  rejection tx = Some e → migrate_transaction_to_schema now iso st tx = Raise e.
Proof.
  intros Hrej. unfold migrate_transaction_to_schema.
  destruct (id tx) as [tid|] eqn:Hid.
  - unfold create_temporal_qualifiers, create_provenance. cbv zeta.
    match goal with
    | |- context [add_scalar_facts now tx ?evt ?t ?p ?st0] =>
        pose proof (add_scalar_facts_appends tx tid evt t p st0 Hid) as Hstep;
        destruct (add_scalar_facts now tx evt t p st0) as [st5|e']
    end.
    + destruct Hstep as [Hnone _]. congruence.
    + unfold mbind, result_bind. congruence.
  - unfold rejection in Hrej. rewrite Hid in Hrej. congruence.
Qed.

(** A pass completes when no transaction is rejected, and otherwise stops
    at the first one that is, with its exception. *)
Lemma migrate_transactions_cases (txs : list transaction) :
  ∀ st, consistent st →
  match migrate_transactions now iso st txs with
  | Ok _ => Forall (λ tx, rejection tx = None) txs
  | Raise e =>
      ∃ before tx after,
        txs = (before ++ tx :: after)%list
        ∧ Forall (λ tx, rejection tx = None) before
        ∧ rejection tx = Some e
  end.
Proof.
  induction txs as [|tx rest IH]; intros st Hc; [simpl; constructor|].
  change (migrate_transactions now iso st (tx :: rest))
    with (migrate_transaction_to_schema now iso st tx
          ≫= λ st', migrate_transactions now iso st' rest).
  destruct (rejection tx) as [e|] eqn:Hrej.
  - rewrite (migrate_transaction_rejected st tx e Hrej).
    unfold mbind, result_bind. by exists [], tx, rest.
  - destruct (rejection_None_id tx Hrej) as [tid Hid].
    destruct (migrate_transaction_effect st tx tid Hid Hrej Hc)
      as (st1 & ? & ? & ? & ? & ? & Hrun1 & Hc1 & _).
    rewrite Hrun1. unfold mbind, result_bind. specialize (IH st1 Hc1).
    destruct (migrate_transactions now iso st1 rest) as [st'|e].
    + by constructor.
    + destruct IH as (before & tx' & after & -> & Hbefore & Hrej').
      exists (tx :: before), tx', after. split_and!; [done| |done].
      by constructor.
Qed.

Lemma migrate_transactions_ids (txs : list transaction)
    (st st' : migration_state) :
  consistent st → migrate_transactions now iso st txs = Ok st' →
  Forall (λ tx, rejection tx = None) txs.
Proof.
  intros Hc Hrun. pose proof (migrate_transactions_cases txs st Hc) as H.
  by rewrite Hrun in H.
Qed.

(** A completed pass that started from the empty schema. *)
Lemma migrate_transactions_initial (clock0 : nat) (txs : list transaction)
    (st' : migration_state) :
  migrate_transactions now iso (initial_state clock0) txs = Ok st' →
  consistent st'
  ∧ dom (entity_registry st') = list_to_set (omap merchant txs)
  ∧ length (Store.attribute_facts (schema st'))
    = (sum_list (scalar_keys_present <$> txs)
       + size (entity_registry st'))%nat
  ∧ Forall (describes_node now (Store.nodes (schema st')))
      (Store.attribute_facts (schema st'))
  ∧ Forall (made_from iso txs) (Store.attribute_facts (schema st'))
  ∧ Forall2 (merchant_link (entity_registry st')) (with_merchant txs)
      (Store.relationship_facts (schema st'))
  ∧ (∀ tid, amounts_of ("evt_" +:+ tid) (Store.attribute_facts (schema st'))
            = Store.Number <$> omap amount_as_float (same_id tid txs))
  ∧ (∀ tid, match last (same_id tid txs) with
            | Some tx =>
                ∃ c, Store.nodes (schema st') !! ("evt_" +:+ tid)
                     = Some (Store.Event
                               (event_node_of iso tx ("evt_" +:+ tid) c))
            | None => Store.nodes (schema st') !! ("evt_" +:+ tid) = None
            end).
Proof.
  intros Hrun.
  pose proof (migrate_transactions_ids txs _ _ (consistent_empty clock0) Hrun)
    as Hids.
  destruct (migrate_transactions_effect txs _ (consistent_empty clock0) Hids)
    as (st & facts & rels & Hrun' & Hc & _ & Hdom & _ & Hatt & Hrel & Hlen
        & Hdesc & Hmade & Hlinks & Hamts & Hlast).
  rewrite Hrun in Hrun'. injection Hrun' as <-.
  simpl in Hatt, Hrel, Hlen, Hdom. rewrite Hatt, Hrel.
  rewrite dom_empty_L, (right_id_L ∅ (∪)) in Hdom.
  rewrite map_size_empty in Hlen.
  split_and!; try done. lia.
Qed.

Lemma migrate_ledger_inv (clock0 : nat) (txs : list transaction)
    (schema' : Store.StorageSchema) (stats : statistics_t) :
  migrate_canonical_ledger now iso clock0 txs = Ok (schema', stats) →
  ∃ st', migrate_transactions now iso (initial_state clock0) txs = Ok st'
         ∧ schema' = schema st' ∧ stats = statistics (schema st').
Proof.
  unfold migrate_canonical_ledger.
  destruct (migrate_transactions _ _ _ _) as [st'|key];
    unfold mbind, result_bind; [|done].
  intros [= <- <-]. by exists st'.
Qed.

Lemma same_id_elem_of (tid : string) (txs : list transaction) :
  tid ∈ omap id txs ↔ same_id tid txs ≠ [].
Proof.
  rewrite list_elem_of_omap. unfold same_id. split.
  - intros (tx & Hin & Hid) Hnil.
    assert (In tx (List.filter (λ tx, bool_decide (id tx = Some tid)) txs))
      as Hf.
    { apply filter_In. split; [by apply list_elem_of_In|].
      by apply bool_decide_eq_true. }
    by rewrite Hnil in Hf.
  - intros Hne.
    destruct (List.filter _ txs) as [|tx l] eqn:Hf; [done|].
    assert (In tx (List.filter (λ tx, bool_decide (id tx = Some tid)) txs))
      as Hin by (rewrite Hf; by left).
    apply filter_In in Hin as [Hin Hid]. apply bool_decide_eq_true in Hid.
    exists tx. split; [by apply list_elem_of_In|done].
Qed.

Lemma size_set_map_inj (f : string → string) `{!Inj (=) (=) f}
    (X : gset string) :
  size (set_map f X : gset string) = size X.
Proof.
  induction X as [|x X Hx IH] using set_ind_L.
  - by rewrite set_map_empty.
  - rewrite set_map_union_L, set_map_singleton_L.
    rewrite !size_union, !size_singleton, IH; [done|set_solver|].
    apply disjoint_singleton_l. intros (y & Heq & Hy)%elem_of_map.
    apply (inj f) in Heq. by subst.
Qed.

(** After a pass from the empty schema the event nodes are the nodes
    under the ids "evt_<id>" of the transactions. *)
Lemma event_nodes_of_initial (clock0 : nat) (txs : list transaction)
    (st' : migration_state) :
  migrate_transactions now iso (initial_state clock0) txs = Ok st' →
  count_nodes is_event (Store.nodes (schema st'))
  = size (list_to_set (omap id txs) : gset string).
Proof.
  intros Hrun.
  destruct (migrate_transactions_initial _ _ _ Hrun)
    as (Hc & _ & _ & _ & _ & _ & _ & Hlast).
  destruct Hc as (Hnodes & Hidx & _).
  unfold count_nodes. rewrite <- size_dom.
  rewrite <- (size_set_map_inj (String.app "evt_")
                (list_to_set (omap id txs))).
  f_equal.
  apply set_eq. intros k. rewrite elem_of_dom, elem_of_map. split.
  - intros [n [Hk Hkind]%map_lookup_filter_Some]. simpl in Hkind.
    destruct (Hnodes _ _ Hk) as [(e & tid & -> & ->)|(e & m & -> & _)];
      [|done].
    exists tid. split; [done|]. apply elem_of_list_to_set.
    apply same_id_elem_of. intros Hnil. specialize (Hlast tid).
    rewrite Hnil in Hlast. simpl in Hlast. congruence.
  - intros (tid & -> & Hin%elem_of_list_to_set%same_id_elem_of).
    specialize (Hlast tid).
    destruct (last (same_id tid txs)) as [tx|] eqn:Hl.
    + destruct Hlast as (c & Hk). eexists.
      apply map_lookup_filter_Some. by split.
    + by apply last_None in Hl.
Qed.

Lemma with_merchant_elem_of (tx : transaction) (txs : list transaction) :
  tx ∈ with_merchant txs → tx ∈ txs.
Proof.
  unfold with_merchant. intros Hin%list_elem_of_In%filter_In.
  apply list_elem_of_In. tauto.
Qed.

Lemma same_id_elem_of_last (tid : string) (tx : transaction)
    (txs : list transaction) :
  tx ∈ txs → id tx = Some tid → is_Some (last (same_id tid txs)).
Proof.
  intros Hin Hid.
  destruct (last (same_id tid txs)) as [tx'|] eqn:Hl; [by eexists|].
  apply last_None in Hl. exfalso. revert Hl. apply same_id_elem_of.
  apply list_elem_of_omap. by exists tx.
Qed.

(** After a pass from the empty schema every relationship fact joins two
    nodes of the schema. *)
Lemma links_nodes_of_initial (clock0 : nat) (txs : list transaction)
    (st' : migration_state) :
  migrate_transactions now iso (initial_state clock0) txs = Ok st' →
  Forall (links_nodes (Store.nodes (schema st')))
    (Store.relationship_facts (schema st')).
Proof.
  intros Hrun.
  destruct (migrate_transactions_initial _ _ _ Hrun)
    as (Hc & _ & _ & _ & _ & Hlinks & _ & Hlast).
  destruct Hc as (_ & _ & Hents & _).
  assert (∀ tx, tx ∈ with_merchant txs → tx ∈ txs) as Hsub
    by (intros tx; apply with_merchant_elem_of).
  revert Hsub Hlinks. generalize (with_merchant txs).
  generalize (Store.relationship_facts (schema st')).
  intros rels l Hsub Hlinks.
  induction Hlinks as [|tx r l rels Hlink _ IH]; constructor.
  - destruct Hlink as (tid & m & Hid & Hm & Hs & _ & Ht & _). split.
    + rewrite Hs. specialize (Hlast tid).
      destruct (same_id_elem_of_last tid tx txs) as [tx' Hl];
        [apply Hsub; left|done|].
      rewrite Hl in Hlast. destruct Hlast as (c & Hk). by eexists.
    + destruct (Hents _ _ Ht) as (n & Hn & _). by eexists.
  - apply IH. intros tx' Hin. apply Hsub. by right.
Qed.

(** The relationship facts about one event, against the transactions with
    its id. *)
Lemma relationship_targets (registry : gmap string string) (tid : string)
    (txs : list transaction) :
  ∀ rels,
    Forall2 (merchant_link registry) (with_merchant txs) rels →
    Forall (λ r, Store.rel_predicate r = "merchant") rels
    ∧ Store.target_id
        <$> List.filter
              (λ r, bool_decide (Store.rel_subject_id r = "evt_" +:+ tid))
              rels
      = omap (λ tx, merchant tx ≫= (registry !!.)) (same_id tid txs).
Proof.
  unfold with_merchant, same_id.
  induction txs as [|tx rest IH]; intros rels Hlinks; simpl in *.
  - inversion Hlinks. by split.
  - destruct (merchant tx) as [m|] eqn:Hm.
    + rewrite bool_decide_eq_true_2 in Hlinks by done.
      inversion Hlinks as [|? r ? rels' Hlink Hrest]; subst.
      destruct (IH rels' Hrest) as [Hpred Htargets].
      destruct Hlink as (tid' & m' & Hid & Hm' & Hs & Hp & Ht & _).
      rewrite Hm in Hm'. injection Hm' as <-.
      split; [by constructor|]. simpl. rewrite Hs, Hid.
      destruct (decide (tid' = tid)) as [->|Hne].
      * rewrite !bool_decide_eq_true_2 by done. simpl.
        rewrite Hm. simpl. rewrite Ht. f_equal. exact Htargets.
      * rewrite !bool_decide_eq_false_2; [done|congruence|].
        intros Heq. by apply (inj (String.app "evt_")) in Heq.
    + rewrite bool_decide_eq_false_2 in Hlinks by (by intros [? ?]).
      destruct (IH rels Hlinks) as [Hpred Htargets].
      split; [done|]. rewrite Htargets.
      destruct (bool_decide (id tx = Some tid)); [|done].
      simpl. by rewrite Hm.
Qed.

End MigrationFacts.


(** A ledger whose second transaction has a [null] amount and whose third
    has no id: the run stops at the second, with [TypeError]. *)
Example migrate_ledger_null_amount :
  Migration.migrate_canonical_ledger Samples.iso_clock Samples.iso_clock 0
    [Samples.coffee; Samples.gift; Samples.cash]
  = Raise Migration.TypeError.
Proof. vm_compute. reflexivity. Qed.

(** X21.  The statistics of a completed migration: every node is an event
    or an entity; there is one event node per distinct transaction id and
    one entity node per distinct merchant name; one relationship fact per
    transaction that names a merchant; and one attribute fact per scalar
    key present in a transaction plus one [canonical_name] fact per
    entity. *)
Theorem migrate_ledger_statistics (now iso : nat → string) (clock0 : nat)
    (transactions : list Migration.transaction)
    (schema : Store.StorageSchema) (stats : Migration.statistics_t) :
  Migration.migrate_canonical_ledger now iso clock0 transactions
  = Ok (schema, stats) →
  Migration.total_nodes stats
  = (Migration.event_nodes stats + Migration.entity_nodes stats)%nat
  ∧ Migration.event_nodes stats
    = size (list_to_set (omap Migration.id transactions) : gset string)
  ∧ Migration.entity_nodes stats
    = size (list_to_set (omap Migration.merchant transactions) : gset string)
  ∧ Migration.relationship_facts stats
    = length (Migration.with_merchant transactions)
  ∧ Migration.attribute_facts stats
    = (sum_list (Migration.scalar_keys_present <$> transactions)
       + Migration.entity_nodes stats)%nat.
Proof.
  intros (st' & Hrun & -> & ->)%migrate_ledger_inv.
  pose proof (event_nodes_of_initial _ _ _ _ _ Hrun) as Hevents.
  destruct (migrate_transactions_initial _ _ _ _ _ Hrun)
    as (Hc & Hdom & Hlen & _ & _ & Hlinks & _).
  destruct Hc as (_ & _ & _ & _ & Hcount & Hsize).
  unfold Migration.statistics. simpl.
  rewrite Hsize, Hevents, Hcount, Hlen, <- Hdom, size_dom.
  split_and!; try done.
  symmetry. by eapply Forall2_length.
Qed.

Lemma migrate_ledger_statistics_witness :
  ∃ schema stats,
    Migration.migrate_canonical_ledger Samples.iso_clock Samples.iso_clock 0
      Samples.canonical_ledger = Ok (schema, stats)
    ∧ Migration.total_nodes stats = 4%nat
    ∧ Migration.event_nodes stats = 2%nat
    ∧ Migration.entity_nodes stats = 2%nat
    ∧ Migration.relationship_facts stats = 3%nat
    ∧ Migration.attribute_facts stats = 12%nat.
Proof.
  assert (∃ d,
    Migration.migrate_canonical_ledger Samples.iso_clock Samples.iso_clock 0
      Samples.canonical_ledger = Ok d) as [[schema stats] Hrun]
    by (eexists; vm_compute; reflexivity).
  exists schema, stats. split; [exact Hrun|].
  destruct (migrate_ledger_statistics _ _ _ _ _ _ Hrun)
    as (Ht & He & Hn & Hr & Ha).
  rewrite Ht, Ha, He, Hn, Hr. clear. vm_compute. repeat split.
Defined.

(** X22.  The event node of a transaction id is built from the LAST
    transaction of the ledger that has this id - an earlier transaction
    with the same id is overwritten - and an id that no transaction has
    gets no event node. *)
Theorem migrate_ledger_event_of_last_transaction (now iso : nat → string)
    (clock0 : nat) (transactions : list Migration.transaction)
    (schema : Store.StorageSchema) (stats : Migration.statistics_t)
    (transaction_id : string) :
  Migration.migrate_canonical_ledger now iso clock0 transactions
  = Ok (schema, stats) →
  match last (Migration.same_id transaction_id transactions) with
  | Some tx =>
      ∃ reading,
        Store.get_node schema ("evt_" +:+ transaction_id)
        = Some (Store.Event
                  (Migration.event_node_of iso tx
                     ("evt_" +:+ transaction_id) reading))
  | None => Store.get_node schema ("evt_" +:+ transaction_id) = None
  end.
Proof.
  intros (st' & Hrun & -> & ->)%migrate_ledger_inv.
  destruct (migrate_transactions_initial _ _ _ _ _ Hrun)
    as (_ & _ & _ & _ & _ & _ & _ & Hlast).
  apply Hlast.
Qed.

Lemma migrate_ledger_event_of_last_transaction_witness :
  ∃ schema stats reading,
    Migration.migrate_canonical_ledger Samples.iso_clock Samples.iso_clock 0
      Samples.canonical_ledger = Ok (schema, stats)
    ∧ Store.get_node schema "evt_t1"
      = Some (Store.Event
                (Migration.event_node_of Samples.iso_clock
                   Samples.coffee_again "evt_t1" reading)).
Proof.
  assert (∃ d,
    Migration.migrate_canonical_ledger Samples.iso_clock Samples.iso_clock 0
      Samples.canonical_ledger = Ok d) as [[schema stats] Hrun]
    by (eexists; vm_compute; reflexivity).
  destruct (migrate_ledger_event_of_last_transaction _ _ _ _ _ _ "t1" Hrun)
    as (reading & Hnode).
  by exists schema, stats, reading.
Defined.

(** X23.  Amounts can be read back, as floats: after the migration,
    [get_attributes] for the event of a transaction id and the predicate
    "amount" returns one fact per transaction with this id that has an
    amount, in ledger order, each holding [float(amount)] - the amount
    itself when it is a float, the nearest double when it is an int, so
    that 2^53 + 1 is read back as 2^53 - and every amount of the ledger
    was accepted by [float()].  For a repeated id the amounts of all its
    transactions are kept, although only one event node is. *)
Theorem migrate_ledger_amounts_read_back (now iso : nat → string)
    (clock0 : nat) (transactions : list Migration.transaction)
    (schema : Store.StorageSchema) (stats : Migration.statistics_t)
    (transaction_id : string) :
  Migration.migrate_canonical_ledger now iso clock0 transactions
  = Ok (schema, stats) →
  (λ f, Store.value (Store.object f))
    <$> Store.get_attributes schema ("evt_" +:+ transaction_id)
          (Some "amount")
  = Store.Number
      <$> omap Migration.amount_as_float
            (Migration.same_id transaction_id transactions)
  ∧ Forall (λ tx, ∀ v, Migration.amount tx = Some v →
                       ∃ a, Migration.py_float v = Ok a
                            ∧ Migration.amount_as_float tx = Some a)
      transactions.
Proof.
  intros (st' & Hrun & -> & ->)%migrate_ledger_inv.
  destruct (migrate_transactions_initial _ _ _ _ _ Hrun)
    as (_ & _ & _ & _ & _ & _ & Hamts & _).
  split; [apply Hamts|].
  eapply Forall_impl.
  { eapply migrate_transactions_ids; [apply consistent_empty|exact Hrun]. }
  intros tx Hok v Hv. simpl in Hok.
  unfold Migration.rejection, Migration.amount_as_float in *.
  rewrite Hv in *. destruct (Migration.id tx); [|done].
  destruct (Migration.py_float v) as [a|e]; [by exists a|done].
Qed.

Lemma migrate_ledger_amounts_read_back_witness :
  ∃ schema stats,
    Migration.migrate_canonical_ledger Samples.iso_clock Samples.iso_clock 0
      Samples.canonical_ledger = Ok (schema, stats)
    ∧ (λ f, Store.value (Store.object f))
        <$> Store.get_attributes schema "evt_t1" (Some "amount")
      = [Store.Number (Float64.ratio (-9) 2);
         Store.Number (Float64.of_int (-5))]
    ∧ (λ f, Store.value (Store.object f))
        <$> Store.get_attributes schema "evt_t2" (Some "amount")
      = [Store.Number (Float64.of_int 9007199254740992)].
Proof.
  assert (∃ d,
    Migration.migrate_canonical_ledger Samples.iso_clock Samples.iso_clock 0
      Samples.canonical_ledger = Ok d) as [[schema stats] Hrun]
    by (eexists; vm_compute; reflexivity).
  exists schema, stats. split; [exact Hrun|].
  destruct (migrate_ledger_amounts_read_back _ _ _ _ _ _ "t1" Hrun)
    as [Ht1 _].
  destruct (migrate_ledger_amounts_read_back _ _ _ _ _ _ "t2" Hrun)
    as [Ht2 _].
  split; (etrans; [eassumption|vm_compute; reflexivity]).
Defined.

(** X24.  Relationship facts of a completed pass from the empty schema:
    there is one per transaction that names a merchant, in ledger order,
    with the predicate "merchant", from the transaction's event to the
    entity id registered for its merchant; and both ends of every
    relationship fact are nodes of the schema, an event and an entity. *)
Theorem migrate_pass_links_events_to_merchants (now iso : nat → string)
    (clock0 : nat) (transactions : list Migration.transaction)
    (st : Migration.migration_state) :
  Migration.migrate_transactions now iso (Migration.initial_state clock0)
    transactions = Ok st →
  Forall2 (Migration.merchant_link (Migration.entity_registry st))
    (Migration.with_merchant transactions)
    (Store.relationship_facts (Migration.schema st))
  ∧ Forall (Migration.links_nodes (Store.nodes (Migration.schema st)))
      (Store.relationship_facts (Migration.schema st)).
Proof.
  intros Hrun. split.
  - by destruct (migrate_transactions_initial _ _ _ _ _ Hrun)
      as (_ & _ & _ & _ & _ & Hlinks & _).
  - by eapply links_nodes_of_initial.
Qed.

Lemma migrate_pass_links_events_to_merchants_witness :
  ∃ st,
    Migration.migrate_transactions Samples.iso_clock Samples.iso_clock
      (Migration.initial_state 0) Samples.canonical_ledger = Ok st
    ∧ Forall2 (Migration.merchant_link (Migration.entity_registry st))
        (Migration.with_merchant Samples.canonical_ledger)
        (Store.relationship_facts (Migration.schema st))
    ∧ Forall (Migration.links_nodes (Store.nodes (Migration.schema st)))
        (Store.relationship_facts (Migration.schema st)).
Proof.
  assert (∃ st,
    Migration.migrate_transactions Samples.iso_clock Samples.iso_clock
      (Migration.initial_state 0) Samples.canonical_ledger = Ok st)
    as [st Hrun] by (eexists; vm_compute; reflexivity).
  exists st. split; [exact Hrun|].
  exact (migrate_pass_links_events_to_merchants _ _ _ _ _ Hrun).
Defined.

(** X25.  The merchant registry of a completed pass from the empty
    schema: its keys are the merchant names of the ledger; the [n] names
    have pairwise different entity ids, each "ent_merchant_<i>" for some
    [i < n]; and under each id the schema has an entity node with that id
    whose only alias is the merchant name. *)
Theorem migrate_pass_registry (now iso : nat → string) (clock0 : nat)
    (transactions : list Migration.transaction)
    (st : Migration.migration_state) :
  Migration.migrate_transactions now iso (Migration.initial_state clock0)
    transactions = Ok st →
  dom (Migration.entity_registry st)
  = list_to_set (omap Migration.merchant transactions)
  ∧ (∀ name entity_id,
       Migration.entity_registry st !! name = Some entity_id →
       ∃ i entity,
         (i < size (Migration.entity_registry st))%nat
         ∧ entity_id = "ent_merchant_" +:+ pretty i
         ∧ Store.get_node (Migration.schema st) entity_id
           = Some (Store.Entity entity)
         ∧ Store.entity_id entity = entity_id
         ∧ Store.aliases entity = [name])
  ∧ (∀ name1 name2 entity_id,
       Migration.entity_registry st !! name1 = Some entity_id →
       Migration.entity_registry st !! name2 = Some entity_id →
       name1 = name2).
Proof.
  intros Hrun.
  destruct (migrate_transactions_initial _ _ _ _ _ Hrun)
    as ((_ & Hidx & Hents & Hinj & _) & Hdom & _).
  split_and!; [done| |done].
  intros name entity_id Hname.
  destruct (Hidx _ _ Hname) as (i & Hi & Heq).
  destruct (Hents _ _ Hname) as (entity & Hnode & Hid & Halias).
  by exists i, entity.
Qed.

Lemma migrate_pass_registry_witness :
  ∃ st,
    Migration.migrate_transactions Samples.iso_clock Samples.iso_clock
      (Migration.initial_state 0) Samples.canonical_ledger = Ok st
    ∧ dom (Migration.entity_registry st)
      = list_to_set (omap Migration.merchant Samples.canonical_ledger)
    ∧ ∃ i entity,
        (i < size (Migration.entity_registry st))%nat
        ∧ "ent_merchant_1" = "ent_merchant_" +:+ pretty i
        ∧ Store.get_node (Migration.schema st) "ent_merchant_1"
          = Some (Store.Entity entity)
        ∧ Store.entity_id entity = "ent_merchant_1"
        ∧ Store.aliases entity = ["Amazon"].
Proof.
  assert (∃ st,
    Migration.migrate_transactions Samples.iso_clock Samples.iso_clock
      (Migration.initial_state 0) Samples.canonical_ledger = Ok st
    ∧ Migration.entity_registry st !! "Amazon" = Some "ent_merchant_1")
    as (st & Hrun & Hname) by (eexists; vm_compute; split; reflexivity).
  exists st. split; [exact Hrun|].
  destruct (migrate_pass_registry _ _ _ _ _ Hrun) as (Hdom & Hnodes & _).
  split; [exact Hdom|]. exact (Hnodes _ _ Hname).
Defined.

(** X26.  No dangling attribute fact: after the migration every attribute
    fact is about a node of the schema, and its statement id is the one
    [generate_statement_id] gives for the prefix "attr", the fact's own
    subject and predicate, and some reading of the clock. *)
Theorem migrate_ledger_facts_describe_nodes (now iso : nat → string)
    (clock0 : nat) (transactions : list Migration.transaction)
    (schema : Store.StorageSchema) (stats : Migration.statistics_t) :
  Migration.migrate_canonical_ledger now iso clock0 transactions
  = Ok (schema, stats) →
  Forall
    (λ f, is_Some (Store.get_node schema (Store.subject_id f))
          ∧ ∃ reading,
              Store.statement_id f
              = (Migrate.generate_statement_id now reading "attr"
                   (Store.subject_id f) (Store.predicate f)).1)
    (Store.attribute_facts schema).
Proof.
  intros (st' & Hrun & -> & ->)%migrate_ledger_inv.
  destruct (migrate_transactions_initial _ _ _ _ _ Hrun)
    as (_ & _ & _ & Hdesc & _).
  eapply Forall_impl; [exact Hdesc|].
  intros f (Hnode & temporal & provenance & _ & _ & _ & _ & _ & Hid).
  by split.
Qed.

Lemma migrate_ledger_facts_describe_nodes_witness :
  ∃ schema stats,
    Migration.migrate_canonical_ledger Samples.iso_clock Samples.iso_clock 0
      Samples.canonical_ledger = Ok (schema, stats)
    ∧ Forall
        (λ f, is_Some (Store.get_node schema (Store.subject_id f))
              ∧ ∃ reading,
                  Store.statement_id f
                  = (Migrate.generate_statement_id Samples.iso_clock reading
                       "attr" (Store.subject_id f) (Store.predicate f)).1)
        (Store.attribute_facts schema).
Proof.
  assert (∃ d,
    Migration.migrate_canonical_ledger Samples.iso_clock Samples.iso_clock 0
      Samples.canonical_ledger = Ok d) as [[schema stats] Hrun]
    by (eexists; vm_compute; reflexivity).
  exists schema, stats. split; [exact Hrun|].
  exact (migrate_ledger_facts_describe_nodes _ _ _ _ _ _ Hrun).
Defined.

(** X27.  Qualifiers of the migrated facts: every attribute fact takes
    its qualifiers from one transaction of the ledger.  It is valid from
    that transaction's date, when it has one, and open-ended; its
    confidence is the transaction's ["overall"] confidence when the
    confidence is a dict that has one, the number itself when it is a
    number other than 0, and 1 otherwise - so a numeric confidence of 0 is
    stored as 1, while an ["overall"] of 0 is stored as 0. *)
Theorem migrate_ledger_fact_qualifiers (now iso : nat → string)
    (clock0 : nat) (transactions : list Migration.transaction)
    (schema : Store.StorageSchema) (stats : Migration.statistics_t) :
  Migration.migrate_canonical_ledger now iso clock0 transactions
  = Ok (schema, stats) →
  Forall
    (λ f, ∃ tx,
       tx ∈ transactions
       ∧ Store.valid_to (Store.temporal f) = None
       ∧ Store.superseded_at (Store.temporal f) = None
       ∧ (∀ d, Migration.date tx = Some d →
               Store.valid_from (Store.temporal f) = d)
       ∧ Store.confidence (Store.provenance f)
         = match Migration.confidence tx with
           | Some (Migration.ConfidenceNumber q) =>
               if Qeq_bool q 0 then 1%Q else q
           | Some (Migration.ConfidenceDict (Some overall)) => overall
           | _ => 1%Q
           end)
    (Store.attribute_facts schema).
Proof.
  intros (st' & Hrun & -> & ->)%migrate_ledger_inv.
  destruct (migrate_transactions_initial _ _ _ _ _ Hrun)
    as (_ & _ & _ & _ & Hmade & _).
  eapply Forall_impl; [exact Hmade|].
  intros f (tx & c1 & c2 & Hin & -> & ->). exists tx.
  unfold Migration.create_temporal_qualifiers, Migration.create_provenance.
  simpl. split_and!; try done.
  - by intros d ->.
  - by destruct (Migration.confidence tx) as [[[q|]|q]|].
Qed.

Lemma migrate_ledger_fact_qualifiers_witness :
  ∃ schema stats,
    Migration.migrate_canonical_ledger Samples.iso_clock Samples.iso_clock 0
      [Samples.coffee] = Ok (schema, stats)
    ∧ Forall
        (λ f, ∃ tx,
           tx ∈ [Samples.coffee]
           ∧ Store.valid_to (Store.temporal f) = None
           ∧ Store.superseded_at (Store.temporal f) = None
           ∧ (∀ d, Migration.date tx = Some d →
                   Store.valid_from (Store.temporal f) = d)
           ∧ Store.confidence (Store.provenance f)
             = match Migration.confidence tx with
               | Some (Migration.ConfidenceNumber q) =>
                   if Qeq_bool q 0 then 1%Q else q
               | Some (Migration.ConfidenceDict (Some overall)) => overall
               | _ => 1%Q
               end)
        (Store.attribute_facts schema).
Proof.
  assert (∃ d,
    Migration.migrate_canonical_ledger Samples.iso_clock Samples.iso_clock 0
      [Samples.coffee] = Ok d) as [[schema stats] Hrun]
    by (eexists; vm_compute; reflexivity).
  exists schema, stats. split; [exact Hrun|].
  exact (migrate_ledger_fact_qualifiers _ _ _ _ _ _ Hrun).
Defined.

(** X28.  The migration links nothing to reconciliation decisions: no
    attribute fact and no relationship fact of the migrated schema names a
    reconciliation decision or a rejected alternative. *)
Theorem migrate_ledger_names_no_decision (now iso : nat → string)
    (clock0 : nat) (transactions : list Migration.transaction)
    (schema : Store.StorageSchema) (stats : Migration.statistics_t) :
  Migration.migrate_canonical_ledger now iso clock0 transactions
  = Ok (schema, stats) →
  Forall (λ f, Store.reconciliation_decision_id f = None
               ∧ Store.rejected_alternatives f = [])
    (Store.attribute_facts schema)
  ∧ Forall (λ r, Store.rel_reconciliation_decision_id r = None
                 ∧ Store.rel_rejected_alternatives r = [])
      (Store.relationship_facts schema).
Proof.
  intros (st' & Hrun & -> & ->)%migrate_ledger_inv.
  destruct (migrate_transactions_initial _ _ _ _ _ Hrun)
    as (_ & _ & _ & Hdesc & _ & Hlinks & _).
  split.
  - eapply Forall_impl; [exact Hdesc|].
    by intros f (_ & temporal & provenance & _ & _ & _ & Hd & Hr & _).
  - induction Hlinks as [|tx r l rels Hlink _ IH]; constructor; [|done].
    by destruct Hlink as (tid & m & _ & _ & _ & _ & _ & Hd & Hr).
Qed.

Lemma migrate_ledger_names_no_decision_witness :
  ∃ schema stats,
    Migration.migrate_canonical_ledger Samples.iso_clock Samples.iso_clock 0
      Samples.canonical_ledger = Ok (schema, stats)
    ∧ Forall (λ f, Store.reconciliation_decision_id f = None
                   ∧ Store.rejected_alternatives f = [])
        (Store.attribute_facts schema)
    ∧ Forall (λ r, Store.rel_reconciliation_decision_id r = None
                   ∧ Store.rel_rejected_alternatives r = [])
        (Store.relationship_facts schema).
Proof.
  assert (∃ d,
    Migration.migrate_canonical_ledger Samples.iso_clock Samples.iso_clock 0
      Samples.canonical_ledger = Ok d) as [[schema stats] Hrun]
    by (eexists; vm_compute; reflexivity).
  exists schema, stats. split; [exact Hrun|].
  exact (migrate_ledger_names_no_decision _ _ _ _ _ _ Hrun).
Defined.

(** X29.  Decision ids follow the counter: two decisions built by
    [create_reconciliation_decision] have the same [decision_id] exactly
    when they were built with the same counter, also for counters of more
    than six digits. *)
Theorem decision_ids_follow_counter (now : nat → string)
    (FIELD_SCHEMA : list string) (clock1 clock2 : nat)
    (observations1 observations2 : list Reconcile.observation)
    (canonical1 canonical2 : Reconcile.canonical_record)
    (counter1 counter2 : nat)
    (decision1 decision2 : Schema.ReconciliationDecision) :
  Reconcile.create_reconciliation_decision now FIELD_SCHEMA clock1
    observations1 canonical1 counter1 = Ok decision1 →
  Reconcile.create_reconciliation_decision now FIELD_SCHEMA clock2
    observations2 canonical2 counter2 = Ok decision2 →
  Schema.decision_id decision1 = Schema.decision_id decision2
  ↔ counter1 = counter2.
Proof.
  unfold Reconcile.create_reconciliation_decision.
  destruct (Reconcile.record_fields canonical1 _ _) as [[s1 i1]|key1];
    unfold mbind, result_bind; [|done].
  destruct (Reconcile.record_fields canonical2 _ _) as [[s2 i2]|key2];
    unfold mbind, result_bind; [|done].
  intros [= <-] [= <-]. simpl. split.
  - intros Heq. apply (inj (String.app "recon_decision_")) in Heq.
    by apply format_06d_inj.
  - by intros ->.
Qed.

Lemma decision_ids_follow_counter_witness :
  ∃ decision1 decision2,
    Reconcile.create_reconciliation_decision Samples.iso_clock
      Samples.field_schema 0 [Samples.obs1] Samples.scalar_record 999999
    = Ok decision1
    ∧ Reconcile.create_reconciliation_decision Samples.iso_clock
        Samples.field_schema 3 [Samples.obs1] Samples.mixed_record 1000000
      = Ok decision2
    ∧ (Schema.decision_id decision1 = Schema.decision_id decision2
       ↔ 999999%nat = 1000000%nat).
Proof.
  assert (∃ decision,
    Reconcile.create_reconciliation_decision Samples.iso_clock
      Samples.field_schema 0 [Samples.obs1] Samples.scalar_record 999999
    = Ok decision) as [decision1 Hrun1]
    by (eexists; vm_compute; reflexivity).
  assert (∃ decision,
    Reconcile.create_reconciliation_decision Samples.iso_clock
      Samples.field_schema 3 [Samples.obs1] Samples.mixed_record 1000000
    = Ok decision) as [decision2 Hrun2]
    by (eexists; vm_compute; reflexivity).
  exists decision1, decision2. split; [exact Hrun1|]. split; [exact Hrun2|].
  exact (decision_ids_follow_counter _ _ _ _ _ _ _ _ _ _ _ _ Hrun1 Hrun2).
Defined.

(** X30.  Merchants can be read back: after a completed pass from the
    empty schema, [get_relationships] for the event of a transaction id -
    with no predicate or with the predicate "merchant" - returns one fact
    per transaction with this id that names a merchant, in ledger order,
    whose target is the entity id registered for that merchant. *)
Theorem migrate_pass_merchants_read_back (now iso : nat → string)
    (clock0 : nat) (transactions : list Migration.transaction)
    (st : Migration.migration_state) (transaction_id : string)
    (predicate_arg : option string) :
  Migration.migrate_transactions now iso (Migration.initial_state clock0)
    transactions = Ok st →
  predicate_arg = None ∨ predicate_arg = Some "merchant" →
  Store.target_id
    <$> Store.get_relationships (Migration.schema st)
          ("evt_" +:+ transaction_id) predicate_arg
  = omap (λ tx, Migration.merchant tx ≫= (Migration.entity_registry st !!.))
      (Migration.same_id transaction_id transactions).
Proof.
  intros Hrun Hpredicate.
  destruct (migrate_transactions_initial _ _ _ _ _ Hrun)
    as (_ & _ & _ & _ & _ & Hlinks & _).
  destruct (relationship_targets _ transaction_id _ _ Hlinks)
    as [Hpred <-].
  unfold Store.get_relationships.
  destruct Hpredicate as [-> | ->]; simpl; [done|].
  f_equal. revert Hpred.
  generalize (Store.relationship_facts (Migration.schema st)).
  intros rels Hpred. induction Hpred as [|r rels Hr _ IH]; [done|].
  simpl. destruct (bool_decide (Store.rel_subject_id r = _)); [|done].
  simpl. rewrite bool_decide_eq_true_2 by done. by rewrite IH.
Qed.

Lemma migrate_pass_merchants_read_back_witness :
  ∃ st,
    Migration.migrate_transactions Samples.iso_clock Samples.iso_clock
      (Migration.initial_state 0) Samples.canonical_ledger = Ok st
    ∧ Store.target_id
        <$> Store.get_relationships (Migration.schema st) "evt_t1"
              (Some "merchant")
      = ["ent_merchant_0"; "ent_merchant_0"].
Proof.
  assert (∃ st,
    Migration.migrate_transactions Samples.iso_clock Samples.iso_clock
      (Migration.initial_state 0) Samples.canonical_ledger = Ok st
    ∧ omap (λ tx, Migration.merchant tx
                  ≫= (Migration.entity_registry st !!.))
        (Migration.same_id "t1" Samples.canonical_ledger)
      = ["ent_merchant_0"; "ent_merchant_0"])
    as (st & Hrun & Htargets) by (eexists; vm_compute; split; reflexivity).
  exists st. split; [exact Hrun|]. rewrite <- Htargets.
  apply (migrate_pass_merchants_read_back _ _ _ _ _ "t1" _ Hrun).
  by right.
Defined.
